(** * Face-indexed photo store: indexing, search and file operations

    A shallow embedding of [database_manager.py] (the SQLite-backed encoding
    store), [face_recognition_engine.py] (the wrapper around the
    [face_recognition] library) and [photo_manager.py] (indexing, similarity
    search, copy / move / delete), followed by the properties of these
    operations.

    Modelling conventions.
    - Python floats (modification times, distances, similarities) are exact
      rationals [Q]; [>=] and [<=] are [Qle_bool].
    - A SQLite table is the list of its rows in insertion order, together with
      the table's AUTOINCREMENT counter.  Storage faults (the [except] branch
      of every store method) are outside the model: the engine always answers.
    - The file system is a finite map from path strings to nodes, with the
      hierarchy POSIX puts on it: an entry lives in the directory named by
      [dirname], a directory is created inside an existing directory, and
      renaming a directory takes along what is below it.  Paths are taken
      in normal form (absolute, no empty, [.] or [..] component); how the
      kernel resolves other spellings, symbolic links, and what a call
      that raises leaves behind are outside the model.
    - The [face_recognition] library is external: its detector and its
      distance function are section variables. *)

From Stdlib Require Import Ascii String QArith Qabs Lqa.
From stdpp Require Import gmap strings list pretty sorting.

Local Open Scope string_scope.

(** ** POSIX path helpers ([os.path]) *)

Module PosixPath.

(** [s.rpartition(sep)] restricted to the case where [sep] occurs: the text
    before and after the last occurrence of [sep]. *)
Fixpoint rpartition (sep : ascii) (s : string) : option (string * string) :=
  match s with
  | EmptyString => None
  | String c r =>
      match rpartition sep r with
      | Some (h, t) => Some (String c h, t)
      | None => if Ascii.eqb c sep then Some (EmptyString, r) else None
      end
  end.

Fixpoint all_char (c : ascii) (s : string) : bool :=
  match s with
  | EmptyString => true
  | String d r => Ascii.eqb d c && all_char c r
  end.

(** [s.rstrip(c)] *)
Fixpoint rstrip (c : ascii) (s : string) : string :=
  match s with
  | EmptyString => EmptyString
  | String d r => if all_char c s then EmptyString else String d (rstrip c r)
  end.

(** [os.path.basename]: [i = p.rfind('/') + 1; return p[i:]]. *)
Definition basename (p : string) : string :=
  match rpartition "/" p with
  | Some (_, t) => t
  | None => p
  end.

(** [os.path.dirname]: the head up to and including the last slash, with
    trailing slashes stripped unless it consists of slashes only. *)
Definition dirname (p : string) : string :=
  match rpartition "/" p with
  | Some (h, _) =>
      let head := h +:+ "/" in
      if all_char "/" head then head else rstrip "/" head
  | None => ""
  end.

(** [os.path.splitext]: the extension starts at the last dot of the last
    path component, provided a character other than a dot precedes it
    there. *)
Definition splitext (p : string) : string * string :=
  let '(dir, name) :=
    match rpartition "/" p with
    | Some (h, t) => (h +:+ "/", t)
    | None => ("", p)
    end in
  match rpartition "." name with
  | Some (stem, e) =>
      if all_char "." stem then (p, "")
      else (dir +:+ stem, String "." e)
  | None => (p, "")
  end.

(** [os.path.split]: [dirname] and [basename] are its two halves. *)
Definition split (p : string) : string * string := (dirname p, basename p).

Definition ends_with_sep (p : string) : bool :=
  match rpartition "/" p with
  | Some (_, "") => true
  | _ => false
  end.

(** [p if p.endswith('/') else p + '/'] *)
Definition with_sep (p : string) : string :=
  if ends_with_sep p then p else p +:+ "/".

(** [p[n:]] *)
Fixpoint skip (n : nat) (p : string) : string :=
  match n, p with
  | O, _ => p
  | S n', String _ r => skip n' r
  | S _, EmptyString => EmptyString
  end.

(** [os.path.join(a, b)] *)
Definition join (a b : string) : string :=
  if String.prefix "/" b then b
  else if bool_decide (a = "") || ends_with_sep a then a +:+ b
  else a +:+ "/" +:+ b.

Definition lower_ascii (c : ascii) : ascii :=
  let n := nat_of_ascii c in
  if (65 <=? n)%nat && (n <=? 90)%nat then ascii_of_nat (n + 32) else c.

(** [str.lower()] on the ASCII letters. *)
Fixpoint lower (s : string) : string :=
  match s with
  | EmptyString => EmptyString
  | String c r => String (lower_ascii c) (lower r)
  end.

End PosixPath.

(** ** The encoding store ([DatabaseManager]) *)

Definition Encoding := list Q.

(** A face region [(top, right, bottom, left)]. *)
Definition Location := (Z * Z * Z * Z)%type.

(** A row of table [images].  Column [processed_time] (the wall clock at
    insertion) is not modelled. *)
Record ImageRow := {
  img_id : nat;
  file_path : string;
  file_name : string;
  file_size : Z;
  modification_time : Q;
  face_count : nat;
  folder_path : string
}.

(** A row of table [face_encodings]; the pickled encoding and the JSON
    location are stored as the values they round-trip to. *)
Record FaceRow := {
  fe_id : nat;
  image_id : nat;
  face_index : nat;
  encoding_data : Encoding;
  face_location : Location;
  confidence_score : Q
}.

(** A row of table [search_folders]; [added_time] is not modelled. *)
Record FolderRow := {
  sf_id : nat;
  sf_folder_path : string;
  is_active : bool
}.

(** The database file: three tables, each with the largest rowid it ever
    handed out (its [sqlite_sequence] entry). *)
Record Store := {
  images : list ImageRow;
  images_seq : nat;
  face_encodings : list FaceRow;
  face_encodings_seq : nat;
  search_folders : list FolderRow;
  search_folders_seq : nat
}.

(** The dictionaries yielded by [get_all_face_encodings]. *)
Record FaceData := {
  fd_id : nat;
  fd_image_id : nat;
  fd_face_index : nat;
  fd_encoding : Encoding;
  fd_face_location : Location;
  fd_confidence_score : Q;
  fd_file_path : string;
  fd_file_name : string
}.

(** The dictionary returned by [get_database_stats]. *)
Record Stats := {
  total_images : nat;
  total_faces : nat;
  active_folders : nat;
  database_size : Z
}.

Module DatabaseManager.

(** [init_database] on a fresh file. *)
Definition init_database : Store :=
  {| images := []; images_seq := 0;
     face_encodings := []; face_encodings_seq := 0;
     search_folders := []; search_folders_seq := 0 |}.

(** The rowid of an INTEGER PRIMARY KEY AUTOINCREMENT column for a new row:
    one more than the largest rowid that ever existed in the table. *)
Definition next_rowid (seq : nat) (ids : list nat) : nat :=
  S (seq `max` max_list ids).

(** [INSERT OR REPLACE INTO search_folders (folder_path, is_active)
    VALUES (?, 1)]: the UNIQUE column [folder_path] makes REPLACE delete the
    conflicting row before the new one is inserted. *)
Definition add_search_folder (db : Store) (path : string) : bool * Store :=
  let id := next_rowid (search_folders_seq db) (sf_id <$> search_folders db) in
  let kept := filter (λ r, sf_folder_path r ≠ path) (search_folders db) in
  (true,
   {| images := images db; images_seq := images_seq db;
      face_encodings := face_encodings db;
      face_encodings_seq := face_encodings_seq db;
      search_folders :=
        kept ++ [{| sf_id := id; sf_folder_path := path; is_active := true |}];
      search_folders_seq := id |}).

(** [SELECT folder_path FROM search_folders WHERE is_active = 1] *)
Definition get_search_folders (db : Store) : list string :=
  sf_folder_path <$> filter (λ r, is_active r = true) (search_folders db).

(** [UPDATE search_folders SET is_active = 0 WHERE folder_path = ?] *)
Definition remove_search_folder (db : Store) (path : string) : bool * Store :=
  let deactivate r :=
    if bool_decide (sf_folder_path r = path)
    then {| sf_id := sf_id r; sf_folder_path := sf_folder_path r;
            is_active := false |}
    else r in
  (true,
   {| images := images db; images_seq := images_seq db;
      face_encodings := face_encodings db;
      face_encodings_seq := face_encodings_seq db;
      search_folders := deactivate <$> search_folders db;
      search_folders_seq := search_folders_seq db |}).

(** [INSERT OR REPLACE INTO images (...) VALUES (...)] followed by
    [cursor.lastrowid].  REPLACE deletes the row that holds the same
    [file_path] and inserts a row with a fresh rowid.  Every connection is
    opened by a bare [sqlite3.connect]; SQLite enforces foreign keys only
    after [PRAGMA foreign_keys = ON], which no method issues, so the
    [ON DELETE CASCADE] of [face_encodings.image_id] is inert and table
    [face_encodings] is left as it is.  The statement runs for values
    SQLite can store; an integer outside 64 bits makes [sqlite3] raise,
    which the method answers with [None] (a storage fault, outside the
    model). *)
Definition add_image_record (db : Store) (path name : string) (size : Z)
    (mtime : Q) (faces : nat) (folder : string) : option nat * Store :=
  let id := next_rowid (images_seq db) (img_id <$> images db) in
  let kept := filter (λ r, file_path r ≠ path) (images db) in
  (Some id,
   {| images :=
        kept ++ [{| img_id := id; file_path := path; file_name := name;
                    file_size := size; modification_time := mtime;
                    face_count := faces; folder_path := folder |}];
      images_seq := id;
      face_encodings := face_encodings db;
      face_encodings_seq := face_encodings_seq db;
      search_folders := search_folders db;
      search_folders_seq := search_folders_seq db |}).

(** [INSERT INTO face_encodings (...) VALUES (...)] *)
Definition add_face_encoding (db : Store) (image : nat) (index : nat)
    (encoding : Encoding) (location : Location) (confidence : Q)
    : bool * Store :=
  let id := next_rowid (face_encodings_seq db) (fe_id <$> face_encodings db) in
  (true,
   {| images := images db; images_seq := images_seq db;
      face_encodings :=
        face_encodings db ++
          [{| fe_id := id; image_id := image; face_index := index;
              encoding_data := encoding; face_location := location;
              confidence_score := confidence |}];
      face_encodings_seq := id;
      search_folders := search_folders db;
      search_folders_seq := search_folders_seq db |}).

(** [SELECT ... FROM images WHERE file_path = ?] and [fetchone]. *)
Definition get_image_by_path (db : Store) (path : string) : option ImageRow :=
  head (filter (λ r, file_path r = path) (images db)).

Definition join_row (fe : FaceRow) (i : ImageRow) : FaceData :=
  {| fd_id := fe_id fe; fd_image_id := image_id fe;
     fd_face_index := face_index fe; fd_encoding := encoding_data fe;
     fd_face_location := face_location fe;
     fd_confidence_score := confidence_score fe;
     fd_file_path := file_path i; fd_file_name := file_name i |}.

(** [SELECT ... FROM face_encodings fe JOIN images i ON fe.image_id = i.id] *)
Definition get_all_face_encodings (db : Store) : list FaceData :=
  fe ← face_encodings db;
  i ← filter (λ i, img_id i = image_id fe) (images db);
  [join_row fe i].

(** [image_record and image_record['modification_time'] >= modification_time] *)
Definition is_image_processed (db : Store) (path : string) (mtime : Q) : bool :=
  match get_image_by_path db path with
  | Some image_record => Qle_bool mtime (modification_time image_record)
  | None => false
  end.

(** Look the id up by path; when a row is found, delete the encodings that
    carry the id, then the image row.  Returns [True] either way. *)
Definition delete_image_and_faces (db : Store) (path : string) : bool * Store :=
  match head (filter (λ r, file_path r = path) (images db)) with
  | Some row =>
      (true,
       {| images := filter (λ r, img_id r ≠ img_id row) (images db);
          images_seq := images_seq db;
          face_encodings :=
            filter (λ fe, image_id fe ≠ img_id row) (face_encodings db);
          face_encodings_seq := face_encodings_seq db;
          search_folders := search_folders db;
          search_folders_seq := search_folders_seq db |})
  | None => (true, db)
  end.

(** Three [SELECT COUNT( * )] queries, none with a WHERE clause, and the
    size of the database file, which the caller supplies here. *)
Definition get_database_stats (db : Store) (file_bytes : Z) : Stats :=
  {| total_images := length (images db);
     total_faces := length (face_encodings db);
     active_folders := length (search_folders db);
     database_size := file_bytes |}.

(** [ORDER BY face_index]: ascending, rows with equal index in table
    order. *)
Fixpoint insert_by_face_index (x : FaceRow) (l : list FaceRow) : list FaceRow :=
  match l with
  | [] => [x]
  | y :: l' =>
      if (face_index x <=? face_index y)%nat then x :: l
      else y :: insert_by_face_index x l'
  end.

Definition order_by_face_index (l : list FaceRow) : list FaceRow :=
  foldr insert_by_face_index [] l.

(** [SELECT id, face_index, encoding_data, face_location, confidence_score
    FROM face_encodings WHERE image_id = ? ORDER BY face_index]; the rows are
    returned whole, their [image_id] being the argument. *)
Definition get_face_encodings_by_image (db : Store) (image : nat) : list FaceRow :=
  order_by_face_index (filter (λ fe, image_id fe = image) (face_encodings db)).

End DatabaseManager.

(** ** The file system as the program sees it ([os], [shutil]) *)

(** What [os.stat] and a read of the path give. *)
Record Node := {
  is_dir : bool;
  st_mtime : Q;
  st_size : Z;
  data : string
}.

(** [nodes] maps the path of every entry, directories included, to what is
    there; [denied] holds the paths on which creating, replacing or
    removing an entry raises [PermissionError]. *)
Record FileSystem := {
  nodes : gmap string Node;
  denied : gset string
}.

(** A call that either returns or raises; the text stands for [str(e)]. *)
Inductive result (A : Type) : Type :=
| Ok (a : A)
| Raise (msg : string).
Arguments Ok {A} a.
Arguments Raise {A} msg.

Module OS.

Definition path_exists (fs : FileSystem) (p : string) : bool :=
  bool_decide (is_Some (nodes fs !! p)).

Definition isdir (fs : FileSystem) (p : string) : bool :=
  match nodes fs !! p with
  | Some n => is_dir n
  | None => false
  end.

Definition stat (fs : FileSystem) (p : string) : result Node :=
  match nodes fs !! p with
  | Some n => Ok n
  | None => Raise "No such file or directory"
  end.

Definition new_directory : Node :=
  {| is_dir := true; st_mtime := 0; st_size := 0; data := "" |}.

(** What stands in the way of creating or replacing the entry [p]: the
    directory that is to hold it must exist and be a directory, and the
    change must be permitted. *)
Definition obstacle (fs : FileSystem) (p : string) : option string :=
  match nodes fs !! PosixPath.dirname p with
  | None => Some "No such file or directory"
  | Some d =>
      if negb (is_dir d) then Some "Not a directory"
      else if bool_decide (p ∈ denied fs) then Some "Permission denied"
      else None
  end.

(** [os.mkdir(p)] *)
Definition mkdir (fs : FileSystem) (p : string) : result FileSystem :=
  if path_exists fs p then Raise "File exists"
  else
    match obstacle fs p with
    | Some msg => Raise msg
    | None =>
        Ok {| nodes := <[p := new_directory]> (nodes fs); denied := denied fs |}
    end.

(** The body of [os.makedirs(name)] with [exist_ok=False]:
    [head, tail = split(name)], once more when [tail] is empty; the missing
    [head] is made first, a [FileExistsError] of that call being passed
    over; a [tail] of [.] ends the call; then [mkdir(name)].  [fuel] bounds
    the depth of the recursion. *)
Fixpoint makedirs_rec (fuel : nat) (fs : FileSystem) (name : string)
    : option (result FileSystem) :=
  match fuel with
  | O => None
  | S fuel' =>
      let '(head, tail) := PosixPath.split name in
      let '(head, tail) :=
        if bool_decide (tail = "") then PosixPath.split head else (head, tail) in
      if negb (bool_decide (head = "")) && negb (bool_decide (tail = ""))
         && negb (path_exists fs head)
      then
        match makedirs_rec fuel' fs head with
        | None => None
        | Some made =>
            let fs1 :=
              match made with
              | Ok fs1 => Ok fs1
              | Raise msg =>
                  if bool_decide (msg = "File exists") then Ok fs else Raise msg
              end in
            match fs1 with
            | Raise msg => Some (Raise msg)
            | Ok fs1 =>
                if bool_decide (tail = ".") then Some (Ok fs1)
                else Some (mkdir fs1 name)
            end
        end
      else Some (mkdir fs name)
  end.

(** [os.makedirs(p)]; every recursive call is on a shorter path. *)
Definition makedirs (fs : FileSystem) (p : string) : option (result FileSystem) :=
  makedirs_rec (S (String.length p)) fs p.

(** [os.remove(p)] *)
Definition remove (fs : FileSystem) (p : string) : result FileSystem :=
  match nodes fs !! p with
  | None => Raise "No such file or directory"
  | Some n =>
      if is_dir n then Raise "Is a directory"
      else if bool_decide (p ∈ denied fs) then Raise "Permission denied"
      else Ok {| nodes := delete p (nodes fs); denied := denied fs |}
  end.

(** [shutil.copy2(src, dst)]: into [dst] when it is a directory, onto [dst]
    otherwise, replacing a file already there; the copy carries the
    source's contents and times. *)
Definition copy2 (fs : FileSystem) (src dst : string) : result FileSystem :=
  let target :=
    if isdir fs dst then PosixPath.join dst (PosixPath.basename src) else dst in
  match nodes fs !! src with
  | None => Raise "No such file or directory"
  | Some n =>
      if is_dir n then Raise "Is a directory"
      else if bool_decide (src = target) then Raise "are the same file"
      else if isdir fs target then Raise "Is a directory"
      else
        match obstacle fs target with
        | Some msg => Raise msg
        | None =>
            Ok {| nodes := <[target := n]> (nodes fs); denied := denied fs |}
        end
  end.

(** [shutil._destinsrc(src, dst)]: [dst] is [src] or lies below it. *)
Definition destinsrc (src dst : string) : bool :=
  String.prefix (PosixPath.with_sep src) (PosixPath.with_sep dst).

(** [os.rename] of the directory [src] to the free name [dst]: the
    directory and every entry below it change their prefix. *)
Definition rename_tree (src dst : string) (m : gmap string Node)
    : gmap string Node :=
  list_to_map
    ((λ kv : string * Node,
        (if destinsrc src kv.1
         then dst +:+ PosixPath.skip (String.length src) kv.1
         else kv.1, kv.2))
       <$> map_to_list m).

(** [shutil.move(src, dst)]: into [dst] when it is a directory and holds no
    entry of the source's name (taken without trailing separators);
    otherwise [os.rename(src, dst)], which replaces a file by a file,
    refuses to put a directory below itself or onto a file, and needs the
    directory of the new name. *)
Definition move (fs : FileSystem) (src dst : string) : result FileSystem :=
  match nodes fs !! src with
  | None => Raise "No such file or directory"
  | Some n =>
      if isdir fs dst && bool_decide (src = dst) then Ok fs
      else
        let real_dst :=
          if isdir fs dst
          then PosixPath.join dst
                 (PosixPath.basename (PosixPath.rstrip "/" src))
          else dst in
        if isdir fs dst && path_exists fs real_dst
        then Raise "Destination path already exists"
        else if bool_decide (src = real_dst) then Ok fs
        else if is_dir n && destinsrc src real_dst
        then Raise "Cannot move a directory into itself"
        else if is_dir n && path_exists fs real_dst then Raise "File exists"
        else
          match obstacle fs real_dst with
          | Some msg => Raise msg
          | None =>
              if bool_decide (src ∈ denied fs) then Raise "Permission denied"
              else
                Ok {| nodes :=
                        if is_dir n then rename_tree src real_dst (nodes fs)
                        else <[real_dst := n]> (delete src (nodes fs));
                      denied := denied fs |}
          end
  end.

End OS.

(** ** Results handed to callers *)

(** The dictionary built by [process_image_for_faces] on success. *)
Record Processed := {
  image_path : string;
  pr_face_count : nat;
  pr_face_locations : list Location;
  pr_face_encodings : list Encoding;
  timestamp : Q;
  pr_file_size : Z
}.

(** An entry of the list returned by [search_similar_faces]. *)
Record Match := {
  m_file_path : string;
  m_file_name : string;
  m_face_location : Location;
  m_distance : Q;
  m_similarity : Q;
  m_face_index : nat
}.

(** The dictionary returned by [copy_files], [move_files], [delete_files]. *)
Record OpResult := {
  successful : nat;
  failed : nat;
  errors : list string
}.

(** The dictionary returned by [index_images_batch]. *)
Record BatchResult := {
  bt_total : nat;
  bt_successful : nat;
  bt_failed : nat;
  bt_progress : nat
}.

(** ** The engine wrapper ([FaceRecognitionEngine]) *)

Module FaceRecognitionEngine.
Section Engine.

(** [face_recognition.load_image_file], [face_locations] and
    [face_encodings] run on the bytes of a file: the regions and the
    encodings found, or [None] when one of the three raises. *)
Variable detect : string → option (list Location * list Encoding).

(** [face_recognition.face_distance(face_encodings, face_to_compare)]:
    the array of distances, or [None] when numpy raises. *)
Variable lib_face_distance : Encoding → list Encoding → option (list Q).

Definition supported_formats : list string :=
  [".jpg"; ".jpeg"; ".png"; ".bmp"; ".tiff"; ".tif"].

Definition is_supported_image (path : string) : bool :=
  bool_decide ((PosixPath.splitext (PosixPath.lower path)).2 ∈ supported_formats).

(** The library is run inside [try]; whatever it raises is logged and
    answered with two empty lists.  The second component records the path
    handed to the library. *)
Definition get_face_locations_and_encodings (fs : FileSystem) (path : string)
    : (list Location * list Encoding) * list string :=
  let found :=
    match nodes fs !! path with
    | Some n => if is_dir n then None else detect (data n)
    | None => None
    end in
  (default ([], []) found, [path]).

(** [face_distance(known_encoding, unknown_encodings)]: an empty list when
    the second argument is empty or the library raises. *)
Definition face_distance (known_encoding : list Encoding)
    (unknown_encodings : Encoding) : list Q :=
  if bool_decide (length unknown_encodings = 0%nat) then []
  else default [] (lib_face_distance unknown_encodings known_encoding).

Definition process_image_for_faces (fs : FileSystem) (path : string)
    : (string + Processed) * list string :=
  if negb (is_supported_image path) then (inl "Unsupported image format", [])
  else if negb (OS.path_exists fs path) then (inl "File not found", [])
  else
    let '((face_locations, face_encodings), calls) :=
      get_face_locations_and_encodings fs path in
    match OS.stat fs path with
    | Ok st =>
        (inr {| image_path := path;
                pr_face_count := length face_locations;
                pr_face_locations := face_locations;
                pr_face_encodings := face_encodings;
                timestamp := st_mtime st;
                pr_file_size := st_size st |}, calls)
    | Raise msg => (inl ("Processing failed: " +:+ msg), calls)
    end.

End Engine.
End FaceRecognitionEngine.

(** ** Indexing, search and file operations ([PhotoManager]) *)

Module PhotoManager.
Section Manager.

Variable detect : string → option (list Location * list Encoding).
Variable lib_face_distance : Encoding → list Encoding → option (list Q).

Import DatabaseManager.

(** The loop over [enumerate(zip(face_locations, face_encodings))]. *)
Fixpoint add_faces (db : Store) (image : nat) (i : nat)
    (faces : list (Location * Encoding)) : Store :=
  match faces with
  | [] => db
  | (location, encoding) :: rest =>
      add_faces (add_face_encoding db image i encoding location 1).2
                image (S i) rest
  end.

(** [index_image]: the result, the store afterwards, and the paths handed
    to the detector during the call. *)
Definition index_image (fs : FileSystem) (db : Store) (path : string)
    : bool * Store * list string :=
  if negb (OS.path_exists fs path) then (false, db, [])
  else
    match OS.stat fs path with
    | Raise _ => (false, db, [])
    | Ok file_stat =>
        let modification_time := st_mtime file_stat in
        let file_size := st_size file_stat in
        let file_name := PosixPath.basename path in
        let folder_path := PosixPath.dirname path in
        if is_image_processed db path modification_time then (true, db, [])
        else
          match FaceRecognitionEngine.process_image_for_faces detect fs path with
          | (inl _, calls) => (false, db, calls)
          | (inr face_data, calls) =>
              match add_image_record db path file_name file_size
                      modification_time (pr_face_count face_data) folder_path with
              | (None, db1) => (false, db1, calls)
              | (Some image, db1) =>
                  (true,
                   add_faces db1 image 0
                     (zip (pr_face_locations face_data)
                          (pr_face_encodings face_data)),
                   calls)
              end
          end
    end.

(** [face_data['file_path'].startswith(folder)] for some current folder. *)
Definition in_current_folder (current_folders : list string) (fd : FaceData) : bool :=
  existsb (λ folder, String.prefix folder (fd_file_path fd)) current_folders.

(** The row is skipped by the [continue] of the folder check. *)
Definition skipped (restrict : bool) (current_folders : list string)
    (fd : FaceData) : bool :=
  restrict && negb (bool_decide (current_folders = []))
  && negb (in_current_folder current_folders fd).

(** [self.face_engine.face_distance([face_data['encoding']], reference)[0]];
    [None] is the [IndexError] of indexing an empty list. *)
Definition row_distance (reference_encoding : Encoding) (fd : FaceData) : option Q :=
  FaceRecognitionEngine.face_distance lib_face_distance
    [fd_encoding fd] reference_encoding !! 0%nat.

Definition make_match (fd : FaceData) (distance : Q) : Match :=
  {| m_file_path := fd_file_path fd; m_file_name := fd_file_name fd;
     m_face_location := fd_face_location fd;
     m_distance := distance; m_similarity := 1 - distance;
     m_face_index := fd_face_index fd |}.

(** [distance <= tolerance and similarity >= min_similarity] *)
Definition qualifies (tolerance min_similarity distance : Q) : bool :=
  Qle_bool distance tolerance && Qle_bool min_similarity (1 - distance).

(** The [for face_data in all_encodings] loop; [None] when an exception
    leaves it. *)
Fixpoint scan (reference_encoding : Encoding) (tolerance min_similarity : Q)
    (restrict : bool) (current_folders : list string)
    (rows : list FaceData) : option (list Match) :=
  match rows with
  | [] => Some []
  | fd :: rest =>
      if skipped restrict current_folders fd
      then scan reference_encoding tolerance min_similarity restrict
                current_folders rest
      else
        distance ← row_distance reference_encoding fd;
        matches ← scan reference_encoding tolerance min_similarity restrict
                       current_folders rest;
        Some (if qualifies tolerance min_similarity distance
              then make_match fd distance :: matches
              else matches)
  end.

(** [matches.sort(key=lambda x: x['similarity'], reverse=True)]: a stable
    sort, larger similarity first, equal similarities in their old order. *)
Fixpoint insert_desc (x : Match) (l : list Match) : list Match :=
  match l with
  | [] => [x]
  | y :: l' =>
      if Qle_bool (m_similarity y) (m_similarity x) then x :: l
      else y :: insert_desc x l'
  end.

Definition sort_by_similarity (l : list Match) : list Match :=
  foldr insert_desc [] l.

Definition search_similar_faces (db : Store) (reference_encoding : Encoding)
    (tolerance min_similarity : Q) (restrict_to_current_folder : bool)
    : list Match :=
  let all_encodings := get_all_face_encodings db in
  if bool_decide (all_encodings = []) then []
  else
    let current_folders :=
      if restrict_to_current_folder then get_search_folders db else [] in
    match scan reference_encoding tolerance min_similarity
               restrict_to_current_folder current_folders all_encodings with
    | Some matches => sort_by_similarity matches
    | None => []
    end.

(** The [while os.path.exists(dest_path)] loop of [copy_files] and
    [move_files].  [fuel] bounds the number of iterations; [None] means the
    bound was reached with the candidate still taken. *)
Fixpoint free_dest_path (fuel : nat) (fs : FileSystem)
    (destination_folder base_name ext : string) (counter : nat)
    (dest_path : string) : option string :=
  if OS.path_exists fs dest_path then
    match fuel with
    | O => None
    | S fuel' =>
        let new_name := base_name +:+ "_" +:+ pretty counter +:+ ext in
        free_dest_path fuel' fs destination_folder base_name ext (S counter)
          (PosixPath.join destination_folder new_name)
    end
  else Some dest_path.

(** The destination chosen for [file_name]: the loop is entered with
    [counter = 1] and runs with more fuel than the file system has
    entries. *)
Definition unique_dest (fs : FileSystem) (destination_folder file_name : string)
    : option string :=
  let dest_path := PosixPath.join destination_folder file_name in
  let '(base_name, ext) := PosixPath.splitext file_name in
  free_dest_path (S (size (nodes fs))) fs destination_folder base_name ext 1
    dest_path.

(** [if not os.path.exists(destination_folder): os.makedirs(...)], outside
    any [try]. *)
Definition ensure_folder (fs : FileSystem) (destination_folder : string)
    : option (result FileSystem) :=
  if OS.path_exists fs destination_folder then Some (Ok fs)
  else OS.makedirs fs destination_folder.

Definition report (successful failed : nat) (errors : list string) : OpResult :=
  {| successful := successful; failed := failed; errors := errors |}.

(** The [for source_path in source_paths] loop of [copy_files]; [None]
    only when [unique_dest] runs out of fuel. *)
Fixpoint copy_loop (fs : FileSystem) (destination_folder : string)
    (source_paths : list string) (successful failed : nat)
    (errors : list string) : option (OpResult * FileSystem) :=
  match source_paths with
  | [] => Some (report successful failed errors, fs)
  | source_path :: rest =>
      if OS.path_exists fs source_path then
        dest_path ← unique_dest fs destination_folder
                      (PosixPath.basename source_path);
        match OS.copy2 fs source_path dest_path with
        | Ok fs' =>
            copy_loop fs' destination_folder rest (S successful) failed errors
        | Raise msg =>
            copy_loop fs destination_folder rest successful (S failed)
              (errors ++ ["Error copying " +:+ source_path +:+ ": " +:+ msg])
        end
      else
        copy_loop fs destination_folder rest successful (S failed)
          (errors ++ ["File not found: " +:+ source_path])
  end.

(** [copy_files]: [Some (Raise _)] when [os.makedirs] raises out of the
    method, [Some (Ok _)] when the dictionary is returned, [None] only when
    a bound on the iterations is reached. *)
Definition copy_files (fs : FileSystem) (source_paths : list string)
    (destination_folder : string) : option (result (OpResult * FileSystem)) :=
  match ensure_folder fs destination_folder with
  | None => None
  | Some (Raise msg) => Some (Raise msg)
  | Some (Ok fs0) => Ok <$> copy_loop fs0 destination_folder source_paths 0 0 []
  end.

Fixpoint move_loop (fs : FileSystem) (db : Store) (destination_folder : string)
    (source_paths : list string) (successful failed : nat)
    (errors : list string) : option (OpResult * FileSystem * Store) :=
  match source_paths with
  | [] => Some (report successful failed errors, fs, db)
  | source_path :: rest =>
      if OS.path_exists fs source_path then
        dest_path ← unique_dest fs destination_folder
                      (PosixPath.basename source_path);
        match OS.move fs source_path dest_path with
        | Ok fs' =>
            move_loop fs' (delete_image_and_faces db source_path).2
              destination_folder rest (S successful) failed errors
        | Raise msg =>
            move_loop fs db destination_folder rest successful (S failed)
              (errors ++ ["Error moving " +:+ source_path +:+ ": " +:+ msg])
        end
      else
        move_loop fs db destination_folder rest successful (S failed)
          (errors ++ ["File not found: " +:+ source_path])
  end.

Definition move_files (fs : FileSystem) (db : Store)
    (source_paths : list string) (destination_folder : string)
    : option (result (OpResult * FileSystem * Store)) :=
  match ensure_folder fs destination_folder with
  | None => None
  | Some (Raise msg) => Some (Raise msg)
  | Some (Ok fs0) =>
      Ok <$> move_loop fs0 db destination_folder source_paths 0 0 []
  end.

Fixpoint delete_loop (fs : FileSystem) (db : Store) (file_paths : list string)
    (successful failed : nat) (errors : list string)
    : OpResult * FileSystem * Store :=
  match file_paths with
  | [] => (report successful failed errors, fs, db)
  | path :: rest =>
      if OS.path_exists fs path then
        match OS.remove fs path with
        | Ok fs' =>
            delete_loop fs' (delete_image_and_faces db path).2 rest
              (S successful) failed errors
        | Raise msg =>
            delete_loop fs db rest successful (S failed)
              (errors ++ ["Error deleting " +:+ path +:+ ": " +:+ msg])
        end
      else
        delete_loop fs (delete_image_and_faces db path).2 rest
          successful (S failed) (errors ++ ["File not found: " +:+ path])
  end.

Definition delete_files (fs : FileSystem) (db : Store) (file_paths : list string)
    : OpResult * FileSystem * Store :=
  delete_loop fs db file_paths 0 0 [].

(** The tally of [index_images_batch] for a pool of one worker
    ([max_workers=1], as the web application calls it): the submitted calls
    run one after the other in list order, and each completion bumps one
    counter and the progress.  The last component collects the paths handed
    to the detector. *)
Fixpoint batch_loop (fs : FileSystem) (db : Store) (paths : list string)
    (successful failed progress : nat) (calls : list string)
    : nat * nat * nat * Store * list string :=
  match paths with
  | [] => (successful, failed, progress, db, calls)
  | path :: rest =>
      let '(result, db', c) := index_image fs db path in
      if result
      then batch_loop fs db' rest (S successful) failed (S progress) (calls ++ c)
      else batch_loop fs db' rest successful (S failed) (S progress) (calls ++ c)
  end.

Definition index_images_batch (fs : FileSystem) (db : Store)
    (image_paths : list string) : BatchResult * Store * list string :=
  let '(successful, failed, progress, db', calls) :=
    batch_loop fs db image_paths 0 0 0 [] in
  ({| bt_total := length image_paths; bt_successful := successful;
      bt_failed := failed; bt_progress := progress |}, db', calls).

(** The loop of [cleanup_database] over the rows read at its start. *)
Fixpoint cleanup_loop (fs : FileSystem) (db : Store) (rows : list FaceData)
    (removed_count : nat) : nat * Store :=
  match rows with
  | [] => (removed_count, db)
  | face_data :: rest =>
      if negb (OS.path_exists fs (fd_file_path face_data))
      then cleanup_loop fs
             (delete_image_and_faces db (fd_file_path face_data)).2
             rest (S removed_count)
      else cleanup_loop fs db rest removed_count
  end.

Definition cleanup_database (fs : FileSystem) (db : Store) : nat * Store :=
  cleanup_loop fs db (get_all_face_encodings db) 0.

End Manager.
End PhotoManager.

(** ** The upload filter of the web application ([web_app.py]) *)

Module WebApp.

Definition allowed_extensions : list string :=
  ["jpg"; "jpeg"; "png"; "bmp"; "tiff"; "tif"].

(** ['.' in filename and filename.rsplit('.', 1)[1].lower() in {...}] *)
Definition allowed_file (filename : string) : bool :=
  match PosixPath.rpartition "." filename with
  | Some (_, ext) => bool_decide (PosixPath.lower ext ∈ allowed_extensions)
  | None => false
  end.

End WebApp.

(** ** Schema constraints *)

(** [file_path TEXT UNIQUE] on table [images]. *)
Definition unique_paths (db : Store) : Prop :=
  NoDup (file_path <$> images db).

(** ** Vocabulary of the search properties *)

#[local] Instance Qle_decision (x y : Q) : Decision (x <= y)%Q.
Proof.
  destruct (Qle_bool x y) eqn:H.
  - left. by apply Qle_bool_iff.
  - right. intros Hle. apply Qle_bool_iff in Hle. congruence.
Defined.

(** The folders a search is restricted to: the active search folders when
    the caller asks for the restriction, none otherwise. *)
Definition current_folders (db : Store) (restrict : bool) : list string :=
  if restrict then DatabaseManager.get_search_folders db else [].

(** The stored encodings a search looks at: the joined rows that the folder
    check does not skip. *)
Definition in_scope (db : Store) (restrict : bool) : list FaceData :=
  filter (λ fd, PhotoManager.skipped restrict (current_folders db restrict) fd = false)
         (DatabaseManager.get_all_face_encodings db).

(** Larger similarity first. *)
Definition by_similarity_desc (a b : Match) : Prop :=
  (m_similarity b <= m_similarity a)%Q.

(** [path] begins with [folder], as strings. *)
Definition begins_with (path folder : string) : Prop :=
  ∃ rest, path = folder +:+ rest.

#[local] Instance begins_with_dec path folder : Decision (begins_with path folder).
Proof.
  revert path. induction folder as [|c folder IH]; intros path.
  - left. by exists path.
  - destruct path as [|d path].
    + right. intros [rest H]. discriminate H.
    + destruct (decide (d = c)) as [->|Hne].
      * destruct (IH path) as [Hyes|Hno].
        -- left. destruct Hyes as [rest ->]. by exists rest.
        -- right. intros [rest H]. apply Hno. exists rest.
           change (String c path = String c (folder +:+ rest)) in H.
           congruence.
      * right. intros [rest H].
        change (String d path = String c (folder +:+ rest)) in H. congruence.
Defined.

(** What a search is to return, written from the description of the
    operation and not from its code. *)
Module SearchSpec.

(** The stored encodings: every encoding row with the image row that owns
    it. *)
Definition stored (db : Store) : list (FaceRow * ImageRow) :=
  fe ← face_encodings db;
  i ← images db;
  if bool_decide (image_id fe = img_id i) then [(fe, i)] else [].

(** The scope folders: the search folders whose active flag is set when the
    search is restricted, none otherwise. *)
Definition scope (db : Store) (restrict : bool) : list string :=
  if restrict
  then sf_folder_path <$> filter (λ r, is_active r = true) (search_folders db)
  else [].

(** A path is within scope when no scope folder is given, or when it begins
    with one of them. *)
Definition within (folders : list string) (path : string) : Prop :=
  folders = [] ∨ Exists (begins_with path) folders.

(** The item returned for an encoding at distance [d]. *)
Definition item (fe : FaceRow) (i : ImageRow) (d : Q) : Match :=
  {| m_file_path := file_path i; m_file_name := file_name i;
     m_face_location := face_location fe;
     m_distance := d; m_similarity := 1 - d;
     m_face_index := face_index fe |}.

(** An encoding is returned when its image is within scope, its distance is
    at most the tolerance and its similarity at least the floor. *)
Definition wanted (db : Store) (restrict : bool) (tolerance min_similarity : Q)
    (dist : FaceRow → Q) (row : FaceRow * ImageRow) : Prop :=
  within (scope db restrict) (file_path row.2)
  ∧ (dist row.1 <= tolerance)%Q ∧ (min_similarity <= 1 - dist row.1)%Q.

Definition matches (db : Store) (restrict : bool) (tolerance min_similarity : Q)
    (dist : FaceRow → Q) : list Match :=
  (λ row, item row.1 row.2 (dist row.1))
    <$> filter (wanted db restrict tolerance min_similarity dist) (stored db).

End SearchSpec.

(** ** Vocabulary of the file-operation properties *)

(** The [counter]-th name tried by the renaming loop. *)
Definition candidate (destination_folder base_name ext : string) (counter : nat)
    : string :=
  PosixPath.join destination_folder
    (base_name +:+ "_" +:+ pretty counter +:+ ext).

(** The counters of a result add up to [n] paths, with one message per
    failure. *)
Definition counters_ok (n : nat) (r : OpResult) : Prop :=
  (successful r + failed r = n)%nat ∧ length (errors r) = failed r.

(** [p.split('/')] *)
Fixpoint split_sep (p : string) : list string :=
  match p with
  | EmptyString => [EmptyString]
  | String c r =>
      if Ascii.eqb c "/" then EmptyString :: split_sep r
      else
        match split_sep r with
        | h :: t => String c h :: t
        | [] => [String c EmptyString]
        end
  end.

(** A name an entry of a directory can carry. *)
Definition is_component (name : string) : bool :=
  negb (bool_decide (name = "")) && negb (bool_decide (name = "."))
  && negb (bool_decide (name = "..")).

(** An absolute path in normal form: [/], or [/c1/.../cn] with every [ci]
    a name. *)
Definition normal (p : string) : bool :=
  match split_sep p with
  | EmptyString :: c :: cs =>
      bool_decide (c = "" ∧ cs = []) || forallb is_component (c :: cs)
  | _ => false
  end.

(** [d] is the name the renaming policy gives to [name] in [dest]: the
    plain path when that is free, and otherwise [base_k ext] for the least
    [k >= 1] for which that is free. *)
Definition first_free (fs : FileSystem) (dest name d : string) : Prop :=
  nodes fs !! d = None
  ∧ (d = PosixPath.join dest name
     ∨ is_Some (nodes fs !! PosixPath.join dest name)
       ∧ ∃ k, (1 ≤ k)%nat
              ∧ d = candidate dest (PosixPath.splitext name).1
                              (PosixPath.splitext name).2 k
              ∧ ∀ j, (1 ≤ j < k)%nat →
                     is_Some (nodes fs !! candidate dest
                                (PosixPath.splitext name).1
                                (PosixPath.splitext name).2 j)).

(** [fs0] is [fs] with the destination folder in place: what a call
    without sources leaves. *)
Definition with_folder (fs : FileSystem) (dest : string) (fs0 : FileSystem)
    : Prop :=
  PhotoManager.copy_files fs [] dest
  = Some (Ok (PhotoManager.report 0 0 [], fs0)).

(** ** Vocabulary of the store properties *)

(** The values an INTEGER column holds: 64-bit signed integers. *)
Definition sqlite_integer (z : Z) : Prop := (- 2 ^ 63 ≤ z < 2 ^ 63)%Z.

(** Table [images] has a rowid left to hand out: neither its counter nor
    an id in it is the largest integer. *)
Definition rowid_left (db : Store) : Prop :=
  Forall (λ id, sqlite_integer (Z.of_nat (S id)))
         (images_seq db :: (img_id <$> images db)).

(** [id INTEGER PRIMARY KEY] on table [images]. *)
Definition unique_ids (db : Store) : Prop :=
  NoDup (img_id <$> images db).

(** What the schema and the AUTOINCREMENT counter guarantee of a store that
    was only ever written through the manager: paths and ids are unique, no
    image id exceeds the counter, and no encoding refers to an id the
    counter has not reached. *)
Definition store_ok (db : Store) : Prop :=
  unique_paths db ∧ unique_ids db
  ∧ Forall (λ i, (img_id i ≤ images_seq db)%nat) (images db)
  ∧ Forall (λ fe, (image_id fe ≤ images_seq db)%nat) (face_encodings db).

(** The encodings a search would see for one path. *)
Definition visible_at (db : Store) (path : string) : list FaceData :=
  filter (λ fd, fd_file_path fd = path) (DatabaseManager.get_all_face_encodings db).

(** What a processing pass stores of a face: its index, region and
    encoding. *)
Definition face_facts (fe : FaceRow) : nat * Location * Encoding :=
  (face_index fe, face_location fe, encoding_data fe).

Definition joined_facts (fd : FaceData) : nat * Location * Encoding :=
  (fd_face_index fd, fd_face_location fd, fd_encoding fd).

(** The faces of a pass, numbered from [i]. *)
Fixpoint numbered (i : nat) (faces : list (Location * Encoding))
    : list (nat * Location * Encoding) :=
  match faces with
  | [] => []
  | (location, encoding) :: rest => (i, location, encoding) :: numbered (S i) rest
  end.

(** The faces the engine reports for a file, as [index_image] pairs them. *)
Definition detected (detect : string → option (list Location * list Encoding))
    (fs : FileSystem) (path : string) : list (Location * Encoding) :=
  let '(locations, encodings) :=
    (FaceRecognitionEngine.get_face_locations_and_encodings detect fs path).1 in
  zip locations encodings.

(** The rows the join produces for one encoding row. *)
Definition joined (imgs : list ImageRow) (fe : FaceRow) : list FaceData :=
  DatabaseManager.join_row fe <$> filter (λ i, img_id i = image_id fe) imgs.

(** The answer of [index_image] for a path. *)
Definition indexes (detect : string → option (list Location * list Encoding))
    (fs : FileSystem) (db : Store) (path : string) : bool :=
  (PhotoManager.index_image detect fs db path).1.1.

(** A path on which [index_image] answers [True] is recorded with the
    file's current modification time. *)
Definition settled (detect : string → option (list Location * list Encoding))
    (fs : FileSystem) (db : Store) (path : string) : Prop :=
  indexes detect fs db path = true →
  ∃ n, nodes fs !! path = Some n
       ∧ DatabaseManager.is_image_processed db path (st_mtime n) = true.

#[local] Instance Qeq_decision (x y : Q) : Decision (x == y)%Q := Qeq_dec x y.

(** ** Tactics for closed instances *)

(** Decide a closed decidable proposition by evaluation. *)
Ltac by_evaluation := apply (bool_decide_unpack _); vm_compute; exact I.

(** The schema constraints of a concrete store. *)
Ltac store_ok_by_evaluation :=
  unfold store_ok, unique_paths, unique_ids;
  split; [by_evaluation|]; split; [by_evaluation|]; split; by_evaluation.

(** ** A small collection used to exercise the operations *)

Module Scenario.
Import DatabaseManager.

Definition region : Location := (40, 180, 160, 60)%Z.

(** A stand-in for the detector: it recognises the bytes of a few
    pictures and raises on anything else. *)
Definition detect (bytes : string) : option (list Location * list Encoding) :=
  if bool_decide (bytes = "anna") then Some ([region], [[3 # 10]])
  else if bool_decide (bytes = "bela") then Some ([region], [[5 # 10]])
  else if bool_decide (bytes = "cleo") then Some ([region], [[7 # 10]])
  else if bool_decide (bytes = "dora") then Some ([region], [[1 # 10]])
  else if bool_decide (bytes = "ezra") then Some ([region], [[2 # 10]])
  else if bool_decide (bytes = "anna, retouched")
       then Some ([region], [[4 # 10]])
  else None.

(** A stand-in for the metric: the sum of coordinate differences, raising
    on vectors of different lengths. *)
Fixpoint taxicab (a b : Encoding) : option Q :=
  match a, b with
  | [], [] => Some 0%Q
  | x :: a', y :: b' => d ← taxicab a' b'; Some (Qabs (x - y) + d)%Q
  | _, _ => None
  end.

Definition lib_face_distance (face_encodings : Encoding)
    (face_to_compare : list Encoding) : option (list Q) :=
  mapM (taxicab face_encodings) face_to_compare.

Definition query : Encoding := [0%Q].

Definition distance (fd : FaceData) : Q :=
  default 0%Q (taxicab query (fd_encoding fd)).

Definition row_dist (fe : FaceRow) : Q :=
  default 0%Q (taxicab query (encoding_data fe)).

Definition picture (mtime : Q) (bytes : string) : Node :=
  {| is_dir := false; st_mtime := mtime;
     st_size := Z.of_nat (String.length bytes); data := bytes |}.

Definition disk : FileSystem :=
  {| nodes :=
       <["/photos/a.jpg" := picture 100 "anna"]>
       (<["/photos/b.jpg" := picture 110 "bela"]>
       (<["/photos/c.jpg" := picture 120 "cleo"]>
       (<["/photos/broken.jpg" := picture 130 "not an image"]>
       (<["/photos-old/d.jpg" := picture 140 "dora"]>
       (<["/inbox/a.jpg" := picture 150 "ezra"]>
       (<["/photos" := OS.new_directory]>
       (<["/photos-old" := OS.new_directory]>
       (<["/inbox" := OS.new_directory]>
       (<["/" := OS.new_directory]> ∅)))))))));
     denied := ∅ |}.

(** [disk] with the folder [/album] in place. *)
Definition disk_album : FileSystem :=
  {| nodes := <["/album" := OS.new_directory]> (nodes disk); denied := ∅ |}.

(** [disk_album] after [/photos/a.jpg] was copied there. *)
Definition album_one : FileSystem :=
  {| nodes := <["/album/a.jpg" := picture 100 "anna"]> (nodes disk_album);
     denied := ∅ |}.

(** The same disk after [/photos/a.jpg] was edited. *)
Definition disk_edited : FileSystem :=
  {| nodes := <["/photos/a.jpg" := picture 200 "anna, retouched"]> (nodes disk);
     denied := ∅ |}.

Definition configured : Store :=
  (add_search_folder init_database "/photos").2.

Definition index (fs : FileSystem) (db : Store) (path : string) : Store :=
  (PhotoManager.index_image detect fs db path).1.2.

(** The store after indexing the three portraits under [/photos]. *)
Definition portraits : Store :=
  index disk (index disk (index disk configured "/photos/a.jpg")
                    "/photos/b.jpg") "/photos/c.jpg".

(** The store after indexing the two portraits outside [/photos] too. *)
Definition indexed : Store :=
  index disk (index disk portraits "/photos-old/d.jpg") "/inbox/a.jpg".

Definition anna_row : ImageRow :=
  {| img_id := 1; file_path := "/photos/a.jpg"; file_name := "a.jpg";
     file_size := 4; modification_time := 100; face_count := 1;
     folder_path := "/photos" |}.

Definition anna_face : FaceRow :=
  {| fe_id := 1; image_id := 1; face_index := 0;
     encoding_data := [3 # 10]; face_location := region;
     confidence_score := 1 |}.

Definition to_copy : list string :=
  ["/photos/a.jpg"; "/inbox/a.jpg"; "/nowhere.png"; "/photos"].

(** The same without the directory. *)
Definition to_move : list string :=
  ["/photos/a.jpg"; "/inbox/a.jpg"; "/nowhere.png"].

(** A metric that raises on the encoding stored for [/inbox/a.jpg]. *)
Definition fragile_distance (face_encodings : Encoding)
    (face_to_compare : list Encoding) : option (list Q) :=
  if existsb (λ e, match e with
                   | [x] => Qeq_bool x (2 # 10)
                   | _ => false
                   end) face_to_compare
  then None
  else lib_face_distance face_encodings face_to_compare.

(** [indexed] with its only search folder deactivated. *)
Definition unscoped : Store :=
  (remove_search_folder indexed "/photos").2.

(** [disk] with a second copy of the first portrait. *)
Definition disk_twins : FileSystem :=
  {| nodes := <["/photos/a2.jpg" := picture 160 "anna"]> (nodes disk);
     denied := ∅ |}.

Definition twins : Store := index disk_twins portraits "/photos/a2.jpg".

(** [indexed] after the file without a face was indexed too. *)
Definition with_broken : Store := index disk indexed "/photos/broken.jpg".

(** [disk] after two files were removed behind the manager's back. *)
Definition disk_pruned : FileSystem :=
  {| nodes := delete "/photos/b.jpg" (delete "/photos/broken.jpg" (nodes disk));
     denied := ∅ |}.

Definition anna_match : Match :=
  {| m_file_path := "/photos/a.jpg"; m_file_name := "a.jpg";
     m_face_location := region; m_distance := 3 # 10;
     m_similarity := 7 # 10; m_face_index := 0 |}.

Definition dora_match : Match :=
  {| m_file_path := "/photos-old/d.jpg"; m_file_name := "d.jpg";
     m_face_location := region; m_distance := 1 # 10;
     m_similarity := 9 # 10; m_face_index := 0 |}.

Definition broken_row : ImageRow :=
  {| img_id := 6; file_path := "/photos/broken.jpg";
     file_name := "broken.jpg"; file_size := 12; modification_time := 130;
     face_count := 0; folder_path := "/photos" |}.

End Scenario.

(** * Properties *)

Section StoreFacts.
Import DatabaseManager.

Lemma get_image_by_path_Some db p r :
  get_image_by_path db p = Some r → r ∈ images db ∧ file_path r = p.
Proof.
  unfold get_image_by_path. intros H.
  apply head_Some_elem_of in H.
  by apply list_elem_of_filter in H as [? ?].
Qed.

Lemma get_image_by_path_None db p :
  get_image_by_path db p = None ↔ ∀ r, r ∈ images db → file_path r ≠ p.
Proof.
  unfold get_image_by_path. rewrite head_None. split.
  - intros H r Hr Hp. revert Hr. eapply filter_nil_not_elem_of; eauto.
  - intros H. induction (images db) as [|r l IH]; [done|].
    rewrite filter_cons. destruct (decide (file_path r = p)) as [Hp|Hp].
    + exfalso. eapply H; [|exact Hp]. left.
    + apply IH. intros r' Hr'. apply H. by right.
Qed.

Lemma init_database_unique_paths : unique_paths init_database.
Proof. unfold unique_paths. simpl. constructor. Qed.

(** Under the UNIQUE constraint the row found by path is the only row
    with that path. *)
Lemma get_image_by_path_unique db r :
  unique_paths db → r ∈ images db →
  get_image_by_path db (file_path r) = Some r.
Proof.
  unfold unique_paths, get_image_by_path.
  induction (images db) as [|x l IH]; intros Hnd Hin.
  - by apply not_elem_of_nil in Hin.
  - rewrite fmap_cons in Hnd. apply NoDup_cons in Hnd as [Hx Hnd].
    rewrite filter_cons. apply elem_of_cons in Hin as [->|Hin].
    + by rewrite decide_True.
    + rewrite decide_False; [by apply IH|].
      intros Heq. apply Hx. rewrite Heq. by apply list_elem_of_fmap_2.
Qed.

Lemma Qle_bool_succ_false (m : Q) : Qle_bool (m + 1) m = false.
Proof.
  apply not_true_is_false. rewrite Qle_bool_iff. lra.
Qed.

Lemma Qle_bool_refl (m : Q) : Qle_bool m m = true.
Proof. apply Qle_bool_iff. lra. Qed.

(** C6. [is_image_processed path mtime] answers [True] exactly when table
    [images] holds a row for [path] whose stored modification time is at
    least [mtime]; so for a row stored with time [m] the answer at [m] is
    [True] and the answer at [m + 1] is [False]. *)
Theorem is_image_processed_iff db p :
  unique_paths db →
  (∀ m, is_image_processed db p m = true ↔
        ∃ r, r ∈ images db ∧ file_path r = p ∧ (m <= modification_time r)%Q)
  ∧ (∀ r, r ∈ images db → file_path r = p →
        is_image_processed db p (modification_time r) = true
        ∧ is_image_processed db p (modification_time r + 1) = false).
Proof.
  intros Hu. split.
  - intros m. unfold is_image_processed. split.
    + destruct (get_image_by_path db p) as [r|] eqn:Hg; [|done].
      intros Hle. apply get_image_by_path_Some in Hg as [Hin Hp].
      exists r. by rewrite <- Qle_bool_iff.
    + intros (r & Hin & Hp & Hle). subst p.
      rewrite (get_image_by_path_unique db r Hu Hin).
      by apply Qle_bool_iff.
  - intros r Hin Hp. subst p. unfold is_image_processed.
    rewrite (get_image_by_path_unique db r Hu Hin).
    split; [apply Qle_bool_refl | apply Qle_bool_succ_false].
Qed.

(** C8. [delete_image_and_faces] returns [True] for every path; with no
    row for the path the store is left as it was, and with a row [r] for
    the path no row of [face_encodings] carries [r]'s id afterwards. *)
Theorem delete_image_and_faces_cascade db p :
  (delete_image_and_faces db p).1 = true
  ∧ (get_image_by_path db p = None → (delete_image_and_faces db p).2 = db)
  ∧ (∀ r, get_image_by_path db p = Some r →
       (∀ fe, fe ∈ face_encodings (delete_image_and_faces db p).2 →
              image_id fe ≠ img_id r)
       ∧ (∀ i, i ∈ images (delete_image_and_faces db p).2 →
               img_id i ≠ img_id r)).
Proof.
  unfold delete_image_and_faces, get_image_by_path.
  destruct (head _) as [row|]; simpl.
  - split; [done|]. split; [done|].
    intros r [= <-]. split.
    + intros fe Hfe. by apply list_elem_of_filter in Hfe as [? _].
    + intros i Hi. by apply list_elem_of_filter in Hi as [? _].
  - repeat split; done.
Qed.

(** With unique paths the deleted path is gone from the join as well. *)
Lemma delete_image_and_faces_path_gone db p :
  unique_paths db →
  get_image_by_path (delete_image_and_faces db p).2 p = None
  ∧ ∀ fd, fd ∈ get_all_face_encodings (delete_image_and_faces db p).2 →
          fd_file_path fd ≠ p.
Proof.
  intros Hu.
  assert (∀ i, i ∈ images (delete_image_and_faces db p).2 → file_path i ≠ p)
    as Hgone.
  { unfold delete_image_and_faces.
    destruct (head _) as [row|] eqn:Hh; simpl.
    - intros i Hi Hp. apply list_elem_of_filter in Hi as [Hne Hi].
      apply Hne. f_equal.
      pose proof (get_image_by_path_unique db i Hu Hi) as Hgi.
      unfold get_image_by_path in Hgi. rewrite Hp in Hgi. congruence.
    - by apply get_image_by_path_None. }
  split; [by apply get_image_by_path_None|].
  intros fd Hfd. unfold get_all_face_encodings in Hfd.
  apply list_elem_of_bind in Hfd as (fe & Hfd & _).
  apply list_elem_of_bind in Hfd as (i & Hfd & Hi).
  apply list_elem_of_singleton in Hfd as ->.
  apply list_elem_of_filter in Hi as [_ Hi]. simpl. by apply Hgone.
Qed.

Lemma remove_search_folder_length db p :
  length (search_folders (remove_search_folder db p).2)
  = length (search_folders db).
Proof. simpl. by rewrite length_fmap. Qed.

(** The count reported as [active_folders] is the size of the whole
    table; deactivating a folder does not change it. *)
Lemma active_folders_ignores_flag db p sz :
  active_folders (get_database_stats (remove_search_folder db p).2 sz)
  = active_folders (get_database_stats db sz).
Proof. unfold get_database_stats. simpl. by rewrite length_fmap. Qed.

End StoreFacts.

Section SearchFacts.
Import DatabaseManager PhotoManager.

Variable lib : Encoding → list Encoding → option (list Q).

Lemma qualifies_iff tol ms d :
  qualifies tol ms d = true ↔ (d <= tol)%Q ∧ (ms <= 1 - d)%Q.
Proof.
  unfold qualifies. rewrite andb_true_iff, !Qle_bool_iff. done.
Qed.

Lemma insert_desc_perm x l : insert_desc x l ≡ₚ x :: l.
Proof.
  induction l as [|y l IH]; simpl; [done|].
  destruct (Qle_bool _ _); [done|].
  rewrite IH. apply Permutation_swap.
Qed.

Lemma sort_by_similarity_perm l : sort_by_similarity l ≡ₚ l.
Proof.
  induction l as [|x l IH]; simpl; [done|].
  rewrite insert_desc_perm. by f_equiv.
Qed.

Lemma insert_desc_sorted x l :
  StronglySorted by_similarity_desc l →
  StronglySorted by_similarity_desc (insert_desc x l).
Proof.
  induction 1 as [|y l Hs IH Hall]; simpl.
  - repeat constructor.
  - destruct (Qle_bool (m_similarity y) (m_similarity x)) eqn:Hle.
    + apply Qle_bool_iff in Hle.
      constructor; [by constructor|].
      constructor; [exact Hle|].
      eapply Forall_impl; [exact Hall|].
      intros z Hz. unfold by_similarity_desc in *. lra.
    + assert (m_similarity x <= m_similarity y)%Q as Hxy.
      { destruct (Qlt_le_dec (m_similarity x) (m_similarity y)) as [?|Hge];
          [lra|].
        apply Qle_bool_iff in Hge. congruence. }
      constructor; [exact IH|].
      rewrite insert_desc_perm. by constructor.
Qed.

Lemma sort_by_similarity_sorted l :
  StronglySorted by_similarity_desc (sort_by_similarity l).
Proof.
  induction l as [|x l IH]; simpl; [constructor|].
  by apply insert_desc_sorted.
Qed.

(** The loop depends on the folder check and, for the rows the check lets
    through, on the distance; on nothing else. *)
Lemma scan_ext lib' q tol ms r1 f1 r2 f2 rows :
  (∀ fd, fd ∈ rows → skipped r1 f1 fd = skipped r2 f2 fd) →
  (∀ fd, fd ∈ rows → skipped r1 f1 fd = false →
         row_distance lib q fd = row_distance lib' q fd) →
  scan lib q tol ms r1 f1 rows = scan lib' q tol ms r2 f2 rows.
Proof.
  induction rows as [|fd rows IH]; intros Hs Hd; [done|].
  simpl. rewrite <- (Hs fd) by left.
  rewrite IH.
  - destruct (skipped r1 f1 fd) eqn:Hsk; [done|].
    rewrite (Hd fd) by (done || left). done.
  - intros fd' Hin. apply Hs. by right.
  - intros fd' Hin. apply Hd. by right.
Qed.

(** When every row let through has a distance, the loop returns the
    qualifying rows, in table order. *)
Lemma scan_defined q tol ms r f rows (dist : FaceData → Q) :
  (∀ fd, fd ∈ rows → skipped r f fd = false →
         row_distance lib q fd = Some (dist fd)) →
  scan lib q tol ms r f rows
  = Some ((λ fd, make_match fd (dist fd)) <$>
            filter (λ fd, (dist fd <= tol)%Q ∧ (ms <= 1 - dist fd)%Q)
              (filter (λ fd, skipped r f fd = false) rows)).
Proof.
  induction rows as [|fd rows IH]; intros Hd; [done|].
  simpl. rewrite IH by (intros fd' Hin; apply Hd; by right).
  rewrite (filter_cons (λ fd, skipped r f fd = false)).
  destruct (skipped r f fd) eqn:Hsk.
  - rewrite decide_False by done. done.
  - rewrite decide_True by done.
    rewrite (Hd fd) by (done || left). simpl.
    rewrite filter_cons.
    destruct (qualifies tol ms (dist fd)) eqn:Hq.
    + rewrite decide_True by (by apply qualifies_iff). done.
    + rewrite decide_False; [done|].
      rewrite <- qualifies_iff. congruence.
Qed.

(** What the loop appends comes from a row that passed the folder check. *)
Lemma scan_elem q tol ms r f rows matches m :
  scan lib q tol ms r f rows = Some matches → m ∈ matches →
  ∃ fd d, fd ∈ rows ∧ skipped r f fd = false
          ∧ row_distance lib q fd = Some d
          ∧ qualifies tol ms d = true ∧ m = make_match fd d.
Proof.
  revert matches. induction rows as [|fd rows IH]; intros matches; simpl.
  - intros [= <-] Hin. by apply not_elem_of_nil in Hin.
  - destruct (skipped r f fd) eqn:Hsk.
    + intros Hscan Hin. destruct (IH _ Hscan Hin) as (fd' & d & ? & ?).
      exists fd', d. split; [by right|done].
    + destruct (row_distance lib q fd) as [d|] eqn:Hd; [|done]. simpl.
      destruct (scan lib q tol ms r f rows) as [rest|]; [|done]. simpl.
      intros [= <-] Hin.
      destruct (qualifies tol ms d) eqn:Hq.
      * apply elem_of_cons in Hin as [->|Hin].
        -- exists fd, d. repeat split; try done. left.
        -- destruct (IH _ eq_refl Hin) as (fd' & d' & ? & ?).
           exists fd', d'. split; [by right|done].
      * destruct (IH _ eq_refl Hin) as (fd' & d' & ? & ?).
        exists fd', d'. split; [by right|done].
Qed.

Lemma search_unfold l db q tol ms restrict :
  search_similar_faces l db q tol ms restrict
  = if bool_decide (get_all_face_encodings db = []) then []
    else match scan l q tol ms restrict (current_folders db restrict)
                 (get_all_face_encodings db) with
         | Some matches => sort_by_similarity matches
         | None => []
         end.
Proof. reflexivity. Qed.

(** When the distance of every row the folder check lets through is
    defined, the search returns those of them with
    [distance <= tolerance] and [1 - distance >= min_similarity], each with
    its distance and with similarity [1 - distance], ordered by descending
    similarity. *)
Lemma search_in_scope_spec db q tol ms restrict (dist : FaceData → Q) :
  (∀ fd, fd ∈ in_scope db restrict → row_distance lib q fd = Some (dist fd)) →
  search_similar_faces lib db q tol ms restrict
    ≡ₚ (λ fd, make_match fd (dist fd)) <$>
         filter (λ fd, (dist fd <= tol)%Q ∧ (ms <= 1 - dist fd)%Q)
                (in_scope db restrict)
  ∧ Forall (λ m, m_similarity m = (1 - m_distance m)%Q)
           (search_similar_faces lib db q tol ms restrict)
  ∧ StronglySorted by_similarity_desc
                   (search_similar_faces lib db q tol ms restrict).
Proof.
  intros Hd.
  assert (search_similar_faces lib db q tol ms restrict
    ≡ₚ (λ fd, make_match fd (dist fd)) <$>
         filter (λ fd, (dist fd <= tol)%Q ∧ (ms <= 1 - dist fd)%Q)
                (in_scope db restrict)) as Hperm.
  { rewrite search_unfold. unfold in_scope in *. case_bool_decide as Hnil.
    - rewrite Hnil. done.
    - rewrite (scan_defined q tol ms restrict _ _ dist).
      + apply sort_by_similarity_perm.
      + intros fd Hin Hsk. apply Hd. by apply list_elem_of_filter. }
  split; [exact Hperm|]. split.
  - rewrite Hperm. apply Forall_fmap, Forall_forall. done.
  - rewrite search_unfold. case_bool_decide; [constructor|].
    destruct (scan _ _ _ _ _ _ _); [|constructor].
    apply sort_by_similarity_sorted.
Qed.

Lemma scan_raises q tol ms r f rows fd :
  fd ∈ rows → skipped r f fd = false → row_distance lib q fd = None →
  scan lib q tol ms r f rows = None.
Proof.
  intros Hin Hsk Hnone. induction rows as [|x rows IH].
  { by apply not_elem_of_nil in Hin. }
  simpl. apply elem_of_cons in Hin as [<-|Hin].
  - by rewrite Hsk, Hnone.
  - rewrite (IH Hin). destruct (skipped r f x); [done|].
    by destruct (row_distance lib q x).
Qed.

(** An exception inside the loop empties the result. *)
Lemma search_similar_faces_raises db q tol ms restrict fd :
  fd ∈ in_scope db restrict → row_distance lib q fd = None →
  search_similar_faces lib db q tol ms restrict = [].
Proof.
  intros Hin Hnone. rewrite search_unfold. case_bool_decide; [done|].
  unfold in_scope in Hin. apply list_elem_of_filter in Hin as [Hsk Hin].
  by rewrite (scan_raises _ _ _ _ _ _ fd Hin Hsk Hnone).
Qed.

(** *** The search against its description *)

Lemma begins_with_prefix folder path :
  String.prefix folder path = true ↔ begins_with path folder.
Proof.
  revert path. induction folder as [|c folder IH]; intros path.
  - split; [|by destruct path]. intros _. by exists path.
  - destruct path as [|d path].
    + split; [done|]. intros [rest H]. discriminate H.
    + cbn [String.prefix]. destruct (ascii_dec c d) as [->|Hne].
      * rewrite IH. split; intros [rest H]; exists rest.
        -- by rewrite H.
        -- change (String d path = String d (folder +:+ rest)) in H.
           congruence.
      * split; [done|]. intros [rest H].
        change (String d path = String c (folder +:+ rest)) in H. congruence.
Qed.

(** The join yields the stored encodings, in the same order. *)
Lemma get_all_face_encodings_stored db :
  get_all_face_encodings db
  = (λ row, join_row row.1 row.2) <$> SearchSpec.stored db.
Proof.
  unfold get_all_face_encodings, SearchSpec.stored.
  induction (face_encodings db) as [|fe fes IH]; [done|].
  cbn [mbind list_bind]. rewrite fmap_app, IH. f_equal.
  clear. induction (images db) as [|i imgs IH]; [done|].
  rewrite filter_cons. cbn [mbind list_bind]. rewrite fmap_app, <- IH.
  case_bool_decide as Hid.
  - rewrite decide_True by done. done.
  - rewrite decide_False by congruence. done.
Qed.

(** The folder check lets through the rows whose path is within scope. *)
Lemma skipped_within db restrict fd :
  skipped restrict (current_folders db restrict) fd = false
  ↔ SearchSpec.within (SearchSpec.scope db restrict) (fd_file_path fd).
Proof.
  unfold skipped, SearchSpec.within, current_folders, SearchSpec.scope,
    get_search_folders.
  destruct restrict; [|by split; [left|]].
  set (folders := sf_folder_path <$> _). cbn [andb].
  case_bool_decide as Hnil; cbn [negb andb]; [by split; [left|]|].
  rewrite negb_false_iff. unfold in_current_folder.
  rewrite existsb_exists, Exists_exists. split.
  - intros (folder & Hin & Hpre). right. exists folder.
    split; [by apply list_elem_of_In|]. by apply begins_with_prefix.
  - intros [?|(folder & Hin & Hpre)]; [done|]. exists folder.
    split; [by apply list_elem_of_In|]. by apply begins_with_prefix.
Qed.

(** With a query that is not empty, the distance of a row is the one the
    library answers for its encoding. *)
Lemma row_distance_lib q fe i d :
  q ≠ [] → lib q [encoding_data fe] = Some [d] →
  row_distance lib q (join_row fe i) = Some d.
Proof.
  intros Hq Hlib. unfold row_distance, FaceRecognitionEngine.face_distance.
  rewrite bool_decide_eq_false_2 by (by destruct q).
  cbn [fd_encoding join_row]. by rewrite Hlib.
Qed.

(** C1. For a query that is not empty and to which the library gives a
    distance for every stored encoding within scope, the search returns
    exactly the stored encodings whose image path is within scope (no scope
    folder given, or the path begins with one) and whose distance [d] has
    [d <= tolerance] and [1 - d >= min_similarity]; each item carries the
    path and name of the image, the region and index of the encoding, [d]
    and the similarity [1 - d]; and the list is in descending order of
    similarity. *)
Theorem search_similar_faces_spec db q tol ms restrict (dist : FaceRow → Q) :
  q ≠ [] →
  (∀ fe i, (fe, i) ∈ SearchSpec.stored db →
           SearchSpec.within (SearchSpec.scope db restrict) (file_path i) →
           lib q [encoding_data fe] = Some [dist fe]) →
  search_similar_faces lib db q tol ms restrict
    ≡ₚ SearchSpec.matches db restrict tol ms dist
  ∧ Forall (λ m, m_similarity m = (1 - m_distance m)%Q)
           (search_similar_faces lib db q tol ms restrict)
  ∧ StronglySorted by_similarity_desc
                   (search_similar_faces lib db q tol ms restrict).
Proof.
  intros Hq Hlib.
  set (unjoin := λ fd : FaceData,
         {| fe_id := fd_id fd; image_id := fd_image_id fd;
            face_index := fd_face_index fd; encoding_data := fd_encoding fd;
            face_location := fd_face_location fd;
            confidence_score := fd_confidence_score fd |}).
  assert (∀ fe i, unjoin (join_row fe i) = fe) as Hun by (by intros []).
  destruct (search_in_scope_spec db q tol ms restrict (λ fd, dist (unjoin fd)))
    as (Hperm & Hsim & Hsorted).
  { intros fd Hin. unfold in_scope in Hin.
    apply list_elem_of_filter in Hin as [Hsk Hin].
    rewrite get_all_face_encodings_stored in Hin.
    apply list_elem_of_fmap in Hin as ([fe i] & -> & Hin).
    cbn [fst snd]. cbv beta. rewrite (Hun fe i).
    apply row_distance_lib; [done|].
    apply (Hlib fe i); [done|]. by apply skipped_within in Hsk. }
  split; [|done]. rewrite Hperm.
  match goal with
  | |- ?a ≡ₚ ?b => assert (a = b) as Heq; [|by rewrite Heq]
  end.
  unfold SearchSpec.matches, in_scope.
  rewrite get_all_face_encodings_stored. clear Hlib Hperm Hsim Hsorted.
  induction (SearchSpec.stored db) as [|[fe i] rows IH]; [done|].
  rewrite fmap_cons. cbn [fst snd].
  rewrite (filter_cons (λ fd, skipped _ _ fd = false)).
  rewrite (filter_cons (SearchSpec.wanted _ _ _ _ _)).
  pose proof (skipped_within db restrict (join_row fe i)) as Hsk.
  cbn [fd_file_path join_row] in Hsk.
  assert (SearchSpec.wanted db restrict tol ms dist (fe, i)
          ↔ skipped restrict (current_folders db restrict) (join_row fe i)
            = false
            ∧ (dist fe <= tol)%Q ∧ (ms <= 1 - dist fe)%Q) as Hwanted.
  { unfold SearchSpec.wanted. cbn [fst snd]. by rewrite Hsk. }
  destruct (decide (skipped restrict (current_folders db restrict)
                      (join_row fe i) = false)) as [Hin|Hout].
  - rewrite filter_cons, Hun.
    destruct (decide ((dist fe <= tol)%Q ∧ (ms <= 1 - dist fe)%Q))
      as [Hgood|Hbad].
    + rewrite decide_True by (by apply Hwanted).
      rewrite !fmap_cons, IH. cbn [fst snd]. by rewrite Hun.
    + rewrite decide_False; [apply IH|].
      intros Hw. apply Hwanted in Hw. tauto.
  - rewrite decide_False; [apply IH|].
    intros Hw. apply Hwanted in Hw. tauto.
Qed.

(** C7. With a non-empty set of current folders every result's path has
    one of them as a string prefix, and the rows that fail the prefix test
    never reach the distance function; with an empty set the restricted
    search returns what the unrestricted search returns. *)
Theorem search_scope_filter db q tol ms :
  (get_search_folders db ≠ [] →
     ∀ m, m ∈ search_similar_faces lib db q tol ms true →
          ∃ folder, folder ∈ get_search_folders db
                    ∧ String.prefix folder (m_file_path m) = true)
  ∧ (∀ lib',
       (∀ fd, fd ∈ in_scope db true →
              row_distance lib q fd = row_distance lib' q fd) →
       search_similar_faces lib db q tol ms true
       = search_similar_faces lib' db q tol ms true)
  ∧ (get_search_folders db = [] →
       search_similar_faces lib db q tol ms true
       = search_similar_faces lib db q tol ms false).
Proof.
  split; [|split].
  - intros Hne m. rewrite search_unfold. case_bool_decide.
    { intros Hm. by apply not_elem_of_nil in Hm. }
    destruct (scan _ _ _ _ _ _ _) as [matches|] eqn:Hscan.
    2:{ intros Hm. by apply not_elem_of_nil in Hm. }
    rewrite sort_by_similarity_perm. intros Hm.
    destruct (scan_elem _ _ _ _ _ _ _ _ Hscan Hm)
      as (fd & d & _ & Hsk & _ & _ & ->).
    unfold skipped, current_folders in Hsk. simpl in Hsk.
    rewrite bool_decide_eq_false_2 in Hsk by done. simpl in Hsk.
    apply negb_false_iff in Hsk. unfold in_current_folder in Hsk.
    apply existsb_exists in Hsk as (folder & Hin & Hpre).
    exists folder. split; [by apply list_elem_of_In|done].
  - intros lib' Hagree. rewrite !search_unfold.
    case_bool_decide; [done|].
    rewrite (scan_ext lib' q tol ms true (current_folders db true)
               true (current_folders db true)); [done|done|].
    intros fd Hin Hsk. apply Hagree. unfold in_scope.
    by apply list_elem_of_filter.
  - intros Hnil. rewrite !search_unfold.
    case_bool_decide; [done|].
    unfold current_folders. rewrite Hnil.
    by rewrite (scan_ext lib q tol ms true [] false []).
Qed.

End SearchFacts.

Section IndexFacts.
Import DatabaseManager PhotoManager FaceRecognitionEngine.

Variable detect : string → option (list Location * list Encoding).

Lemma path_exists_lookup fs p n :
  nodes fs !! p = Some n → OS.path_exists fs p = true.
Proof. intros H. apply bool_decide_eq_true. by exists n. Qed.

Lemma add_faces_images db image i faces :
  images (add_faces db image i faces) = images db.
Proof.
  revert db i. induction faces as [|[loc enc] faces IH]; intros db i;
    simpl; [done|]. by rewrite IH.
Qed.

Lemma add_faces_search_folders db image i faces :
  search_folders (add_faces db image i faces) = search_folders db.
Proof.
  revert db i. induction faces as [|[loc enc] faces IH]; intros db i;
    simpl; [done|]. by rewrite IH.
Qed.

(** Adding encodings only appends to table [face_encodings]. *)
Lemma add_faces_keeps_rows db image i faces fe :
  fe ∈ face_encodings db → fe ∈ face_encodings (add_faces db image i faces).
Proof.
  revert db i. induction faces as [|[loc enc] faces IH]; intros db i Hin;
    simpl; [done|].
  apply IH. simpl. apply elem_of_app. by left.
Qed.

Lemma add_faces_length db image i faces :
  length (face_encodings (add_faces db image i faces))
  = (length (face_encodings db) + length faces)%nat.
Proof.
  revert db i. induction faces as [|[loc enc] faces IH]; intros db i; simpl.
  - lia.
  - rewrite IH. simpl. rewrite length_app. simpl. lia.
Qed.

Lemma filter_out_then_in (l : list ImageRow) p :
  filter (λ r, file_path r = p) (filter (λ r, file_path r ≠ p) l) = [].
Proof.
  induction l as [|r l IH]; [done|].
  rewrite (filter_cons (λ r, file_path r ≠ p)).
  destruct (decide (file_path r ≠ p)) as [Hne|Heq]; [|done].
  rewrite filter_cons, decide_False by done. done.
Qed.

(** After the upsert the row found for the path is the row just written. *)
Lemma add_image_record_lookup db p name size m faces folder :
  ∃ id,
    (add_image_record db p name size m faces folder).1 = Some id
    ∧ get_image_by_path (add_image_record db p name size m faces folder).2 p
      = Some {| img_id := id; file_path := p; file_name := name;
                file_size := size; modification_time := m;
                face_count := faces; folder_path := folder |}.
Proof.
  eexists. split; [reflexivity|].
  unfold get_image_by_path. simpl.
  rewrite filter_app, filter_out_then_in. simpl.
  rewrite filter_cons, decide_True by done. done.
Qed.

(** The upsert keeps the UNIQUE constraint on [file_path]. *)
Lemma add_image_record_unique_paths db p name size m faces folder :
  unique_paths db →
  unique_paths (add_image_record db p name size m faces folder).2.
Proof.
  unfold unique_paths. simpl. intros Hnd.
  rewrite fmap_app. apply NoDup_app. split; [|split].
  - clear -Hnd. induction (images db) as [|r l IH]; [constructor|].
    rewrite fmap_cons in Hnd. apply NoDup_cons in Hnd as [Hr Hnd].
    rewrite filter_cons. destruct (decide (file_path r ≠ p)); [|by apply IH].
    rewrite fmap_cons. apply NoDup_cons. split; [|by apply IH].
    intros Hin. apply Hr. apply list_elem_of_fmap in Hin as (r' & -> & Hin).
    apply list_elem_of_filter in Hin as [_ Hin].
    by apply list_elem_of_fmap_2.
  - intros x Hin Hx. simpl in Hx. apply list_elem_of_singleton in Hx as ->.
    apply list_elem_of_fmap in Hin as (r' & Heq & Hin).
    apply list_elem_of_filter in Hin as [Hne _]. done.
  - simpl. apply NoDup_singleton.
Qed.

Lemma delete_image_and_faces_unique_paths db p :
  unique_paths db → unique_paths (delete_image_and_faces db p).2.
Proof.
  unfold unique_paths, delete_image_and_faces. intros Hnd.
  destruct (head _) as [row|]; simpl; [|done].
  induction (images db) as [|r l IH]; [constructor|].
  rewrite fmap_cons in Hnd. apply NoDup_cons in Hnd as [Hr Hnd].
  rewrite filter_cons. destruct (decide (img_id r ≠ img_id row)); [|by apply IH].
  rewrite fmap_cons. apply NoDup_cons. split; [|by apply IH].
  intros Hin. apply Hr. apply list_elem_of_fmap in Hin as (r' & -> & Hin).
  apply list_elem_of_filter in Hin as [_ Hin].
  by apply list_elem_of_fmap_2.
Qed.

Lemma index_image_unique_paths fs db p :
  unique_paths db → unique_paths (index_image detect fs db p).1.2.
Proof.
  intros Hu. unfold index_image.
  destruct (negb _); [done|].
  destruct (OS.stat fs p) as [st|]; [|done].
  destruct (is_image_processed _ _ _); [done|].
  destruct (process_image_for_faces _ _ _) as [[err|fd] calls]; [done|].
  simpl. unfold unique_paths. rewrite add_faces_images.
  by apply add_image_record_unique_paths.
Qed.

(** C5. Once [index_image] has succeeded on a path, a further call made
    while the file still carries the same modification time returns
    [True], leaves every table as it is and hands nothing to the
    detector. *)
Theorem index_image_idempotent detect' fs fs' db p db1 calls n n' :
  index_image detect fs db p = (true, db1, calls) →
  nodes fs !! p = Some n → nodes fs' !! p = Some n' →
  st_mtime n' = st_mtime n →
  index_image detect' fs' db1 p = (true, db1, []).
Proof.
  intros Hfirst Hn Hn' Hm.
  assert (is_image_processed db1 p (st_mtime n) = true) as Hdone.
  { revert Hfirst. unfold index_image.
    rewrite (path_exists_lookup _ _ _ Hn). simpl.
    unfold OS.stat. rewrite Hn.
    destruct (is_image_processed db p (st_mtime n)) eqn:Hp.
    { by intros [= <- _]. }
    destruct (process_image_for_faces _ _ _) as [[err|fd] calls']; [done|].
    destruct (add_image_record_lookup db p (PosixPath.basename p)
                (st_size n) (st_mtime n) (pr_face_count fd)
                (PosixPath.dirname p)) as (id & _ & Hget).
    simpl. intros [= <- _].
    unfold is_image_processed, get_image_by_path in *.
    rewrite add_faces_images. simpl in Hget |- *.
    rewrite Hget. simpl. apply Qle_bool_refl. }
  unfold index_image.
  rewrite (path_exists_lookup _ _ _ Hn'). simpl.
  unfold OS.stat. rewrite Hn', Hm, Hdone. done.
Qed.

(** When the engine answers with an error dictionary, [index_image]
    returns [False] and writes nothing. *)
Lemma index_image_error_no_writes fs db p n msg calls :
  nodes fs !! p = Some n →
  is_image_processed db p (st_mtime n) = false →
  process_image_for_faces detect fs p = (inl msg, calls) →
  index_image detect fs db p = (false, db, calls).
Proof.
  intros Hn Hp He. unfold index_image.
  rewrite (path_exists_lookup _ _ _ Hn). simpl.
  unfold OS.stat. rewrite Hn, Hp, He. done.
Qed.

(** An exception of the detector never becomes an error dictionary: the
    wrapper turns it into "no faces", and [index_image] records the image
    with [face_count = 0] and reports success. *)
Lemma index_image_detector_raises fs db p n :
  nodes fs !! p = Some n → is_dir n = false → detect (data n) = None →
  is_supported_image p = true →
  is_image_processed db p (st_mtime n) = false →
  ∃ id db',
    index_image detect fs db p = (true, db', [p])
    ∧ get_image_by_path db' p
      = Some {| img_id := id; file_path := p;
                file_name := PosixPath.basename p; file_size := st_size n;
                modification_time := st_mtime n; face_count := 0;
                folder_path := PosixPath.dirname p |}
    ∧ face_encodings db' = face_encodings db.
Proof.
  intros Hn Hd Hraise Hsup Hp.
  destruct (add_image_record_lookup db p (PosixPath.basename p)
              (st_size n) (st_mtime n) 0 (PosixPath.dirname p))
    as (id & Hid & Hget).
  exists id. eexists. split; [|split].
  - unfold index_image.
    rewrite (path_exists_lookup _ _ _ Hn). simpl.
    unfold OS.stat at 1. rewrite Hn, Hp.
    unfold process_image_for_faces, get_face_locations_and_encodings.
    rewrite Hsup, (path_exists_lookup _ _ _ Hn). simpl.
    unfold OS.stat. rewrite Hn, Hd, Hraise. simpl. reflexivity.
  - exact Hget.
  - reflexivity.
Qed.

(** [index_image] never removes a row of [face_encodings]. *)
Lemma index_image_keeps_face_rows fs db p fe :
  fe ∈ face_encodings db →
  fe ∈ face_encodings (index_image detect fs db p).1.2.
Proof.
  intros Hin. unfold index_image.
  destruct (negb _); [done|].
  destruct (OS.stat fs p) as [st|]; [|done].
  destruct (is_image_processed _ _ _); [done|].
  destruct (process_image_for_faces _ _ _) as [[err|fd] calls]; [done|].
  simpl. by apply add_faces_keeps_rows.
Qed.

End IndexFacts.

(** ** Path strings *)

Section PathFacts.

Lemma string_length_app (a b : string) :
  String.length (a +:+ b) = (String.length a + String.length b)%nat.
Proof. induction a as [|c a IH]; simpl; [done|]. by rewrite IH. Qed.

Lemma string_app_inv_tail (a b t : string) : a +:+ t = b +:+ t → a = b.
Proof.
  revert b. induction a as [|c a IH]; intros [|d b] H; simpl in H.
  - done.
  - apply (f_equal String.length) in H.
    rewrite !string_length_app in H. simpl in H. lia.
  - apply (f_equal String.length) in H.
    rewrite !string_length_app in H. simpl in H. lia.
  - injection H as -> H. f_equal. by apply IH.
Qed.

Lemma rpartition_Some c s h t :
  PosixPath.rpartition c s = Some (h, t) → s = h +:+ String c t.
Proof.
  revert h. induction s as [|a s IH]; intros h; simpl; [done|].
  destruct (PosixPath.rpartition c s) as [[h' t']|].
  - intros [= <- <-].
    change (String a s = String a (h' +:+ String c t')). f_equal. by apply IH.
  - destruct (Ascii.eqb a c) eqn:Hc; [|done]. intros [= <- <-].
    apply Ascii.eqb_eq in Hc as ->. done.
Qed.

Lemma rpartition_app_Some c a b h t :
  PosixPath.rpartition c b = Some (h, t) →
  PosixPath.rpartition c (a +:+ b) = Some (a +:+ h, t).
Proof.
  intros Hb. induction a as [|x a IH]; [done|].
  change (PosixPath.rpartition c (String x (a +:+ b))
          = Some (String x (a +:+ h), t)).
  simpl. by rewrite IH.
Qed.

(** The text after the last separator holds no separator. *)
Lemma rpartition_tail c s h t :
  PosixPath.rpartition c s = Some (h, t) → PosixPath.rpartition c t = None.
Proof.
  revert h. induction s as [|a s IH]; intros h; simpl; [done|].
  destruct (PosixPath.rpartition c s) as [[h' t']|] eqn:Hs.
  - intros [= <- <-]. by eapply IH.
  - destruct (Ascii.eqb a c); [|done]. by intros [= <- <-].
Qed.

Lemma rpartition_None_cons c a s :
  PosixPath.rpartition c (String a s) = None
  ↔ Ascii.eqb a c = false ∧ PosixPath.rpartition c s = None.
Proof.
  simpl. destruct (PosixPath.rpartition c s) as [[h t]|].
  - split; [done|]. by intros [_ ?].
  - destruct (Ascii.eqb a c); split; try done. by intros [? _].
Qed.

Lemma rpartition_None_app c a b :
  PosixPath.rpartition c (a +:+ b) = None
  ↔ PosixPath.rpartition c a = None ∧ PosixPath.rpartition c b = None.
Proof.
  induction a as [|x a IH].
  - simpl. tauto.
  - change (String x a +:+ b) with (String x (a +:+ b)).
    rewrite !rpartition_None_cons, IH. tauto.
Qed.

Lemma rpartition_sep_app c a x :
  PosixPath.rpartition c x = None →
  PosixPath.rpartition c (a +:+ String c x) = Some (a, x).
Proof.
  intros Hx.
  assert (PosixPath.rpartition c (String c x) = Some ("", x)) as H.
  { simpl. rewrite Hx. by rewrite Ascii.eqb_refl. }
  rewrite (rpartition_app_Some c a _ _ _ H).
  assert (a +:+ "" = a) as ->; [|done].
  clear. induction a as [|y a IH]; [done|].
  change (String y (a +:+ "") = String y a). by rewrite IH.
Qed.

Lemma basename_no_sep p :
  PosixPath.rpartition "/" (PosixPath.basename p) = None.
Proof.
  unfold PosixPath.basename.
  destruct (PosixPath.rpartition "/" p) as [[h t]|] eqn:H; [|done].
  by eapply rpartition_tail.
Qed.

Lemma splitext_no_sep name :
  PosixPath.rpartition "/" name = None →
  PosixPath.rpartition "/" (PosixPath.splitext name).1 = None
  ∧ PosixPath.rpartition "/" (PosixPath.splitext name).2 = None.
Proof.
  intros Hname. unfold PosixPath.splitext. rewrite Hname.
  destruct (PosixPath.rpartition "." name) as [[stem e]|] eqn:Hdot; [|done].
  destruct (PosixPath.all_char "." stem); [done|].
  apply rpartition_Some in Hdot. subst name.
  apply rpartition_None_app in Hname as [Hstem He]. simpl.
  split; [done|].
  apply rpartition_None_cons in He as [_ He].
  apply rpartition_None_cons. done.
Qed.

Lemma pretty_N_go_no_sep x s :
  PosixPath.rpartition "/" s = None →
  PosixPath.rpartition "/" (pretty_N_go x s) = None.
Proof.
  revert s. induction (N.lt_wf_0 x) as [x _ IH]; intros s Hs.
  assert (x = 0 ∨ 0 < x)%N as [->|Hx] by lia.
  - by rewrite pretty_N_go_0.
  - rewrite pretty_N_go_step by done. apply IH.
    { by apply N.div_lt. }
    apply rpartition_None_cons. split; [|done].
    unfold pretty_N_char. by repeat case_match.
Qed.

Lemma pretty_nat_no_sep (k : nat) : PosixPath.rpartition "/" (pretty k) = None.
Proof.
  unfold pretty, pretty_nat, pretty, pretty_N.
  case_decide; [done|]. by apply pretty_N_go_no_sep.
Qed.

(** The names the renaming loop builds from a name without separator hold
    no separator. *)
Lemma candidate_name_no_sep name (k : nat) :
  PosixPath.rpartition "/" name = None →
  PosixPath.rpartition "/"
    ((PosixPath.splitext name).1 +:+ "_" +:+ pretty k
       +:+ (PosixPath.splitext name).2) = None.
Proof.
  intros Hname. destruct (splitext_no_sep name Hname) as [Hb He].
  apply rpartition_None_app. split; [done|].
  apply (rpartition_None_app "/" "_"). split; [done|].
  apply rpartition_None_app. split; [apply pretty_nat_no_sep|done].
Qed.

Lemma ends_with_sep_cons c r :
  PosixPath.ends_with_sep (String c r)
  = match r with
    | EmptyString => Ascii.eqb c "/"
    | _ => PosixPath.ends_with_sep r
    end.
Proof.
  unfold PosixPath.ends_with_sep. simpl.
  destruct r as [|d r]; [simpl; by destruct (Ascii.eqb c "/")|].
  destruct (PosixPath.rpartition "/" (String d r)) as [[h t]|]; [done|].
  by destruct (Ascii.eqb c "/").
Qed.

(** A non-empty path that does not end in a separator is what is left of
    it when a separator is put behind it and stripped again. *)
Lemma rstrip_with_sep s :
  s ≠ "" → PosixPath.ends_with_sep s = false →
  PosixPath.all_char "/" (s +:+ "/") = false
  ∧ PosixPath.rstrip "/" (s +:+ "/") = s.
Proof.
  induction s as [|c s IH]; [done|]. intros _ Hend.
  rewrite ends_with_sep_cons in Hend.
  change (String c s +:+ "/") with (String c (s +:+ "/")).
  destruct s as [|d s].
  - simpl. rewrite Hend. done.
  - destruct IH as [Hall Hstrip]; [done|done|].
    assert (PosixPath.all_char "/" (String c (String d s +:+ "/")) = false)
      as Hall'.
    { change (Ascii.eqb c "/" && PosixPath.all_char "/" (String d s +:+ "/")
              = false).
      rewrite Hall. apply andb_false_r. }
    split; [done|].
    change (PosixPath.rstrip "/" (String c (String d s +:+ "/")))
      with (if PosixPath.all_char "/" (String c (String d s +:+ "/"))
            then "" else String c (PosixPath.rstrip "/" (String d s +:+ "/"))).
    by rewrite Hall', Hstrip.
Qed.

Lemma prefix_sep_no_sep x :
  PosixPath.rpartition "/" x = None → String.prefix "/" x = false.
Proof.
  destruct x as [|c x]; [done|]. intros H.
  apply rpartition_None_cons in H as [Hc _].
  cbn [String.prefix]. destruct (ascii_dec "/" c) as [<-|]; [done|done].
Qed.

Lemma split_sep_nonempty s : split_sep s ≠ [].
Proof.
  destruct s as [|y r]; simpl; [done|].
  destruct (Ascii.eqb y "/"); [done|]. by destruct (split_sep r).
Qed.

Lemma split_sep_no_sep s :
  PosixPath.rpartition "/" s = None → split_sep s = [s].
Proof.
  induction s as [|y r IH]; [done|].
  intros H. apply rpartition_None_cons in H as [Hy Hr].
  simpl. by rewrite Hy, (IH Hr).
Qed.

Lemma split_sep_sep a b :
  (1 < length (split_sep (a +:+ String "/" b)))%nat.
Proof.
  induction a as [|x a IH].
  - simpl. pose proof (split_sep_nonempty b).
    destruct (split_sep b); [done|]. simpl. lia.
  - change (String x a +:+ String "/" b) with (String x (a +:+ String "/" b)).
    simpl. destruct (Ascii.eqb x "/").
    + simpl. lia.
    + destruct (split_sep (a +:+ String "/" b)); simpl in *; lia.
Qed.

(** [split_sep] ends with the text after the last separator. *)
Lemma split_sep_last s :
  ∃ l, split_sep s = (l ++ [PosixPath.basename s])%list.
Proof.
  unfold PosixPath.basename. induction s as [|c s [l IH]].
  - by exists [].
  - cbn [PosixPath.rpartition split_sep].
    destruct (PosixPath.rpartition "/" s) as [[h t]|] eqn:Hs.
    + destruct (Ascii.eqb c "/").
      * exists ("" :: l). by rewrite IH.
      * destruct l as [|x l].
        -- exfalso. apply rpartition_Some in Hs.
           pose proof (split_sep_sep h t) as Hlen.
           rewrite <- Hs, IH in Hlen. simpl in Hlen. lia.
        -- exists (String c x :: l). by rewrite IH.
    + rewrite (split_sep_no_sep s Hs).
      destruct (Ascii.eqb c "/").
      * by exists [""].
      * by exists [].
Qed.

Lemma split_sep_root s : split_sep s = [""; ""] → s = "/".
Proof.
  pose proof split_sep_nonempty as Hne.
  destruct s as [|c s]; [done|]. simpl.
  destruct (Ascii.eqb c "/") eqn:Hc.
  - intros [= Hs]. apply Ascii.eqb_eq in Hc as ->. f_equal.
    destruct s as [|d s]; [done|]. simpl in Hs.
    destruct (Ascii.eqb d "/").
    + injection Hs as Hs. by apply Hne in Hs.
    + by destruct (split_sep s).
  - by destruct (split_sep s).
Qed.

(** What the file operations use of a path in normal form: it is the root,
    or its last component is a name. *)
Lemma normal_shape p :
  normal p = true →
  p = "/" ∨ (p ≠ "" ∧ PosixPath.ends_with_sep p = false
             ∧ PosixPath.basename p ≠ "" ∧ PosixPath.basename p ≠ ".").
Proof.
  unfold normal. destruct (split_sep_last p) as [l Hl].
  destruct (split_sep p) as [|[|x0 x] [|c cs]] eqn:Hp; try done.
  intros H. apply orb_true_iff in H as [H|H].
  - apply bool_decide_eq_true in H as [-> ->]. left. by apply split_sep_root.
  - right.
    assert (is_component (PosixPath.basename p) = true) as Hcomp.
    { assert (PosixPath.basename p ∈ c :: cs) as Hin.
      { destruct l as [|y l]; [done|]. injection Hl as _ ->.
        apply elem_of_app. right. left. }
      rewrite forallb_forall in H. apply H. by apply list_elem_of_In. }
    unfold is_component in Hcomp.
    apply andb_true_iff in Hcomp as [Hcomp _].
    apply andb_true_iff in Hcomp as [H1 H2].
    apply negb_true_iff, bool_decide_eq_false in H1, H2.
    split; [by intros ->|]. split; [|done].
    unfold PosixPath.ends_with_sep, PosixPath.basename in *.
    destruct (PosixPath.rpartition "/" p) as [[h t]|]; [|done].
    by destruct t.
Qed.

(** In a folder given in normal form, an entry named without separator
    lives in that folder. *)
Lemma dirname_join dest x :
  normal dest = true → PosixPath.rpartition "/" x = None →
  PosixPath.dirname (PosixPath.join dest x) = dest.
Proof.
  intros Hn Hx. unfold PosixPath.join.
  rewrite (prefix_sep_no_sep x Hx).
  destruct (normal_shape dest Hn) as [->|(Hne & Hend & _)].
  - change (PosixPath.dirname (String "/" x) = "/").
    unfold PosixPath.dirname. simpl. by rewrite Hx.
  - rewrite Hend, bool_decide_eq_false_2 by done. cbn [orb].
    change (dest +:+ "/" +:+ x) with (dest +:+ String "/" x).
    unfold PosixPath.dirname.
    rewrite (rpartition_sep_app "/" dest x Hx).
    destruct (rstrip_with_sep dest Hne Hend) as [-> ->]. done.
Qed.

Lemma rstrip_length c s :
  (String.length (PosixPath.rstrip c s) ≤ String.length s)%nat.
Proof.
  induction s as [|d s IH]; [done|].
  change (PosixPath.rstrip c (String d s))
    with (if PosixPath.all_char c (String d s) then ""
          else String d (PosixPath.rstrip c s)).
  destruct (PosixPath.all_char c (String d s)); simpl; lia.
Qed.

(** [split] cuts a path in two. *)
Lemma split_length p :
  (String.length (PosixPath.dirname p) + String.length (PosixPath.basename p)
   ≤ String.length p)%nat.
Proof.
  unfold PosixPath.dirname, PosixPath.basename.
  destruct (PosixPath.rpartition "/" p) as [[h t]|] eqn:H; [|simpl; lia].
  apply rpartition_Some in H. subst p.
  rewrite string_length_app. simpl.
  assert (String.length (h +:+ "/") = S (String.length h)) as Hlen.
  { rewrite string_length_app. simpl. lia. }
  destruct (PosixPath.all_char "/" (h +:+ "/")).
  - lia.
  - pose proof (rstrip_length "/" (h +:+ "/")). lia.
Qed.

End PathFacts.

(** ** File operations *)

Section FileFacts.
Import DatabaseManager PhotoManager.

Lemma prefix_sep_app (base x y : string) :
  String.prefix "/" (base +:+ "_" +:+ x)
  = String.prefix "/" (base +:+ "_" +:+ y).
Proof.
  destruct base as [|c base]; [done|].
  assert (∀ s s', String.prefix "/" (String c s)
                  = String.prefix "/" (String c s')) as Hc.
  { intros s s'. cbn [String.prefix].
    destruct (ascii_dec "/" c); [by destruct s, s'|done]. }
  exact (Hc (base +:+ "_" +:+ x) (base +:+ "_" +:+ y)).
Qed.

(** Different counters give different candidate paths. *)
Lemma candidate_inj dest base ext : Inj (=) (=) (candidate dest base ext).
Proof.
  intros k1 k2 H. unfold candidate, PosixPath.join in H.
  rewrite (prefix_sep_app base (pretty k1 +:+ ext) (pretty k2 +:+ ext)) in H.
  assert (base +:+ "_" +:+ pretty k1 +:+ ext
          = base +:+ "_" +:+ pretty k2 +:+ ext) as Hname.
  { destruct (String.prefix "/" _); [done|].
    destruct (_ || _).
    - by apply (inj (String.app dest)) in H.
    - apply (inj (String.app dest)) in H.
      by apply (inj (String.app "/")) in H. }
  apply (inj (String.app base)) in Hname.
  apply (inj (String.app "_")) in Hname.
  apply string_app_inv_tail in Hname.
  by apply (inj pretty) in Hname.
Qed.

(** Running out of fuel means every name tried was taken. *)
Lemma free_dest_path_None fuel fs dest base ext c dp :
  free_dest_path fuel fs dest base ext c dp = None →
  ∀ k, (c ≤ k < c + fuel)%nat →
       OS.path_exists fs (candidate dest base ext k) = true.
Proof.
  revert c dp. induction fuel as [|fuel IH]; intros c dp H k Hk; [lia|].
  simpl in H. destruct (OS.path_exists fs dp); [|done].
  destruct (decide (k = c)) as [->|Hne].
  - fold (candidate dest base ext c) in H.
    destruct fuel; simpl in H;
      by destruct (OS.path_exists fs (candidate dest base ext c)).
  - apply (IH _ _ H). lia.
Qed.

(** What the loop returns is free, and it is the first free name in the
    order tried: the path it was entered with, then the candidates from
    [c] on. *)
Lemma free_dest_path_Some fuel fs dest base ext c dp d :
  free_dest_path fuel fs dest base ext c dp = Some d →
  OS.path_exists fs d = false
  ∧ (d = dp
     ∨ OS.path_exists fs dp = true
       ∧ ∃ k, (c ≤ k)%nat ∧ d = candidate dest base ext k
              ∧ ∀ j, (c ≤ j < k)%nat →
                     OS.path_exists fs (candidate dest base ext j) = true).
Proof.
  revert c dp. induction fuel as [|fuel IH]; intros c dp H; simpl in H.
  - destruct (OS.path_exists fs dp) eqn:He; [done|].
    injection H as <-. split; [done|by left].
  - destruct (OS.path_exists fs dp) eqn:He.
    + destruct (IH _ _ H) as [Hfree [->|(Hex & k & Hk & -> & Hall)]].
      * split; [done|]. right. split; [done|].
        exists c. split; [lia|]. split; [done|]. intros j Hj. lia.
      * split; [done|]. right. split; [done|].
        exists k. split; [lia|]. split; [done|].
        intros j Hj. destruct (decide (j = c)) as [->|]; [done|].
        apply Hall. lia.
    + injection H as <-. split; [done|by left].
Qed.

(** The renaming loop terminates within its fuel: a file system with
    [size (nodes fs)] entries cannot hold [S (size (nodes fs))] distinct
    candidates. *)
Lemma unique_dest_returns fs dest name :
  is_Some (unique_dest fs dest name).
Proof.
  unfold unique_dest. destruct (PosixPath.splitext name) as [base ext].
  destruct (free_dest_path _ _ _ _ _ _ _) as [d|] eqn:H; [by exists d|].
  exfalso.
  pose proof (free_dest_path_None _ _ _ _ _ _ _ H) as Hall.
  set (n := size (nodes fs)) in *.
  set (cands := candidate dest base ext <$> seq 1 (S n)).
  assert (NoDup cands) as Hnd.
  { pose proof (candidate_inj dest base ext).
    apply (NoDup_fmap_2 (candidate dest base ext)), NoDup_seq. }
  assert (list_to_set cands ⊆ dom (nodes fs)) as Hsub.
  { intros x Hx. apply elem_of_list_to_set in Hx.
    apply list_elem_of_fmap in Hx as (k & -> & Hk).
    apply elem_of_seq in Hk.
    specialize (Hall k ltac:(lia)).
    apply bool_decide_eq_true in Hall. by apply elem_of_dom. }
  apply subseteq_size in Hsub.
  rewrite size_list_to_set in Hsub by done.
  rewrite size_dom in Hsub.
  unfold cands in Hsub. rewrite length_fmap, length_seq in Hsub.
  fold n in Hsub. lia.
Qed.

Lemma path_exists_false fs p :
  OS.path_exists fs p = false ↔ nodes fs !! p = None.
Proof.
  unfold OS.path_exists. rewrite bool_decide_eq_false.
  rewrite <- eq_None_not_Some. done.
Qed.

(** The name chosen is free; it is the plain destination when that is
    free, and otherwise the first free candidate counting from 1. *)
Lemma unique_dest_spec fs dest name :
  ∃ d, unique_dest fs dest name = Some d
       ∧ OS.path_exists fs d = false
       ∧ (d = PosixPath.join dest name
          ∨ OS.path_exists fs (PosixPath.join dest name) = true
            ∧ ∃ k, (1 ≤ k)%nat
                   ∧ d = candidate dest (PosixPath.splitext name).1
                                   (PosixPath.splitext name).2 k
                   ∧ ∀ j, (1 ≤ j < k)%nat →
                          OS.path_exists fs
                            (candidate dest (PosixPath.splitext name).1
                                       (PosixPath.splitext name).2 j) = true).
Proof.
  destruct (unique_dest_returns fs dest name) as [d Hd].
  exists d. split; [done|].
  unfold unique_dest in Hd.
  destruct (PosixPath.splitext name) as [base ext]. simpl.
  by apply free_dest_path_Some in Hd.
Qed.

(** ** The primitives *)

Lemma obstacle_None fs p :
  OS.obstacle fs p = None
  ↔ OS.isdir fs (PosixPath.dirname p) = true ∧ p ∉ denied fs.
Proof.
  unfold OS.obstacle, OS.isdir.
  destruct (nodes fs !! PosixPath.dirname p) as [d|]; [|by split; [|intros []]].
  destruct (is_dir d); cbn [negb]; [|by split; [|intros []]].
  case_bool_decide; split; try done. by intros [].
Qed.

(** [mkdir] returns only when it has made a new entry, inside an existing
    directory. *)
Lemma mkdir_Ok fs p fs' :
  OS.mkdir fs p = Ok fs' →
  nodes fs !! p = None ∧ OS.isdir fs (PosixPath.dirname p) = true
  ∧ (p ∉ denied fs)
  ∧ fs' = {| nodes := <[p := OS.new_directory]> (nodes fs);
             denied := denied fs |}.
Proof.
  unfold OS.mkdir. destruct (OS.path_exists fs p) eqn:He; [done|].
  destruct (OS.obstacle fs p) as [msg|] eqn:Hob; [done|].
  intros [= <-]. apply obstacle_None in Hob as [Hdir Hden].
  by apply path_exists_false in He.
Qed.

Lemma mkdir_free_ok fs p :
  nodes fs !! p = None → OS.isdir fs (PosixPath.dirname p) = true →
  p ∉ denied fs →
  OS.mkdir fs p
  = Ok {| nodes := <[p := OS.new_directory]> (nodes fs); denied := denied fs |}.
Proof.
  intros Hp Hdir Hden. unfold OS.mkdir.
  rewrite (proj2 (path_exists_false fs p) Hp).
  by rewrite (proj2 (obstacle_None fs p) (conj Hdir Hden)).
Qed.

Lemma makedirs_rec_unfold fuel fs name :
  OS.makedirs_rec (S fuel) fs name
  = let head :=
      if bool_decide (PosixPath.basename name = "")
      then PosixPath.dirname (PosixPath.dirname name)
      else PosixPath.dirname name in
    let tail :=
      if bool_decide (PosixPath.basename name = "")
      then PosixPath.basename (PosixPath.dirname name)
      else PosixPath.basename name in
    if negb (bool_decide (head = "")) && negb (bool_decide (tail = ""))
       && negb (OS.path_exists fs head)
    then
      match OS.makedirs_rec fuel fs head with
      | None => None
      | Some made =>
          let fs1 :=
            match made with
            | Ok fs1 => Ok fs1
            | Raise msg =>
                if bool_decide (msg = "File exists") then Ok fs else Raise msg
            end in
          match fs1 with
          | Raise msg => Some (Raise msg)
          | Ok fs1 =>
              if bool_decide (tail = ".") then Some (Ok fs1)
              else Some (OS.mkdir fs1 name)
          end
      end
    else Some (OS.mkdir fs name).
Proof. cbn [OS.makedirs_rec]. unfold PosixPath.split. by case_bool_decide. Qed.

(** The recursion of [makedirs] ends: every call is on a shorter path. *)
Lemma makedirs_rec_returns fuel fs name :
  (String.length name < fuel)%nat → is_Some (OS.makedirs_rec fuel fs name).
Proof.
  revert fs name. induction fuel as [|fuel IH]; intros fs name Hlen; [lia|].
  rewrite makedirs_rec_unfold. cbv zeta.
  pose proof (split_length name) as H1.
  pose proof (split_length (PosixPath.dirname name)) as H2.
  destruct (bool_decide (PosixPath.basename name = "")) eqn:Hb.
  - destruct (negb _ && negb _ && negb _) eqn:Hcond; [|by eexists].
    apply andb_true_iff in Hcond as [Hcond _].
    apply andb_true_iff in Hcond as [_ Htail].
    apply negb_true_iff, bool_decide_eq_false in Htail.
    destruct (IH fs (PosixPath.dirname (PosixPath.dirname name)))
      as [made ->].
    { destruct (PosixPath.basename (PosixPath.dirname name)); [done|].
      simpl in H2. lia. }
    destruct made as [fs1|msg];
      [|destruct (bool_decide (msg = "File exists"))];
      cbv beta iota; try destruct (bool_decide (_ = ".")); by eexists.
  - destruct (negb _ && negb _ && negb _) eqn:Hcond; [|by eexists].
    apply andb_true_iff in Hcond as [Hcond _].
    apply andb_true_iff in Hcond as [_ Htail].
    apply negb_true_iff, bool_decide_eq_false in Htail.
    destruct (IH fs (PosixPath.dirname name)) as [made ->].
    { destruct (PosixPath.basename name); [done|]. simpl in H1. lia. }
    destruct made as [fs1|msg];
      [|destruct (bool_decide (msg = "File exists"))];
      cbv beta iota; try destruct (bool_decide (_ = ".")); by eexists.
Qed.

Lemma makedirs_returns fs p : is_Some (OS.makedirs fs p).
Proof. apply makedirs_rec_returns. lia. Qed.

(** When [makedirs] returns, every entry there was is as it was, what is
    new is a directory, and the path itself is new unless the call ended
    on a [.] component. *)
Lemma makedirs_rec_spec fuel fs name fs0 :
  OS.makedirs_rec fuel fs name = Some (Ok fs0) →
  denied fs0 = denied fs
  ∧ (∀ p n, nodes fs !! p = Some n → nodes fs0 !! p = Some n)
  ∧ (∀ p n, nodes fs0 !! p = Some n →
            nodes fs !! p = Some n ∨ nodes fs !! p = None ∧ is_dir n = true)
  ∧ ((if bool_decide (PosixPath.basename name = "")
      then PosixPath.basename (PosixPath.dirname name)
      else PosixPath.basename name) ≠ "." →
     nodes fs !! name = None ∧ nodes fs0 !! name = Some OS.new_directory).
Proof.
  revert fs name fs0.
  induction fuel as [|fuel IH]; intros fs name fs0; [done|].
  rewrite makedirs_rec_unfold. cbv zeta.
  assert (∀ fs1,
            denied fs1 = denied fs →
            (∀ p n, nodes fs !! p = Some n → nodes fs1 !! p = Some n) →
            (∀ p n, nodes fs1 !! p = Some n →
                    nodes fs !! p = Some n
                    ∨ nodes fs !! p = None ∧ is_dir n = true) →
            OS.mkdir fs1 name = Ok fs0 →
            denied fs0 = denied fs
            ∧ (∀ p n, nodes fs !! p = Some n → nodes fs0 !! p = Some n)
            ∧ (∀ p n, nodes fs0 !! p = Some n →
                      nodes fs !! p = Some n
                      ∨ nodes fs !! p = None ∧ is_dir n = true)
            ∧ (nodes fs !! name = None
               ∧ nodes fs0 !! name = Some OS.new_directory)) as Hlast.
  { intros fs1 Hden Hkeep Hnew Hmk.
    apply mkdir_Ok in Hmk as (Hfree & _ & _ & ->). simpl.
    assert (nodes fs !! name = None) as Hfree0.
    { destruct (nodes fs !! name) as [n|] eqn:Hn; [|done].
      apply Hkeep in Hn. congruence. }
    split; [done|]. split; [|split].
    - intros p n Hp. rewrite lookup_insert_ne; [by apply Hkeep|].
      intros <-. congruence.
    - intros p n. destruct (decide (name = p)) as [<-|Hne].
      + rewrite lookup_insert_eq. intros [= <-]. by right.
      + rewrite lookup_insert_ne by done. apply Hnew.
    - split; [done|]. by rewrite lookup_insert_eq. }
  destruct (bool_decide (PosixPath.basename name = "")) eqn:Hb;
    (destruct (negb _ && negb _ && negb _) eqn:Hcond;
     [match goal with
      | |- context [OS.makedirs_rec fuel fs ?h] =>
          destruct (OS.makedirs_rec fuel fs h) as [[fs1|msg]|] eqn:Hrec
      end; [| |done]
     |]).
  all: try (intros [= Hmk];
            destruct (Hlast fs eq_refl) as (? & ? & ? & ?); try done;
            by left).
  all: try apply IH in Hrec as (Hden & Hkeep & Hnew & _).
  all: try (destruct (bool_decide (msg = "File exists")); [|done]).
  all: destruct (bool_decide (_ = ".")) eqn:Hdot.
  all: try (apply bool_decide_eq_true in Hdot; intros [= <-];
            split; [done|]; split; [done|]; split; [done || by left|];
            intros H1; by destruct H1).
  all: intros [= Hmk].
  all: first
    [ destruct (Hlast fs1 Hden Hkeep Hnew Hmk) as (? & ? & ? & ?); done
    | destruct (Hlast fs eq_refl) as (? & ? & ? & ?); try done; by left ].
Qed.

(** Copying onto a free name adds that one entry, in a directory that
    exists, and changes no other. *)
Lemma copy2_fresh fs src d fs' :
  nodes fs !! d = None → OS.copy2 fs src d = Ok fs' →
  ∃ n, nodes fs !! src = Some n ∧ is_dir n = false
       ∧ OS.isdir fs (PosixPath.dirname d) = true ∧ (d ∉ denied fs)
       ∧ fs' = {| nodes := <[d := n]> (nodes fs); denied := denied fs |}.
Proof.
  intros Hd.
  assert (OS.isdir fs d = false) as Hisd by (unfold OS.isdir; by rewrite Hd).
  unfold OS.copy2. rewrite Hisd. cbv zeta beta iota. rewrite Hisd.
  destruct (nodes fs !! src) as [n|]; [|done].
  destruct (is_dir n) eqn:Hn; [done|].
  case_bool_decide; [done|].
  destruct (OS.obstacle fs d) as [msg|] eqn:Hob; [done|].
  apply obstacle_None in Hob as [Hdir Hden].
  intros [= <-]. by exists n.
Qed.

Lemma copy2_free_ok fs src d n :
  nodes fs !! src = Some n → is_dir n = false →
  nodes fs !! d = None → OS.isdir fs (PosixPath.dirname d) = true →
  d ∉ denied fs →
  OS.copy2 fs src d
  = Ok {| nodes := <[d := n]> (nodes fs); denied := denied fs |}.
Proof.
  intros Hs Hn Hd Hdir Hden.
  assert (OS.isdir fs d = false) as Hisd by (unfold OS.isdir; by rewrite Hd).
  unfold OS.copy2. rewrite Hisd. cbv zeta beta iota. rewrite Hisd, Hs, Hn.
  rewrite bool_decide_eq_false_2 by congruence.
  by rewrite (proj2 (obstacle_None fs d) (conj Hdir Hden)).
Qed.

(** Moving a file to a free name takes its entry there and changes no
    other. *)
Lemma move_fresh fs src d fs' :
  nodes fs !! d = None → OS.isdir fs src = false →
  OS.move fs src d = Ok fs' →
  ∃ n, nodes fs !! src = Some n ∧ is_dir n = false
       ∧ fs' = {| nodes := <[d := n]> (delete src (nodes fs));
                  denied := denied fs |}.
Proof.
  intros Hd Hsrc.
  assert (OS.isdir fs d = false) as Hisd by (unfold OS.isdir; by rewrite Hd).
  unfold OS.move. rewrite Hisd. cbv zeta beta iota. cbn [andb].
  unfold OS.isdir in Hsrc.
  destruct (nodes fs !! src) as [n|] eqn:Hn; [|done].
  rewrite Hsrc. cbn [andb].
  case_bool_decide as Heq; [congruence|].
  destruct (OS.obstacle fs d) as [msg|]; [done|].
  case_bool_decide; [done|]. intros [= <-]. by exists n.
Qed.

Lemma move_free_ok fs src d n :
  nodes fs !! src = Some n → is_dir n = false →
  nodes fs !! d = None → OS.isdir fs (PosixPath.dirname d) = true →
  src ∉ denied fs → d ∉ denied fs →
  OS.move fs src d
  = Ok {| nodes := <[d := n]> (delete src (nodes fs)); denied := denied fs |}.
Proof.
  intros Hs Hn Hd Hdir Hds Hdd.
  assert (OS.isdir fs d = false) as Hisd by (unfold OS.isdir; by rewrite Hd).
  unfold OS.move. rewrite Hisd, Hs, Hn. cbv zeta beta iota. cbn [andb].
  rewrite bool_decide_eq_false_2 by congruence.
  rewrite (proj2 (obstacle_None fs d) (conj Hdir Hdd)).
  by rewrite bool_decide_eq_false_2.
Qed.

(** ** The loops *)

Lemma copy_loop_returns fs dest paths s f e :
  is_Some (copy_loop fs dest paths s f e).
Proof.
  revert fs s f e. induction paths as [|p paths IH]; intros fs s f e; simpl.
  - by eexists.
  - destruct (OS.path_exists fs p); [|apply IH].
    destruct (unique_dest_returns fs dest (PosixPath.basename p)) as [d ->].
    simpl. destruct (OS.copy2 fs p d); apply IH.
Qed.

Lemma copy_loop_counters fs dest paths s f e r fs' :
  copy_loop fs dest paths s f e = Some (r, fs') →
  (successful r + failed r = s + f + length paths)%nat
  ∧ (length (errors r) + f = failed r + length e)%nat.
Proof.
  revert fs s f e. induction paths as [|p paths IH]; intros fs s f e; simpl.
  - intros [= <- _]. simpl. lia.
  - destruct (OS.path_exists fs p).
    + destruct (unique_dest fs dest (PosixPath.basename p)) as [d|]; [|done].
      simpl. destruct (OS.copy2 fs p d) as [fs1|msg]; intros H;
        apply IH in H; rewrite ?length_app in H; simpl in H; lia.
    + intros H. apply IH in H. rewrite length_app in H. simpl in H. lia.
Qed.

(** The copy loop leaves every entry that exists when it starts as it is. *)
Lemma copy_loop_preserves fs dest paths s f e r fs' :
  copy_loop fs dest paths s f e = Some (r, fs') →
  ∀ p n, nodes fs !! p = Some n → nodes fs' !! p = Some n.
Proof.
  revert fs s f e. induction paths as [|x paths IH]; intros fs s f e; simpl.
  - by intros [= _ <-].
  - destruct (OS.path_exists fs x); [|by apply IH].
    destruct (unique_dest_spec fs dest (PosixPath.basename x))
      as (d & -> & Hfree & _).
    simpl. apply path_exists_false in Hfree.
    destruct (OS.copy2 fs x d) as [fs1|msg] eqn:Hcopy; [|by apply IH].
    intros H p n Hp. apply (IH _ _ _ _ H).
    destruct (copy2_fresh _ _ _ _ Hfree Hcopy) as (nx & _ & _ & _ & _ & ->).
    simpl.
    rewrite lookup_insert_ne; [done|]. congruence.
Qed.

Lemma move_loop_returns fs db dest paths s f e :
  is_Some (move_loop fs db dest paths s f e).
Proof.
  revert fs db s f e.
  induction paths as [|p paths IH]; intros fs db s f e; simpl.
  - by eexists.
  - destruct (OS.path_exists fs p); [|apply IH].
    destruct (unique_dest_returns fs dest (PosixPath.basename p)) as [d ->].
    simpl. destruct (OS.move fs p d); apply IH.
Qed.

Lemma move_loop_counters fs db dest paths s f e r fs' db' :
  move_loop fs db dest paths s f e = Some (r, fs', db') →
  (successful r + failed r = s + f + length paths)%nat
  ∧ (length (errors r) + f = failed r + length e)%nat.
Proof.
  revert fs db s f e.
  induction paths as [|p paths IH]; intros fs db s f e; simpl.
  - intros [= <- _ _]. simpl. lia.
  - destruct (OS.path_exists fs p).
    + destruct (unique_dest fs dest (PosixPath.basename p)) as [d|]; [|done].
      simpl. destruct (OS.move fs p d) as [fs1|msg]; intros H;
        apply IH in H; rewrite ?length_app in H; simpl in H; lia.
    + intros H. apply IH in H. rewrite length_app in H. simpl in H. lia.
Qed.

Lemma delete_loop_counters fs db paths s f e :
  let r := (delete_loop fs db paths s f e).1.1 in
  (successful r + failed r = s + f + length paths)%nat
  ∧ (length (errors r) + f = failed r + length e)%nat.
Proof.
  revert fs db s f e.
  induction paths as [|p paths IH]; intros fs db s f e; simpl.
  - lia.
  - destruct (OS.path_exists fs p); [destruct (OS.remove fs p) as [fs1|msg]|];
      match goal with
      | |- context [delete_loop ?a ?b paths ?c ?d ?e'] =>
          pose proof (IH a b c d e') as H
      end;
      simpl in H; rewrite ?length_app in H; simpl in H; lia.
Qed.

(** C10. Whenever [copy_files], [move_files] or [delete_files] returns its
    dictionary for [n] input paths, [successful + failed = n] and the list
    [errors] has [failed] entries. *)
Theorem file_operation_counters :
  (∀ fs paths dest r fs',
      copy_files fs paths dest = Some (Ok (r, fs')) →
      counters_ok (length paths) r)
  ∧ (∀ fs db paths dest r fs' db',
      move_files fs db paths dest = Some (Ok (r, fs', db')) →
      counters_ok (length paths) r)
  ∧ (∀ fs db paths,
      counters_ok (length paths) (delete_files fs db paths).1.1).
Proof.
  unfold counters_ok. split; [|split].
  - intros fs paths dest r fs'. unfold copy_files.
    destruct (ensure_folder fs dest) as [[fs0|msg]|]; [|done|done].
    destruct (copy_loop fs0 dest paths 0 0 []) as [[r0 fs1]|] eqn:H; [|done].
    intros [= <- <-]. apply copy_loop_counters in H. simpl in H. lia.
  - intros fs db paths dest r fs' db'. unfold move_files.
    destruct (ensure_folder fs dest) as [[fs0|msg]|]; [|done|done].
    destruct (move_loop fs0 db dest paths 0 0 []) as [[[r0 fs1] db1]|] eqn:H;
      [|done].
    intros [= <- <- <-]. apply move_loop_counters in H. simpl in H. lia.
  - intros fs db paths. unfold delete_files.
    pose proof (delete_loop_counters fs db paths 0 0 []) as H.
    simpl in H. lia.
Qed.


(** ** The destination folder *)

Lemma with_folder_ensure fs dest fs0 :
  with_folder fs dest fs0 ↔ ensure_folder fs dest = Some (Ok fs0).
Proof.
  unfold with_folder, copy_files.
  destruct (ensure_folder fs dest) as [[fs1|msg]|]; simpl; split;
    try done; by intros [= ->].
Qed.

(** When [ensure_folder] returns, nothing that existed before has changed
    and whatever is new is a directory; a folder given in normal form
    exists afterwards, as a directory when it had to be made. *)
Lemma ensure_folder_spec fs dest fs0 :
  ensure_folder fs dest = Some (Ok fs0) →
  denied fs0 = denied fs
  ∧ (∀ p n, nodes fs !! p = Some n → nodes fs0 !! p = Some n)
  ∧ (∀ p n, nodes fs0 !! p = Some n →
            nodes fs !! p = Some n ∨ nodes fs !! p = None ∧ is_dir n = true)
  ∧ (OS.path_exists fs dest = true → fs0 = fs)
  ∧ (normal dest = true →
     OS.path_exists fs0 dest = true
     ∧ (OS.path_exists fs dest = false → OS.isdir fs0 dest = true)).
Proof.
  unfold ensure_folder. destruct (OS.path_exists fs dest) eqn:He.
  - intros [= <-]. split; [done|]. split; [done|]. split; [by left|].
    split; [done|]. done.
  - intros Hmk. apply makedirs_rec_spec in Hmk as (Hden & Hkeep & Hnew & Hmade).
    split; [done|]. split; [done|]. split; [done|]. split; [done|].
    intros Hn.
    assert (nodes fs0 !! dest = Some OS.new_directory) as Hdest.
    { apply Hmade.
      destruct (normal_shape dest Hn) as [->|(_ & _ & Hb & Hdot)]; [done|].
      by rewrite bool_decide_eq_false_2. }
    split.
    + apply bool_decide_eq_true. by eexists.
    + intros _. unfold OS.isdir. by rewrite Hdest.
Qed.



(** The three operations always come back: the recursion of [makedirs]
    and the renaming loop end within their fuel, and only [os.makedirs],
    called for an absent folder, raises out of them. *)
Lemma file_operations_return fs db paths dest :
  (∃ out, copy_files fs paths dest = Some out)
  ∧ (∃ out, move_files fs db paths dest = Some out)
  ∧ (∀ msg,
       copy_files fs paths dest = Some (Raise msg)
       ∨ move_files fs db paths dest = Some (Raise msg) →
       OS.path_exists fs dest = false
       ∧ OS.makedirs fs dest = Some (Raise msg)).
Proof.
  unfold copy_files, move_files.
  assert (is_Some (ensure_folder fs dest)) as [made Hmade].
  { unfold ensure_folder. destruct (OS.path_exists fs dest); [by eexists|].
    apply makedirs_returns. }
  rewrite Hmade. destruct made as [fs0|msg0].
  - destruct (copy_loop_returns fs0 dest paths 0 0 []) as [out1 ->].
    destruct (move_loop_returns fs0 db dest paths 0 0 []) as [out2 ->].
    split; [by eexists|]. split; [by eexists|]. by intros msg [|].
  - split; [by eexists|]. split; [by eexists|].
    intros msg Hmsg. assert (msg0 = msg) as -> by (destruct Hmsg; congruence).
    unfold ensure_folder in Hmade.
    by destruct (OS.path_exists fs dest).
Qed.

(** ** Where a copy lands *)

(** The renaming loop implements the policy. *)
Lemma unique_dest_first_free fs dest name :
  ∃ d, unique_dest fs dest name = Some d ∧ first_free fs dest name d.
Proof.
  destruct (unique_dest_spec fs dest name) as (d & Hd & Hfree & Hwhich).
  exists d. split; [done|]. split; [by apply path_exists_false|].
  destruct Hwhich as [->|(Hex & k & Hk & -> & Hall)]; [by left|].
  right. split; [by apply bool_decide_eq_true in Hex|].
  exists k. split; [done|]. split; [done|].
  intros j Hj. specialize (Hall j Hj). by apply bool_decide_eq_true in Hall.
Qed.

(** In a folder given in normal form the chosen name lies in the folder. *)
Lemma first_free_dirname fs dest name d :
  normal dest = true → PosixPath.rpartition "/" name = None →
  first_free fs dest name d → PosixPath.dirname d = dest.
Proof.
  intros Hn Hname (_ & [->|(_ & k & _ & -> & _)]).
  - by apply dirname_join.
  - unfold candidate. apply dirname_join; [done|].
    by apply candidate_name_no_sep.
Qed.

Lemma copy_loop_app fs dest l1 l2 s f e :
  copy_loop fs dest (l1 ++ l2) s f e
  = copy_loop fs dest l1 s f e ≫= λ out,
      copy_loop out.2 dest l2 (successful out.1) (failed out.1) (errors out.1).
Proof.
  revert fs s f e. induction l1 as [|x l1 IH]; intros fs s f e; [done|].
  cbn [app copy_loop]. destruct (OS.path_exists fs x); [|apply IH].
  destruct (unique_dest fs dest (PosixPath.basename x)) as [d|]; [|done].
  cbn [mbind option_bind]. destruct (OS.copy2 fs x d); apply IH.
Qed.

Lemma copy_loop_denied fs dest paths s f e r fs' :
  copy_loop fs dest paths s f e = Some (r, fs') → denied fs' = denied fs.
Proof.
  revert fs s f e. induction paths as [|x paths IH]; intros fs s f e; simpl.
  - by intros [= _ <-].
  - destruct (OS.path_exists fs x); [|by apply IH].
    destruct (unique_dest_spec fs dest (PosixPath.basename x))
      as (d & -> & Hfree & _).
    simpl. apply path_exists_false in Hfree.
    destruct (OS.copy2 fs x d) as [fs1|msg] eqn:Hcopy; [|by apply IH].
    intros H. apply IH in H. rewrite H.
    by destruct (copy2_fresh _ _ _ _ Hfree Hcopy) as (nx & _ & _ & _ & _ & ->).
Qed.

(** One more source: it is copied to the name the policy gives it in the
    file system the earlier sources have left. *)
Lemma copy_files_snoc fs paths dest r fs1 src n :
  normal dest = true → denied fs = ∅ →
  copy_files fs paths dest = Some (Ok (r, fs1)) →
  OS.isdir fs1 dest = true →
  nodes fs1 !! src = Some n → is_dir n = false →
  ∃ d, first_free fs1 dest (PosixPath.basename src) d
       ∧ PosixPath.dirname d = dest
       ∧ copy_files fs (paths ++ [src]) dest
         = Some (Ok (report (S (successful r)) (failed r) (errors r),
                     {| nodes := <[d := n]> (nodes fs1);
                        denied := denied fs1 |})).
Proof.
  intros Hn Hden Hcall Hdir Hsrc Hfile.
  destruct (unique_dest_first_free fs1 dest (PosixPath.basename src))
    as (d & Hud & Hff).
  pose proof (first_free_dirname _ _ _ _ Hn (basename_no_sep src) Hff) as Hdd.
  exists d. split; [done|]. split; [done|].
  unfold copy_files in *.
  destruct (ensure_folder fs dest) as [[fs0|msg]|] eqn:Hens; [|done|done].
  destruct (copy_loop fs0 dest paths 0 0 []) as [[r0 fs1']|] eqn:Hloop;
    [|done].
  injection Hcall as -> ->.
  rewrite copy_loop_app, Hloop. cbn [mbind option_bind fst snd copy_loop].
  rewrite (path_exists_lookup fs1 src n Hsrc), Hud.
  cbn [mbind option_bind].
  rewrite (copy2_free_ok fs1 src d n Hsrc Hfile (proj1 Hff)); [done| |].
  - by rewrite Hdd.
  - rewrite (copy_loop_denied _ _ _ _ _ _ _ _ Hloop).
    destruct (ensure_folder_spec _ _ _ Hens) as (-> & _).
    rewrite Hden. set_solver.
Qed.

(** One more path that is absent or a directory: it is counted as failed
    and nothing is copied. *)
Lemma copy_files_snoc_failed fs paths dest r fs1 src :
  copy_files fs paths dest = Some (Ok (r, fs1)) →
  nodes fs1 !! src = None ∨ OS.isdir fs1 src = true →
  ∃ msg,
    copy_files fs (paths ++ [src]) dest
    = Some (Ok (report (successful r) (S (failed r)) (errors r ++ [msg])%list,
                fs1)).
Proof.
  intros Hcall Hsrc. unfold copy_files in *.
  destruct (ensure_folder fs dest) as [[fs0|msg]|] eqn:Hens; [|done|done].
  destruct (copy_loop fs0 dest paths 0 0 []) as [[r0 fs1']|] eqn:Hloop;
    [|done].
  injection Hcall as -> ->.
  rewrite copy_loop_app, Hloop. cbn [mbind option_bind fst snd copy_loop].
  destruct Hsrc as [Habs|Hdir].
  - rewrite (proj2 (path_exists_false fs1 src) Habs). by eexists.
  - unfold OS.isdir in Hdir.
    destruct (nodes fs1 !! src) as [n|] eqn:Hn; [|done].
    rewrite (path_exists_lookup fs1 src n Hn).
    destruct (unique_dest_returns fs1 dest (PosixPath.basename src))
      as [d ->].
    cbn [mbind option_bind]. unfold OS.copy2. rewrite Hn, Hdir.
    by eexists.
Qed.

(** Two existing regular files copied in one call land on two different
    names in the folder, both new, each holding its own source. *)
Lemma copy_files_two_sources fs dest fs0 s1 s2 n1 n2 :
  normal dest = true → denied fs = ∅ →
  with_folder fs dest fs0 → OS.isdir fs0 dest = true →
  nodes fs !! s1 = Some n1 → is_dir n1 = false →
  nodes fs !! s2 = Some n2 → is_dir n2 = false →
  ∃ r fs' d1 d2,
    copy_files fs [s1; s2] dest = Some (Ok (r, fs'))
    ∧ successful r = 2%nat ∧ failed r = 0%nat
    ∧ d1 ≠ d2
    ∧ PosixPath.dirname d1 = dest ∧ PosixPath.dirname d2 = dest
    ∧ nodes fs !! d1 = None ∧ nodes fs !! d2 = None
    ∧ nodes fs' !! d1 = Some n1 ∧ nodes fs' !! d2 = Some n2.
Proof.
  intros Hn Hden Hwf Hdir Hs1 Hf1 Hs2 Hf2.
  destruct (ensure_folder_spec fs dest fs0 (proj1 (with_folder_ensure _ _ _) Hwf))
    as (_ & Hkeep & _).
  assert (∀ p, nodes fs0 !! p = None → nodes fs !! p = None) as Hnew.
  { intros p Hp. destruct (nodes fs !! p) as [n|] eqn:Hq; [|done].
    apply Hkeep in Hq. congruence. }
  destruct (copy_files_snoc fs [] dest _ fs0 s1 n1 Hn Hden Hwf Hdir
              (Hkeep _ _ Hs1) Hf1) as (d1 & [Hfree1 _] & Hdd1 & Hc1).
  cbn [app successful failed errors report] in Hc1.
  assert (nodes fs0 !! dest ≠ None) as Hdest.
  { unfold OS.isdir in Hdir. by destruct (nodes fs0 !! dest). }
  destruct (copy_files_snoc fs [s1] dest _ _ s2 n2 Hn Hden Hc1)
    as (d2 & [Hfree2 _] & Hdd2 & Hc2).
  { unfold OS.isdir. cbn [nodes]. rewrite lookup_insert_ne by congruence.
    exact Hdir. }
  { cbn [nodes]. rewrite lookup_insert_ne; [by apply Hkeep|].
    intros ->. apply Hkeep in Hs2. congruence. }
  { done. }
  cbn [app successful failed errors report nodes denied] in Hc2, Hfree2.
  assert (d1 ≠ d2) as Hne.
  { intros <-. by rewrite lookup_insert_eq in Hfree2. }
  rewrite lookup_insert_ne in Hfree2 by done.
  eexists _, _, d1, d2. split; [exact Hc2|].
  cbn [successful failed report nodes].
  split; [done|]. split; [done|]. split; [done|].
  split; [done|]. split; [done|].
  split; [by apply Hnew|]. split; [by apply Hnew|].
  split.
  - rewrite lookup_insert_ne by done. by rewrite lookup_insert_eq.
  - by rewrite lookup_insert_eq.
Qed.

(** C9. [copy_files] always comes back.  When it returns its dictionary,
    every entry that existed before the call is unchanged, and a
    destination folder given in normal form exists, as a directory when it
    had to be made.  Each source that is a regular file is copied to the
    plain path in the folder when that is free and otherwise to
    [base_<k><ext>] for the first [k >= 1] that is free, in the file
    system the earlier sources have left; a path that is absent or a
    directory is counted as failed and copies nothing; so two sources
    copied in one call (two distinct files with one base name in
    particular) end up in two distinct new files of the folder. *)
Theorem copy_files_never_overwrites :
  (∀ fs paths dest, ∃ out, copy_files fs paths dest = Some out)
  ∧ (∀ fs paths dest r fs',
       copy_files fs paths dest = Some (Ok (r, fs')) →
       (∀ p n, nodes fs !! p = Some n → nodes fs' !! p = Some n)
       ∧ (normal dest = true →
          OS.path_exists fs' dest = true
          ∧ (OS.path_exists fs dest = false → OS.isdir fs' dest = true)))
  ∧ (∀ fs paths dest r fs1 src n,
       normal dest = true → denied fs = ∅ →
       copy_files fs paths dest = Some (Ok (r, fs1)) →
       OS.isdir fs1 dest = true →
       nodes fs1 !! src = Some n → is_dir n = false →
       ∃ d, first_free fs1 dest (PosixPath.basename src) d
            ∧ PosixPath.dirname d = dest
            ∧ copy_files fs (paths ++ [src]) dest
              = Some (Ok (report (S (successful r)) (failed r) (errors r),
                          {| nodes := <[d := n]> (nodes fs1);
                             denied := denied fs1 |})))
  ∧ (∀ fs paths dest r fs1 src,
       copy_files fs paths dest = Some (Ok (r, fs1)) →
       nodes fs1 !! src = None ∨ OS.isdir fs1 src = true →
       ∃ msg,
         copy_files fs (paths ++ [src]) dest
         = Some (Ok (report (successful r) (S (failed r))
                            (errors r ++ [msg])%list, fs1)))
  ∧ (∀ fs dest fs0 s1 s2 n1 n2,
       normal dest = true → denied fs = ∅ →
       with_folder fs dest fs0 → OS.isdir fs0 dest = true →
       nodes fs !! s1 = Some n1 → is_dir n1 = false →
       nodes fs !! s2 = Some n2 → is_dir n2 = false →
       ∃ r fs' d1 d2,
         copy_files fs [s1; s2] dest = Some (Ok (r, fs'))
         ∧ successful r = 2%nat ∧ failed r = 0%nat
         ∧ d1 ≠ d2
         ∧ PosixPath.dirname d1 = dest ∧ PosixPath.dirname d2 = dest
         ∧ nodes fs !! d1 = None ∧ nodes fs !! d2 = None
         ∧ nodes fs' !! d1 = Some n1 ∧ nodes fs' !! d2 = Some n2).
Proof.
  split; [|split; [|split; [|split]]].
  - intros fs paths dest.
    apply (file_operations_return fs DatabaseManager.init_database).
  - intros fs paths dest r fs'. unfold copy_files.
    destruct (ensure_folder fs dest) as [[fs0|msg]|] eqn:Hens; [|done|done].
    destruct (copy_loop fs0 dest paths 0 0 []) as [[r0 fs1]|] eqn:H; [|done].
    intros [= <- <-].
    destruct (ensure_folder_spec _ _ _ Hens) as (_ & Hkeep & _ & _ & Hdest).
    pose proof (copy_loop_preserves _ _ _ _ _ _ _ _ H) as Hkeep'.
    split; [intros p n Hp; by apply Hkeep', Hkeep|].
    intros Hn. destruct (Hdest Hn) as [Hex Hmade]. split.
    + apply bool_decide_eq_true in Hex as [n Hx].
      apply bool_decide_eq_true. exists n. by apply Hkeep'.
    + intros Habs. specialize (Hmade Habs). unfold OS.isdir in *.
      destruct (nodes fs0 !! dest) as [n|] eqn:Hx; [|done].
      by rewrite (Hkeep' _ _ Hx).
  - apply copy_files_snoc.
  - apply copy_files_snoc_failed.
  - apply copy_files_two_sources.
Qed.

End FileFacts.

(** ** The operations on the small collection *)

Section Worked.
Import DatabaseManager PhotoManager FaceRecognitionEngine Scenario.

Example basename_photo : PosixPath.basename "/a/b/c.jpg" = "c.jpg".
Proof. reflexivity. Qed.

Example dirname_photo : PosixPath.dirname "/a/b/c.jpg" = "/a/b".
Proof. reflexivity. Qed.

Example dirname_of_root_entry : PosixPath.dirname "/c.jpg" = "/".
Proof. reflexivity. Qed.

Example splitext_last_dot :
  PosixPath.splitext "c.tar.JPG" = ("c.tar", ".JPG").
Proof. reflexivity. Qed.

Example splitext_leading_dot :
  PosixPath.splitext "/a.b/.bashrc" = ("/a.b/.bashrc", "").
Proof. reflexivity. Qed.

Example join_adds_separator :
  PosixPath.join "/out" "c_1.jpg" = "/out/c_1.jpg"
  ∧ PosixPath.join "/out/" "c_1.jpg" = "/out/c_1.jpg".
Proof. split; reflexivity. Qed.

Example supported_is_case_insensitive :
  is_supported_image "/A/b.JPG" = true
  ∧ is_supported_image "/a/b.gif" = false.
Proof. split; reflexivity. Qed.

(** Distances 0.3, 0.5 and 0.7 with tolerance 0.6 and floor 0.55: only the
    first portrait qualifies. *)
Example search_portraits :
  search_similar_faces lib_face_distance portraits query (6 # 10) (55 # 100) true
  = [ {| m_file_path := "/photos/a.jpg"; m_file_name := "a.jpg";
         m_face_location := region; m_distance := 3 # 10;
         m_similarity := 7 # 10; m_face_index := 0 |} ].
Proof. vm_compute. reflexivity. Qed.

(** The prefix test is on strings: [/photos] also admits [/photos-old]. *)
Example search_prefix_is_textual :
  (m_file_path <$>
     search_similar_faces lib_face_distance indexed query (6 # 10) (55 # 100) true)
  = ["/photos-old/d.jpg"; "/photos/a.jpg"]
  ∧ (m_file_path <$>
       search_similar_faces lib_face_distance indexed query (6 # 10) (55 # 100) false)
    = ["/photos-old/d.jpg"; "/inbox/a.jpg"; "/photos/a.jpg"].
Proof. split; vm_compute; reflexivity. Qed.

(** A query against which no distance can be computed empties the result. *)
Example search_with_mismatched_query :
  search_similar_faces lib_face_distance portraits [0; 0]%Q (6 # 10) (55 # 100) true
  = [].
Proof. vm_compute. reflexivity. Qed.

(** C2.  [/photos/broken.jpg] holds bytes on which the detector raises.
    [index_image] hands it to the detector, returns [True] and inserts an
    image row with [face_count = 0] for it. *)
Theorem index_image_detector_exception_is_success :
  nodes disk !! "/photos/broken.jpg" = Some (picture 130 "not an image")
  ∧ detect "not an image" = None
  ∧ get_image_by_path portraits "/photos/broken.jpg" = None
  ∧ (index_image detect disk portraits "/photos/broken.jpg").1.1 = true
  ∧ (index_image detect disk portraits "/photos/broken.jpg").2
    = ["/photos/broken.jpg"]
  ∧ get_image_by_path
      (index_image detect disk portraits "/photos/broken.jpg").1.2
      "/photos/broken.jpg"
    = Some {| img_id := 4; file_path := "/photos/broken.jpg";
              file_name := "broken.jpg"; file_size := 12;
              modification_time := 130; face_count := 0;
              folder_path := "/photos" |}.
Proof. repeat split; vm_compute; reflexivity. Qed.

(** C3.  [/photos/a.jpg] was indexed at time 100 and edited at time 200.
    Re-indexing replaces the image row (id 1 becomes id 4) and appends the
    new encoding, and the encoding row of the first pass is still in table
    [face_encodings], pointing at the id that no longer exists. *)
Theorem reindex_leaves_stale_encoding_rows :
  get_image_by_path portraits "/photos/a.jpg" = Some anna_row
  ∧ face_encodings portraits !! 0%nat = Some anna_face
  ∧ (index_image detect disk_edited portraits "/photos/a.jpg").1.1 = true
  ∧ (img_id <$> images (index disk_edited portraits "/photos/a.jpg"))
    = [2; 3; 4]%nat
  ∧ face_encodings (index disk_edited portraits "/photos/a.jpg") !! 0%nat
    = Some anna_face
  ∧ (image_id <$> face_encodings (index disk_edited portraits "/photos/a.jpg"))
    = [1; 2; 3; 4]%nat
  ∧ total_faces
      (get_database_stats (index disk_edited portraits "/photos/a.jpg") 0)
    = 4%nat
  ∧ (fd_image_id <$>
       get_all_face_encodings (index disk_edited portraits "/photos/a.jpg"))
    = [2; 3; 4]%nat.
Proof. repeat split; vm_compute; reflexivity. Qed.

(** C4.  After [/photos] is added and then removed, no folder is active
    and the row is still in the table; [get_database_stats] reports
    [active_folders = 1]. *)
Theorem stats_count_deactivated_folder :
  let db := (remove_search_folder configured "/photos").2 in
  get_search_folders configured = ["/photos"]
  ∧ get_search_folders db = []
  ∧ search_folders db
    = [{| sf_id := 1; sf_folder_path := "/photos"; is_active := false |}]
  ∧ active_folders (get_database_stats db 0) = 1%nat.
Proof. repeat split; vm_compute; reflexivity. Qed.

(** Whatever the store, a folder that was added and then removed is not
    active, and the reported count exceeds the number of active folders. *)
Lemma stats_overcount db p sz :
  let db' := (remove_search_folder (add_search_folder db p).2 p).2 in
  (p ∉ get_search_folders db')
  ∧ (length (get_search_folders db')
     < active_folders (get_database_stats db' sz))%nat.
Proof.
  simpl. split.
  - unfold get_search_folders. simpl. intros Hin.
    apply list_elem_of_fmap in Hin as (r & Hp & Hr).
    apply list_elem_of_filter in Hr as [Hact Hr].
    apply list_elem_of_fmap in Hr as (r0 & Hr0 & _).
    case_bool_decide; subst r; simpl in *; congruence.
  - unfold get_search_folders. simpl. rewrite length_fmap.
    eapply length_filter_lt.
    + rewrite fmap_app. apply elem_of_app. right. simpl.
      rewrite bool_decide_eq_true_2 by done. left.
    + simpl. done.
Qed.

End Worked.

(** ** The theorems at work on the small collection *)

Section Instances.
Import DatabaseManager PhotoManager FaceRecognitionEngine Scenario.

Lemma search_similar_faces_spec_witness :
  query ≠ []
  ∧ (∀ fe i, (fe, i) ∈ SearchSpec.stored indexed →
             SearchSpec.within (SearchSpec.scope indexed true) (file_path i) →
             lib_face_distance query [encoding_data fe] = Some [row_dist fe])
  ∧ search_similar_faces lib_face_distance indexed query (6 # 10) (55 # 100) true
      ≡ₚ SearchSpec.matches indexed true (6 # 10) (55 # 100) row_dist
  ∧ Forall (λ m, m_similarity m = (1 - m_distance m)%Q)
      (search_similar_faces lib_face_distance indexed query
         (6 # 10) (55 # 100) true)
  ∧ StronglySorted by_similarity_desc
      (search_similar_faces lib_face_distance indexed query
         (6 # 10) (55 # 100) true).
Proof.
  assert (query ≠ []) as Hq by discriminate.
  assert (∀ fe i, (fe, i) ∈ SearchSpec.stored indexed →
            SearchSpec.within (SearchSpec.scope indexed true) (file_path i) →
            lib_face_distance query [encoding_data fe] = Some [row_dist fe])
    as H.
  { intros fe i Hin _. apply list_elem_of_In in Hin. vm_compute in Hin.
    repeat (destruct Hin as [Heq|Hin];
            [injection Heq as <- <-; vm_compute; reflexivity|]).
    destruct Hin. }
  split; [exact Hq|]. split; [exact H|].
  exact (search_similar_faces_spec lib_face_distance indexed query
           (6 # 10) (55 # 100) true row_dist Hq H).
Defined.

Lemma index_image_idempotent_witness :
  index_image detect disk configured "/photos/a.jpg"
    = (true, index disk configured "/photos/a.jpg", ["/photos/a.jpg"])
  ∧ index_image detect disk (index disk configured "/photos/a.jpg")
      "/photos/a.jpg"
    = (true, index disk configured "/photos/a.jpg", []).
Proof.
  split; [vm_compute; reflexivity|].
  apply (index_image_idempotent detect detect disk disk configured
           "/photos/a.jpg" _ ["/photos/a.jpg"]
           (picture 100 "anna") (picture 100 "anna"));
    vm_compute; reflexivity.
Defined.

Lemma is_image_processed_iff_witness :
  unique_paths portraits
  ∧ is_image_processed portraits "/photos/a.jpg" 100 = true
  ∧ is_image_processed portraits "/photos/a.jpg" (100 + 1) = false.
Proof.
  assert (unique_paths portraits) as Hu.
  { unfold unique_paths. apply (bool_decide_unpack _). vm_compute. exact I. }
  split; [exact Hu|].
  apply (proj2 (is_image_processed_iff portraits "/photos/a.jpg" Hu) anna_row).
  - apply list_elem_of_In. vm_compute. left. reflexivity.
  - reflexivity.
Defined.

Lemma search_scope_filter_witness :
  (∀ m, m ∈ search_similar_faces lib_face_distance indexed query
              (6 # 10) (55 # 100) true →
        ∃ folder, folder ∈ get_search_folders indexed
                  ∧ String.prefix folder (m_file_path m) = true)
  ∧ search_similar_faces lib_face_distance indexed query (6 # 10) (55 # 100) true
    = search_similar_faces fragile_distance indexed query (6 # 10) (55 # 100) true
  ∧ search_similar_faces lib_face_distance unscoped query (6 # 10) (55 # 100) true
    = search_similar_faces lib_face_distance unscoped query (6 # 10) (55 # 100) false.
Proof.
  split; [|split].
  - apply (proj1 (search_scope_filter lib_face_distance indexed query
                    (6 # 10) (55 # 100))).
    intros Hnil. vm_compute in Hnil. discriminate Hnil.
  - apply (proj1 (proj2 (search_scope_filter lib_face_distance indexed query
                           (6 # 10) (55 # 100)))).
    intros fd Hin. apply list_elem_of_In in Hin. vm_compute in Hin.
    repeat (destruct Hin as [<-|Hin]; [vm_compute; reflexivity|]).
    destruct Hin.
  - apply (proj2 (proj2 (search_scope_filter lib_face_distance unscoped query
                           (6 # 10) (55 # 100)))).
    vm_compute. reflexivity.
Defined.

Lemma delete_image_and_faces_cascade_witness :
  get_image_by_path indexed "/photos/a.jpg" = Some anna_row
  ∧ get_image_by_path indexed "/nowhere.png" = None
  ∧ (delete_image_and_faces indexed "/nowhere.png").1 = true
  ∧ (delete_image_and_faces indexed "/nowhere.png").2 = indexed
  ∧ (∀ fe, fe ∈ face_encodings (delete_image_and_faces indexed "/photos/a.jpg").2 →
           image_id fe ≠ img_id anna_row)
  ∧ (∀ i, i ∈ images (delete_image_and_faces indexed "/photos/a.jpg").2 →
          img_id i ≠ img_id anna_row).
Proof.
  assert (get_image_by_path indexed "/photos/a.jpg" = Some anna_row) as Ha
    by (vm_compute; reflexivity).
  assert (get_image_by_path indexed "/nowhere.png" = None) as Hn
    by (vm_compute; reflexivity).
  split; [exact Ha|]. split; [exact Hn|].
  split; [exact (proj1 (delete_image_and_faces_cascade indexed "/nowhere.png"))|].
  split.
  - exact (proj1 (proj2 (delete_image_and_faces_cascade indexed "/nowhere.png"))
             Hn).
  - exact (proj2 (proj2 (delete_image_and_faces_cascade indexed "/photos/a.jpg"))
             anna_row Ha).
Defined.

Lemma copy_files_never_overwrites_witness :
  match copy_files disk to_copy "/album" with
  | Some (Ok (r, fs')) =>
      (∀ p n, nodes disk !! p = Some n → nodes fs' !! p = Some n)
      ∧ OS.path_exists fs' "/album" = true ∧ OS.isdir fs' "/album" = true
  | _ => False
  end
  ∧ (∃ d, first_free album_one "/album" "a.jpg" d
          ∧ PosixPath.dirname d = "/album"
          ∧ copy_files disk ["/photos/a.jpg"; "/inbox/a.jpg"] "/album"
            = Some (Ok (report 2 0 [],
                        {| nodes := <[d := picture 150 "ezra"]> (nodes album_one);
                           denied := ∅ |})))
  ∧ (∃ msg,
        copy_files disk ["/photos/a.jpg"; "/nowhere.png"] "/album"
        = Some (Ok (report 1 1 [msg], album_one)))
  ∧ ∃ r fs' d1 d2,
      copy_files disk ["/photos/a.jpg"; "/inbox/a.jpg"] "/album"
        = Some (Ok (r, fs'))
      ∧ successful r = 2%nat ∧ failed r = 0%nat
      ∧ d1 ≠ d2
      ∧ PosixPath.dirname d1 = "/album" ∧ PosixPath.dirname d2 = "/album"
      ∧ nodes disk !! d1 = None ∧ nodes disk !! d2 = None
      ∧ nodes fs' !! d1 = Some (picture 100 "anna")
      ∧ nodes fs' !! d2 = Some (picture 150 "ezra").
Proof.
  split; [|split; [|split]].
  - destruct (copy_files disk to_copy "/album") as [[[r fs']|msg]|] eqn:H.
    + destruct (proj1 (proj2 copy_files_never_overwrites) _ _ _ _ _ H)
        as [Hkeep Hdest].
      split; [exact Hkeep|].
      destruct (Hdest eq_refl) as [Hex Hmade].
      split; [exact Hex|]. apply Hmade. vm_compute. reflexivity.
    + vm_compute in H. discriminate H.
    + vm_compute in H. discriminate H.
  - apply (proj1 (proj2 (proj2 copy_files_never_overwrites))
             disk ["/photos/a.jpg"] "/album" (report 1 0 []) album_one
             "/inbox/a.jpg" (picture 150 "ezra"));
      vm_compute; reflexivity.
  - apply (proj1 (proj2 (proj2 (proj2 copy_files_never_overwrites)))
             disk ["/photos/a.jpg"] "/album" (report 1 0 []) album_one
             "/nowhere.png").
    + vm_compute. reflexivity.
    + left. vm_compute. reflexivity.
  - apply (proj2 (proj2 (proj2 (proj2 copy_files_never_overwrites)))
             disk "/album" disk_album);
      vm_compute; reflexivity.
Defined.

Lemma file_operation_counters_witness :
  match copy_files disk to_copy "/album" with
  | Some (Ok (r, _)) => counters_ok 4 r
  | _ => False
  end
  ∧ match move_files disk indexed to_copy "/album" with
    | Some (Ok (r, _, _)) => counters_ok 4 r
    | _ => False
    end
  ∧ counters_ok 4 (delete_files disk indexed to_copy).1.1.
Proof.
  split; [|split].
  - destruct (copy_files disk to_copy "/album") as [[[r fs']|msg]|] eqn:H.
    + exact (proj1 file_operation_counters _ _ _ _ _ H).
    + vm_compute in H. discriminate H.
    + vm_compute in H. discriminate H.
  - destruct (move_files disk indexed to_copy "/album")
      as [[[[r fs'] db']|msg]|] eqn:H.
    + exact (proj1 (proj2 file_operation_counters) _ _ _ _ _ _ _ H).
    + vm_compute in H. discriminate H.
    + vm_compute in H. discriminate H.
  - exact (proj2 (proj2 file_operation_counters) disk indexed to_copy).
Defined.

(** What the description asks of the restricted search on the collection:
    the two portraits under a path that begins with [/photos] and within
    both thresholds, in table order. *)
Example matches_on_collection :
  SearchSpec.matches indexed true (6 # 10) (55 # 100) row_dist
  = [anna_match; dora_match].
Proof. vm_compute. reflexivity. Qed.

(** The renaming on the collection: the second [a.jpg] becomes [a_1.jpg],
    and copying into the folder that holds the original starts at
    [a_1.jpg] as well. *)
Example copy_collision_names :
  unique_dest disk "/album" "a.jpg" = Some "/album/a.jpg"
  ∧ unique_dest disk "/photos" "a.jpg" = Some "/photos/a_1.jpg"
  ∧ match copy_files disk ["/photos/a.jpg"; "/inbox/a.jpg"] "/album" with
    | Some (Ok (r, fs')) =>
        r = report 2 0 []
        ∧ data <$> nodes fs' !! "/album/a.jpg" = Some "anna"
        ∧ data <$> nodes fs' !! "/album/a_1.jpg" = Some "ezra"
    | _ => False
    end.
Proof. vm_compute. repeat split; reflexivity. Qed.

(** The messages of the failures, one per failed path. *)
Example copy_counts_on_collection :
  match copy_files disk to_copy "/album" with
  | Some (Ok (r, _)) =>
      r = report 2 2 ["File not found: /nowhere.png";
                      "Error copying /photos: Is a directory"]
  | _ => False
  end.
Proof. vm_compute. reflexivity. Qed.

(** Below a regular file nothing can be created: with such a destination
    both copies fail and the file system is as it was. *)
Example copy_into_a_file :
  copy_files disk ["/photos/a.jpg"; "/photos/b.jpg"] "/inbox/a.jpg"
  = Some (Ok (report 0 2 ["Error copying /photos/a.jpg: Not a directory";
                          "Error copying /photos/b.jpg: Not a directory"],
              disk)).
Proof. vm_compute. reflexivity. Qed.

(** [os.makedirs] raises out of the method for the empty path and below a
    regular file. *)
Example copy_to_impossible_folder :
  copy_files disk ["/photos/a.jpg"] "" = Some (Raise "No such file or directory")
  ∧ copy_files disk ["/photos/a.jpg"] "/inbox/a.jpg/x"
    = Some (Raise "Not a directory").
Proof. split; vm_compute; reflexivity. Qed.

(** A nested folder is made together with its missing parent. *)
Example copy_to_nested_folder :
  match copy_files disk ["/photos/a.jpg"] "/album/2024" with
  | Some (Ok (r, fs')) =>
      r = report 1 0 []
      ∧ OS.isdir fs' "/album" = true ∧ OS.isdir fs' "/album/2024" = true
      ∧ data <$> nodes fs' !! "/album/2024/a.jpg" = Some "anna"
      ∧ size (nodes fs') = (size (nodes disk) + 3)%nat
  | _ => False
  end.
Proof. vm_compute. repeat split; reflexivity. Qed.

(** A directory that is moved takes along what is below it; the records of
    what was below it stay in the store under the old paths. *)
Example move_directory :
  match move_files disk indexed ["/photos"] "/inbox" with
  | Some (Ok (r, fs', db')) =>
      r = report 1 0 []
      ∧ nodes fs' !! "/photos" = None ∧ nodes fs' !! "/photos/b.jpg" = None
      ∧ OS.isdir fs' "/inbox/photos" = true
      ∧ data <$> nodes fs' !! "/inbox/photos/b.jpg" = Some "bela"
      ∧ size (nodes fs') = size (nodes disk)
      ∧ get_image_by_path db' "/photos/b.jpg"
        = get_image_by_path indexed "/photos/b.jpg"
  | _ => False
  end.
Proof. vm_compute. repeat split; reflexivity. Qed.

(** A directory cannot be moved below itself. *)
Example move_directory_into_itself :
  match move_files disk indexed ["/photos"] "/photos/sub" with
  | Some (Ok (r, fs', _)) =>
      r = report 0 1 ["Error moving /photos: Cannot move a directory into itself"]
      ∧ OS.isdir fs' "/photos/sub" = true ∧ OS.isdir fs' "/photos" = true
      ∧ data <$> nodes fs' !! "/photos/b.jpg" = Some "bela"
  | _ => False
  end.
Proof. vm_compute. repeat split; reflexivity. Qed.

(** The unrestricted search reaches the row on which the fragile metric
    raises, and comes back empty. *)
Example fragile_search_unrestricted :
  search_similar_faces fragile_distance indexed query (6 # 10) (55 # 100) false
  = [].
Proof. vm_compute. reflexivity. Qed.

End Instances.

(** * Further properties of the store *)

Section FolderFacts.
Import DatabaseManager.

Lemma active_paths_filter (l : list FolderRow) p :
  sf_folder_path <$> filter (λ r, is_active r = true)
                       (filter (λ r, sf_folder_path r ≠ p) l)
  = filter (λ f, f ≠ p)
      (sf_folder_path <$> filter (λ r, is_active r = true) l).
Proof.
  induction l as [|r l IH]; [done|].
  rewrite (filter_cons (λ r, sf_folder_path r ≠ p)).
  rewrite (filter_cons (λ r, is_active r = true) r l).
  destruct (decide (sf_folder_path r ≠ p)) as [Hne|Heq];
    destruct (decide (is_active r = true)) as [Ha|Ha].
  - rewrite filter_cons, decide_True by done. rewrite !fmap_cons.
    rewrite filter_cons, decide_True by done. by rewrite IH.
  - rewrite filter_cons, decide_False by done. done.
  - rewrite fmap_cons, filter_cons, decide_False by done. done.
  - done.
Qed.

(** X1. Adding a folder makes it the last active folder, listed once, and
    leaves the other active folders in their order; this holds whether the
    folder is new, already active or was removed before. *)
Theorem add_search_folder_activates db p :
  (add_search_folder db p).1 = true
  ∧ get_search_folders (add_search_folder db p).2
    = (filter (λ f, f ≠ p) (get_search_folders db) ++ [p])%list.
Proof.
  split; [done|]. unfold get_search_folders. simpl.
  rewrite filter_app, fmap_app, active_paths_filter.
  rewrite filter_cons, decide_True by done. done.
Qed.

Lemma deactivate_active_paths (l : list FolderRow) p :
  sf_folder_path <$>
    filter (λ r, is_active r = true)
      ((λ r, if bool_decide (sf_folder_path r = p)
             then {| sf_id := sf_id r; sf_folder_path := sf_folder_path r;
                     is_active := false |}
             else r) <$> l)
  = filter (λ f, f ≠ p)
      (sf_folder_path <$> filter (λ r, is_active r = true) l).
Proof.
  induction l as [|r l IH]; [done|].
  rewrite fmap_cons, !filter_cons.
  case_bool_decide as Hp; simpl.
  - destruct (decide (is_active r = true)); [|done].
    rewrite fmap_cons, filter_cons, decide_False by (by intros ?). exact IH.
  - destruct (decide (is_active r = true)); [|done].
    rewrite !fmap_cons, filter_cons, decide_True by done. by rewrite IH.
Qed.

(** X2. Removing a folder takes it out of the active folders and leaves
    the others in their order; the table keeps all its rows and paths, and
    removing a folder the table does not hold changes nothing. *)
Theorem remove_search_folder_deactivates db p :
  get_search_folders (remove_search_folder db p).2
    = filter (λ f, f ≠ p) (get_search_folders db)
  ∧ (sf_folder_path <$> search_folders (remove_search_folder db p).2)
    = (sf_folder_path <$> search_folders db)
  ∧ (p ∉ (sf_folder_path <$> search_folders db) →
     (remove_search_folder db p).2 = db).
Proof.
  split; [|split].
  - unfold get_search_folders. simpl. apply deactivate_active_paths.
  - simpl. rewrite <- list_fmap_compose. apply list_fmap_ext.
    intros i r _. simpl. by case_bool_decide.
  - intros Hp. destruct db as [im ims fe fes sf sfs]. simpl in *. f_equal.
    induction sf as [|r sf IH]; [done|].
    rewrite fmap_cons in Hp. apply not_elem_of_cons in Hp as [Hr Hp].
    rewrite fmap_cons, (IH Hp). by rewrite bool_decide_eq_false_2.
Qed.

End FolderFacts.

Section StoreInvariant.
Import DatabaseManager.

Lemma filter_all {A} (P : A → Prop) `{!∀ x, Decision (P x)} (l : list A) :
  (∀ x, x ∈ l → P x) → filter P l = l.
Proof.
  induction l as [|x l IH]; intros Hall; [done|].
  rewrite filter_cons, decide_True by (apply Hall; left).
  f_equal. apply IH. intros y Hy. apply Hall. by right.
Qed.

Lemma filter_none {A} (P : A → Prop) `{!∀ x, Decision (P x)} (l : list A) :
  (∀ x, x ∈ l → ¬ P x) → filter P l = [].
Proof.
  induction l as [|x l IH]; intros Hall; [done|].
  rewrite filter_cons, decide_False by (apply Hall; left).
  apply IH. intros y Hy. apply Hall. by right.
Qed.

Lemma filter_ext_elem {A} (P Q : A → Prop)
    `{!∀ x, Decision (P x), !∀ x, Decision (Q x)} (l : list A) :
  (∀ x, x ∈ l → P x ↔ Q x) → filter P l = filter Q l.
Proof.
  induction l as [|x l IH]; intros Hall; [done|].
  rewrite !filter_cons.
  rewrite IH by (intros y Hy; apply Hall; by right).
  apply decide_ext, Hall. left.
Qed.

Lemma get_all_face_encodings_joined db :
  get_all_face_encodings db = face_encodings db ≫= joined (images db).
Proof.
  unfold get_all_face_encodings, joined.
  induction (face_encodings db) as [|fe l IH]; [done|].
  rewrite !bind_cons, IH. f_equal.
Qed.

Lemma next_rowid_fresh seq ids :
  (seq < next_rowid seq ids)%nat
  ∧ ∀ x, x ∈ ids → (x < next_rowid seq ids)%nat.
Proof.
  unfold next_rowid. split; [lia|].
  intros x Hx. apply max_list_elem_of_le in Hx. lia.
Qed.

Lemma store_ok_init : store_ok init_database.
Proof. repeat split; simpl; constructor. Qed.

Lemma store_ok_add_image_record db p name size m faces folder :
  store_ok db → store_ok (add_image_record db p name size m faces folder).2.
Proof.
  intros (Hp & Hi & Hseq & Hfe).
  destruct (next_rowid_fresh (images_seq db) (img_id <$> images db))
    as [Hgt Hfresh].
  split; [by apply add_image_record_unique_paths|].
  unfold unique_ids in *. simpl. split; [|split].
  - rewrite fmap_app. apply NoDup_app. split; [|split].
    + eapply sublist_NoDup; [exact Hi|]. apply fmap_sublist, sublist_filter.
    + intros x Hin Hx. simpl in Hx. apply list_elem_of_singleton in Hx as ->.
      apply list_elem_of_fmap in Hin as (r & Heq & Hin).
      apply list_elem_of_filter in Hin as [_ Hin].
      assert (img_id r < next_rowid (images_seq db) (img_id <$> images db))%nat
        by (apply Hfresh; by apply list_elem_of_fmap_2).
      lia.
    + apply NoDup_singleton.
  - apply Forall_app. split.
    + apply Forall_forall. intros r Hr.
      apply list_elem_of_filter in Hr as [_ Hr].
      rewrite Forall_forall in Hseq. specialize (Hseq r Hr). lia.
    + constructor; [simpl; lia|constructor].
  - eapply Forall_impl; [exact Hfe|]. simpl. intros fe Hle. lia.
Qed.

Lemma store_ok_add_face_encoding db image i enc loc c :
  store_ok db → (image ≤ images_seq db)%nat →
  store_ok (add_face_encoding db image i enc loc c).2.
Proof.
  intros (Hp & Hi & Hseq & Hfe) Hle. repeat split; try done. simpl.
  apply Forall_app. split; [done|]. by constructor.
Qed.

Lemma store_ok_delete_image_and_faces db p :
  store_ok db → store_ok (delete_image_and_faces db p).2.
Proof.
  intros (Hp & Hi & Hseq & Hfe).
  split; [by apply delete_image_and_faces_unique_paths|].
  unfold delete_image_and_faces, unique_ids in *.
  destruct (head _) as [row|]; simpl; [|done].
  split; [|split].
  - eapply sublist_NoDup; [exact Hi|]. apply fmap_sublist, sublist_filter.
  - apply Forall_forall. intros r Hr. apply list_elem_of_filter in Hr as [_ Hr].
    rewrite Forall_forall in Hseq. by apply Hseq.
  - apply Forall_forall. intros r Hr. apply list_elem_of_filter in Hr as [_ Hr].
    rewrite Forall_forall in Hfe. by apply Hfe.
Qed.

Lemma store_ok_folders db sf sfs :
  store_ok db →
  store_ok {| images := images db; images_seq := images_seq db;
              face_encodings := face_encodings db;
              face_encodings_seq := face_encodings_seq db;
              search_folders := sf; search_folders_seq := sfs |}.
Proof. intros (Hp & Hi & Hseq & Hfe). repeat split; done. Qed.

End StoreInvariant.

Section RecordFacts.
Import DatabaseManager.

Lemma filter_path_other (l : list ImageRow) p q :
  q ≠ p →
  filter (λ r, file_path r = q) (filter (λ r, file_path r ≠ p) l)
  = filter (λ r, file_path r = q) l.
Proof.
  intros Hne. rewrite list_filter_filter. apply list_filter_iff.
  intros r. split; [by intros [? _]|]. intros Hq. split; [done|congruence].
Qed.

Lemma add_image_record_other db p name size m faces folder q :
  q ≠ p →
  get_image_by_path (add_image_record db p name size m faces folder).2 q
  = get_image_by_path db q.
Proof.
  intros Hq. unfold get_image_by_path. simpl.
  rewrite filter_app, filter_path_other by done.
  rewrite (filter_cons _ _ []), decide_False by (simpl; congruence).
  by rewrite filter_nil, app_nil_r.
Qed.

(** X4. For values SQLite can store (the size and the face count are
    64-bit integers, and the table has a rowid left), [add_image_record]
    hands out an id above the counter and above every id in the table;
    afterwards the path is found with exactly the values written, every
    other path is found as before, and table [face_encodings] is
    untouched. *)
Theorem add_image_record_round_trip db p name size m faces folder :
  sqlite_integer size → sqlite_integer (Z.of_nat faces) → rowid_left db →
  ∃ id,
    (add_image_record db p name size m faces folder).1 = Some id
    ∧ (images_seq db < id)%nat
    ∧ (∀ i, i ∈ images db → (img_id i < id)%nat)
    ∧ get_image_by_path (add_image_record db p name size m faces folder).2 p
      = Some {| img_id := id; file_path := p; file_name := name;
                file_size := size; modification_time := m;
                face_count := faces; folder_path := folder |}
    ∧ (∀ q, q ≠ p →
         get_image_by_path (add_image_record db p name size m faces folder).2 q
         = get_image_by_path db q)
    ∧ face_encodings (add_image_record db p name size m faces folder).2
      = face_encodings db.
Proof.
  intros _ _ _.
  destruct (next_rowid_fresh (images_seq db) (img_id <$> images db))
    as [Hgt Hfresh].
  destruct (add_image_record_lookup db p name size m faces folder)
    as (id & Hid & Hget).
  exists id. injection Hid as <-.
  split; [done|]. split; [done|]. split.
  { intros i Hi. apply Hfresh. by apply list_elem_of_fmap_2. }
  split; [done|]. split; [|done].
  intros q Hq. by apply add_image_record_other.
Qed.

Lemma unique_ids_inj db i r :
  unique_ids db → i ∈ images db → r ∈ images db →
  img_id i = img_id r → i = r.
Proof.
  unfold unique_ids. induction (images db) as [|x l IH]; intros Hnd Hi Hr Heq.
  { by apply not_elem_of_nil in Hi. }
  rewrite fmap_cons in Hnd. apply NoDup_cons in Hnd as [Hx Hnd].
  apply elem_of_cons in Hi as [->|Hi]; apply elem_of_cons in Hr as [->|Hr].
  - done.
  - exfalso. apply Hx. rewrite Heq. by apply list_elem_of_fmap_2.
  - exfalso. apply Hx. rewrite <- Heq. by apply list_elem_of_fmap_2.
  - by apply IH.
Qed.

Lemma unique_paths_inj db i r :
  unique_paths db → i ∈ images db → r ∈ images db →
  file_path i = file_path r → i = r.
Proof.
  intros Hu Hi Hr Heq.
  pose proof (get_image_by_path_unique db i Hu Hi) as H1.
  pose proof (get_image_by_path_unique db r Hu Hr) as H2.
  rewrite Heq in H1. congruence.
Qed.

Lemma elem_of_joined imgs fe fd :
  fd ∈ joined imgs fe ↔
  ∃ i, i ∈ imgs ∧ img_id i = image_id fe ∧ fd = join_row fe i.
Proof.
  unfold joined. rewrite list_elem_of_fmap. split.
  - intros (i & -> & Hi). apply list_elem_of_filter in Hi as [? ?]. eauto.
  - intros (i & Hi & Hid & ->). exists i. split; [done|].
    by apply list_elem_of_filter.
Qed.

Lemma elem_of_get_all_face_encodings db fd :
  fd ∈ get_all_face_encodings db ↔
  ∃ fe i, fe ∈ face_encodings db ∧ i ∈ images db
          ∧ img_id i = image_id fe ∧ fd = join_row fe i.
Proof.
  rewrite get_all_face_encodings_joined, list_elem_of_bind. split.
  - intros (fe & Hfd & Hfe). apply elem_of_joined in Hfd as (i & ? & ? & ?).
    eauto 10.
  - intros (fe & i & Hfe & Hi & Hid & ->). exists fe. split; [|done].
    apply elem_of_joined. eauto.
Qed.

Lemma filter_bind {A B} (P : B → Prop) `{!∀ x, Decision (P x)}
    (f : A → list B) (l : list A) :
  filter P (l ≫= f) = l ≫= (λ x, filter P (f x)).
Proof.
  induction l as [|x l IH]; [done|].
  by rewrite !bind_cons, filter_app, IH.
Qed.

Lemma bind_ext_elem {A B} (f g : A → list B) (l : list A) :
  (∀ x, x ∈ l → f x = g x) → l ≫= f = l ≫= g.
Proof.
  induction l as [|x l IH]; intros Hfg; [done|].
  rewrite !bind_cons, (Hfg x) by left.
  rewrite IH; [done|]. intros y Hy. apply Hfg. by right.
Qed.

Lemma bind_filter_none {A B} (P : A → Prop) `{!∀ x, Decision (P x)}
    (f : A → list B) (l : list A) :
  (∀ x, x ∈ l → ¬ P x → f x = []) → filter P l ≫= f = l ≫= f.
Proof.
  induction l as [|x l IH]; intros Hf; [done|].
  rewrite filter_cons, bind_cons.
  destruct (decide (P x)).
  - rewrite bind_cons, IH; [done|]. intros y Hy. apply Hf. by right.
  - rewrite (Hf x) by (done || left). rewrite IH; [done|].
    intros y Hy. apply Hf. by right.
Qed.

(** What a search can see after a delete: the rows of every other path,
    and nothing else. *)
Lemma delete_image_and_faces_visible db p :
  unique_paths db → unique_ids db →
  get_all_face_encodings (delete_image_and_faces db p).2
  = filter (λ fd, fd_file_path fd ≠ p) (get_all_face_encodings db).
Proof.
  intros Hp Hi. unfold delete_image_and_faces.
  destruct (head _) as [r|] eqn:Hhead; simpl.
  - apply get_image_by_path_Some in Hhead as [Hr Hrp].
    rewrite !get_all_face_encodings_joined. simpl.
    rewrite filter_bind.
    transitivity (filter (λ fe, image_id fe ≠ img_id r) (face_encodings db)
                    ≫= (λ fe, filter (λ fd, fd_file_path fd ≠ p)
                                (joined (images db) fe))).
    + apply bind_ext_elem. intros fe Hfe.
      apply list_elem_of_filter in Hfe as [Hne Hfe].
      rewrite (filter_all (λ fd, fd_file_path fd ≠ p) (joined (images db) fe)).
      * unfold joined. f_equal. rewrite list_filter_filter.
        apply list_filter_iff. intros i. split; [by intros [? _]|].
        intros Hid. split; [done|congruence].
      * intros fd Hfd. apply elem_of_joined in Hfd as (i & Hi' & Hid & ->).
        simpl. intros Hip. apply Hne. rewrite <- Hid. f_equal.
        apply (unique_paths_inj db); [done..|congruence].
    + apply bind_filter_none. intros fe Hfe Hid.
      apply dec_stable in Hid. apply filter_none.
      intros fd Hfd. apply elem_of_joined in Hfd as (i & Hi' & Hid' & ->).
      simpl. intros Hne. apply Hne.
      rewrite (unique_ids_inj db i r); [done..|congruence].
  - symmetry. apply filter_all. intros fd Hfd.
    apply elem_of_get_all_face_encodings in Hfd as (fe & i & _ & Hi' & _ & ->).
    simpl. by apply (proj1 (get_image_by_path_None db p)).
Qed.

(** X6. Deleting a path removes from what a search can see exactly the
    encodings of that path, leaves the record of every other path and the
    search folders as they were, and is idempotent. *)
Theorem delete_image_and_faces_frame db p :
  store_ok db →
  get_all_face_encodings (delete_image_and_faces db p).2
    = filter (λ fd, fd_file_path fd ≠ p) (get_all_face_encodings db)
  ∧ (∀ q, q ≠ p →
       get_image_by_path (delete_image_and_faces db p).2 q
       = get_image_by_path db q)
  ∧ (delete_image_and_faces (delete_image_and_faces db p).2 p).2
    = (delete_image_and_faces db p).2
  ∧ search_folders (delete_image_and_faces db p).2 = search_folders db.
Proof.
  intros (Hp & Hi & _ & _). split; [by apply delete_image_and_faces_visible|].
  split; [|split].
  - intros q Hq. unfold delete_image_and_faces.
    destruct (head _) as [r|] eqn:Hhead; [|done]. simpl.
    apply get_image_by_path_Some in Hhead as [Hr Hrp].
    unfold get_image_by_path. simpl. f_equal.
    rewrite list_filter_filter. apply filter_ext_elem.
    intros i Hi'. split; [by intros [? _]|]. intros Hiq. split; [done|].
    intros Hid. apply Hq. rewrite <- Hiq, <- Hrp. f_equal.
    by apply (unique_ids_inj db).
  - destruct (delete_image_and_faces_path_gone db p Hp) as [Hgone _].
    unfold get_image_by_path in Hgone.
    unfold delete_image_and_faces at 1. by rewrite Hgone.
  - unfold delete_image_and_faces. by destruct (head _).
Qed.

End RecordFacts.

Section IndexingFacts.
Import DatabaseManager PhotoManager FaceRecognitionEngine.

Variable detect : string → option (list Location * list Encoding).

(** The store after the upsert and the inserts of a processing pass. *)
Lemma index_image_processing fs db p n :
  nodes fs !! p = Some n → is_supported_image p = true →
  is_image_processed db p (st_mtime n) = false →
  index_image detect fs db p
  = (true,
     add_faces
       (add_image_record db p (PosixPath.basename p) (st_size n) (st_mtime n)
          (length (get_face_locations_and_encodings detect fs p).1.1)
          (PosixPath.dirname p)).2
       (next_rowid (images_seq db) (img_id <$> images db)) 0
       (detected detect fs p),
     [p]).
Proof.
  intros Hn Hsup Hp. unfold index_image.
  rewrite (path_exists_lookup _ _ _ Hn). cbn [negb].
  unfold OS.stat at 1. rewrite Hn, Hp.
  unfold process_image_for_faces, detected.
  rewrite Hsup, (path_exists_lookup _ _ _ Hn). cbn [negb].
  unfold get_face_locations_and_encodings, OS.stat. rewrite Hn.
  destruct (default _ _) as [locs encs]. simpl. done.
Qed.

(** The four ways [index_image] ends. *)
Lemma index_image_cases fs db p :
  (nodes fs !! p = None ∧ index_image detect fs db p = (false, db, []))
  ∨ (∃ n, nodes fs !! p = Some n
          ∧ is_image_processed db p (st_mtime n) = true
          ∧ index_image detect fs db p = (true, db, []))
  ∨ (∃ n, nodes fs !! p = Some n
          ∧ is_image_processed db p (st_mtime n) = false
          ∧ is_supported_image p = false
          ∧ index_image detect fs db p = (false, db, []))
  ∨ (∃ n, nodes fs !! p = Some n
          ∧ is_image_processed db p (st_mtime n) = false
          ∧ is_supported_image p = true
          ∧ index_image detect fs db p
            = (true,
               add_faces
                 (add_image_record db p (PosixPath.basename p) (st_size n)
                    (st_mtime n)
                    (length (get_face_locations_and_encodings detect fs p).1.1)
                    (PosixPath.dirname p)).2
                 (next_rowid (images_seq db) (img_id <$> images db)) 0
                 (detected detect fs p),
               [p])).
Proof.
  destruct (nodes fs !! p) as [n|] eqn:Hn.
  - right. destruct (is_image_processed db p (st_mtime n)) eqn:Hp.
    + left. exists n. repeat split; try done.
      unfold index_image. rewrite (path_exists_lookup _ _ _ Hn). simpl.
      unfold OS.stat. by rewrite Hn, Hp.
    + right. destruct (is_supported_image p) eqn:Hsup.
      * right. exists n. repeat split; try done.
        by apply index_image_processing.
      * left. exists n. repeat split; try done.
        unfold index_image. rewrite (path_exists_lookup _ _ _ Hn). simpl.
        unfold OS.stat. rewrite Hn, Hp.
        unfold process_image_for_faces. by rewrite Hsup.
  - left. split; [done|]. unfold index_image.
    by rewrite (proj2 (path_exists_false fs p) Hn).
Qed.

(** X7. [index_image] returns [False] exactly when the path does not exist,
    or when it is not up to date and its extension is not supported; in
    both cases the store is left as it was and the detector is not called.
    It returns [True] in every other case, whatever the detector does. *)
Theorem index_image_false_iff fs db p :
  ((index_image detect fs db p).1.1 = false ↔
     nodes fs !! p = None
     ∨ ∃ n, nodes fs !! p = Some n
            ∧ is_image_processed db p (st_mtime n) = false
            ∧ is_supported_image p = false)
  ∧ ((index_image detect fs db p).1.1 = false →
     index_image detect fs db p = (false, db, [])).
Proof.
  destruct (index_image_cases fs db p)
    as [[Hn ->]|[(n & Hn & Hp & ->)|[(n & Hn & Hp & Hs & ->)|(n & Hn & Hp & Hs & ->)]]];
    simpl.
  - split; [|done]. split; [by left|done].
  - split; [|done]. split; [done|].
    intros [?|(n' & Hn' & Hp' & _)]; congruence.
  - split; [|done]. split; [|done]. intros _. right. by exists n.
  - split; [|done]. split; [done|].
    intros [?|(n' & Hn' & _ & Hs')]; congruence.
Qed.

(** The rows [add_faces] appends: one per face, numbered from [i], all
    pointing at the image, with confidence 1. *)
Lemma add_faces_rows db image i faces :
  ∃ new,
    face_encodings (add_faces db image i faces)
      = (face_encodings db ++ new)%list
    ∧ Forall (λ fe, image_id fe = image) new
    ∧ Forall (λ fe, confidence_score fe = 1%Q) new
    ∧ face_facts <$> new = numbered i faces.
Proof.
  revert db i. induction faces as [|[loc enc] faces IH]; intros db i.
  - exists []. simpl. by rewrite app_nil_r.
  - destruct (IH (add_face_encoding db image i enc loc 1).2 (S i))
      as (new & Heq & Himg & Hconf & Hfacts).
    eexists (_ :: new). split; [|split; [|split]].
    + change (add_faces db image i ((loc, enc) :: faces))
        with (add_faces (add_face_encoding db image i enc loc 1).2
                image (S i) faces).
      rewrite Heq. simpl. rewrite <- app_assoc. reflexivity.
    + by constructor.
    + by constructor.
    + rewrite fmap_cons, Hfacts. done.
Qed.

Lemma add_faces_images_seq db image i faces :
  images_seq (add_faces db image i faces) = images_seq db.
Proof.
  revert db i. induction faces as [|[loc enc] faces IH]; intros db i;
    simpl; [done|]. by rewrite IH.
Qed.

Lemma store_ok_add_faces db image i faces :
  store_ok db → (image ≤ images_seq db)%nat →
  store_ok (add_faces db image i faces).
Proof.
  revert db i. induction faces as [|[loc enc] faces IH]; intros db i Hok Hle;
    simpl; [done|].
  apply IH; [by apply store_ok_add_face_encoding|done].
Qed.

Lemma store_ok_index_image fs db p :
  store_ok db → store_ok (index_image detect fs db p).1.2.
Proof.
  intros Hok.
  destruct (index_image_cases fs db p)
    as [[Hn ->]|[(n & Hn & Hp & ->)|[(n & Hn & Hp & Hs & ->)|(n & Hn & Hp & Hs & ->)]]];
    simpl; try done.
  apply store_ok_add_faces; [by apply store_ok_add_image_record|].
  simpl. done.
Qed.

Lemma joined_app imgs1 imgs2 fe :
  joined (imgs1 ++ imgs2) fe = (joined imgs1 fe ++ joined imgs2 fe)%list.
Proof. unfold joined. by rewrite filter_app, fmap_app. Qed.

Lemma joined_filter_path imgs fe p :
  joined (filter (λ r, file_path r ≠ p) imgs) fe
  = filter (λ fd, fd_file_path fd ≠ p) (joined imgs fe).
Proof.
  unfold joined. induction imgs as [|i l IH]; [done|].
  rewrite (filter_cons (λ r, file_path r ≠ p)),
          (filter_cons (λ i, img_id i = image_id fe) i l).
  destruct (decide (file_path i ≠ p)) as [Hp|Hp];
    destruct (decide (img_id i = image_id fe)) as [Hi|Hi].
  - rewrite filter_cons, decide_True by done.
    rewrite !fmap_cons, filter_cons, decide_True by done. by rewrite IH.
  - rewrite filter_cons, decide_False by done. done.
  - rewrite fmap_cons, filter_cons, decide_False by done. done.
  - done.
Qed.

(** What a search can see after a processing pass: what it saw of the
    other paths, followed by the new rows joined with the new record. *)
Lemma processing_pass_visible db p name size m count folder faces :
  store_ok db →
  let id := next_rowid (images_seq db) (img_id <$> images db) in
  let row := {| img_id := id; file_path := p; file_name := name;
                file_size := size; modification_time := m;
                face_count := count; folder_path := folder |} in
  let db' := add_faces (add_image_record db p name size m count folder).2
               id 0 faces in
  ∃ new,
    face_encodings db' = (face_encodings db ++ new)%list
    ∧ Forall (λ fe, image_id fe = id) new
    ∧ face_facts <$> new = numbered 0 faces
    ∧ get_all_face_encodings db'
      = (filter (λ fd, fd_file_path fd ≠ p) (get_all_face_encodings db)
         ++ ((λ fe, join_row fe row) <$> new))%list.
Proof.
  intros (Hp & Hi & Hseq & Hfe) id row db'.
  destruct (next_rowid_fresh (images_seq db) (img_id <$> images db))
    as [Hgt Hfresh]. fold id in Hgt, Hfresh.
  destruct (add_faces_rows (add_image_record db p name size m count folder).2
              id 0 faces) as (new & Heq & Himg & _ & Hfacts).
  exists new. split; [exact Heq|]. split; [exact Himg|]. split; [exact Hfacts|].
  rewrite !get_all_face_encodings_joined. fold db' in Heq. rewrite Heq.
  unfold db'. rewrite add_faces_images. simpl.
  rewrite bind_app. f_equal.
  - rewrite filter_bind. apply bind_ext_elem. intros fe Hfe'.
    rewrite Forall_forall in Hfe. specialize (Hfe fe Hfe').
    rewrite joined_app, joined_filter_path.
    unfold joined at 2.
    rewrite (filter_cons _ _ []), decide_False by (simpl; lia).
    by rewrite filter_nil, app_nil_r.
  - clear Heq Hfacts. induction Himg as [|fe new Hid Himg IH]; [done|].
    rewrite bind_cons, fmap_cons, IH. f_equal.
    unfold joined. rewrite filter_app.
    rewrite filter_none.
    + rewrite (filter_cons _ _ []), decide_True by (simpl; by rewrite Hid).
      done.
    + intros i Hi' Hid'. apply list_elem_of_filter in Hi' as [_ Hi'].
      assert (img_id i < id)%nat by (apply Hfresh; by apply list_elem_of_fmap_2).
      lia.
Qed.

End IndexingFacts.

Section PassFacts.
Import DatabaseManager PhotoManager FaceRecognitionEngine.

Variable detect : string → option (list Location * list Encoding).

Lemma numbered_length i faces : length (numbered i faces) = length faces.
Proof.
  revert i. induction faces as [|[loc enc] faces IH]; intros i; simpl; [done|].
  by rewrite IH.
Qed.

Lemma filter_path_split (l1 l2 : list FaceData) p q :
  (∀ fd, fd ∈ l2 → fd_file_path fd = p) →
  filter (λ fd, fd_file_path fd = q)
    (filter (λ fd, fd_file_path fd ≠ p) l1 ++ l2)%list
  = if decide (q = p) then l2
    else filter (λ fd, fd_file_path fd = q) l1.
Proof.
  intros Hl2. rewrite filter_app, list_filter_filter.
  destruct (decide (q = p)) as [->|Hne].
  - rewrite filter_none by (by intros fd _ [? ?]).
    rewrite filter_all by done. done.
  - rewrite (filter_none _ l2).
    + rewrite app_nil_r. apply list_filter_iff. intros fd.
      split; [by intros [? _]|]. intros Hq. split; [done|congruence].
    + intros fd Hfd Hq. apply Hl2 in Hfd. congruence.
Qed.

(** X8. A processing pass over a supported file that is not up to date
    succeeds; the path is then found with the file's name, size, time and
    folder and with [face_count] the number of regions, and what a search
    sees for the path is exactly the pass's faces, numbered from 0 in the
    order detected, as many as the shorter of the two lists the detector
    returned. *)
Theorem index_image_writes_pass fs db p n :
  store_ok db → nodes fs !! p = Some n → is_supported_image p = true →
  is_image_processed db p (st_mtime n) = false →
  (index_image detect fs db p).1.1 = true
  ∧ (∃ id,
       get_image_by_path (index_image detect fs db p).1.2 p
       = Some {| img_id := id; file_path := p;
                 file_name := PosixPath.basename p; file_size := st_size n;
                 modification_time := st_mtime n;
                 face_count :=
                   length (get_face_locations_and_encodings detect fs p).1.1;
                 folder_path := PosixPath.dirname p |})
  ∧ (joined_facts <$> visible_at (index_image detect fs db p).1.2 p)
    = numbered 0 (detected detect fs p)
  ∧ length (visible_at (index_image detect fs db p).1.2 p)
    = (length (get_face_locations_and_encodings detect fs p).1.1
       `min` length (get_face_locations_and_encodings detect fs p).1.2)%nat.
Proof.
  intros Hok Hn Hsup Hp.
  rewrite (index_image_processing detect fs db p n Hn Hsup Hp). cbn [fst snd].
  set (count := length (get_face_locations_and_encodings detect fs p).1.1).
  destruct (processing_pass_visible db p (PosixPath.basename p) (st_size n)
              (st_mtime n) count (PosixPath.dirname p) (detected detect fs p) Hok)
    as (new & Hrows & Himg & Hfacts & Hall).
  assert (joined_facts <$>
            visible_at
              (add_faces
                 (add_image_record db p (PosixPath.basename p) (st_size n)
                    (st_mtime n) count (PosixPath.dirname p)).2
                 (next_rowid (images_seq db) (img_id <$> images db)) 0
                 (detected detect fs p)) p
          = numbered 0 (detected detect fs p)) as Hvis.
  { unfold visible_at. rewrite Hall, filter_path_split.
    - rewrite decide_True by done. rewrite <- list_fmap_compose.
      rewrite <- Hfacts. by apply list_fmap_ext.
    - intros fd Hfd. by apply list_elem_of_fmap in Hfd as (fe & -> & _). }
  split; [done|]. split; [|split].
  - destruct (add_image_record_lookup db p (PosixPath.basename p) (st_size n)
                (st_mtime n) count (PosixPath.dirname p)) as (id & _ & Hget).
    exists id. unfold get_image_by_path in *. by rewrite add_faces_images.
  - exact Hvis.
  - apply (f_equal length) in Hvis.
    rewrite length_fmap, numbered_length in Hvis. rewrite Hvis.
    unfold detected.
    destruct (get_face_locations_and_encodings detect fs p).1 as [locs encs].
    apply length_zip_with.
Qed.

(** X9. Indexing one path leaves the record of every other path, what a
    search sees of every other path, and the search folders as they were. *)
Theorem index_image_frame fs db p :
  store_ok db →
  (∀ q, q ≠ p →
     get_image_by_path (index_image detect fs db p).1.2 q
       = get_image_by_path db q
     ∧ visible_at (index_image detect fs db p).1.2 q = visible_at db q)
  ∧ search_folders (index_image detect fs db p).1.2 = search_folders db.
Proof.
  intros Hok.
  destruct (index_image_cases detect fs db p)
    as [[Hn ->]|[(n & Hn & Hp & ->)|[(n & Hn & Hp & Hs & ->)|(n & Hn & Hp & Hs & ->)]]];
    cbn [fst snd]; try done.
  set (count := length (get_face_locations_and_encodings detect fs p).1.1).
  split; [|by rewrite add_faces_search_folders].
  intros q Hq. split.
  - unfold get_image_by_path. rewrite add_faces_images.
    by apply (add_image_record_other db p).
  - destruct (processing_pass_visible db p (PosixPath.basename p) (st_size n)
                (st_mtime n) count (PosixPath.dirname p) (detected detect fs p)
                Hok) as (new & _ & _ & _ & Hall).
    unfold visible_at. rewrite Hall, filter_path_split.
    + by rewrite decide_False.
    + intros fd Hfd. by apply list_elem_of_fmap in Hfd as (fe & -> & _).
Qed.

Lemma order_by_face_index_numbered (l : list FaceRow) i faces :
  face_facts <$> l = numbered i faces → order_by_face_index l = l.
Proof.
  revert i faces. induction l as [|x l IH]; intros i faces Hl; [done|].
  destruct faces as [|[loc enc] faces]; [done|].
  rewrite fmap_cons in Hl. simpl in Hl.
  apply (inj2 cons) in Hl as [Hx Hl].
  simpl. rewrite (IH _ _ Hl).
  destruct l as [|y l]; [done|].
  destruct faces as [|[loc' enc'] faces]; [done|].
  rewrite fmap_cons in Hl. simpl in Hl.
  apply (inj2 cons) in Hl as [Hy _].
  assert (face_index x = i) as Hxi by (unfold face_facts in Hx; congruence).
  assert (face_index y = S i) as Hyi by (unfold face_facts in Hy; congruence).
  simpl. rewrite Hxi, Hyi.
  by rewrite (proj2 (Nat.leb_le i (S i))) by lia.
Qed.

(** X5. After a processing pass, [get_face_encodings_by_image] for the id
    of the new record returns the pass's faces in the order detected, each
    with its index, region and encoding as handed in. *)
Theorem get_face_encodings_by_image_round_trip fs db p n :
  store_ok db → nodes fs !! p = Some n → is_supported_image p = true →
  is_image_processed db p (st_mtime n) = false →
  ∃ row,
    get_image_by_path (index_image detect fs db p).1.2 p = Some row
    ∧ (face_facts <$>
         get_face_encodings_by_image (index_image detect fs db p).1.2
           (img_id row))
      = numbered 0 (detected detect fs p)
    ∧ Forall (λ fe, image_id fe = img_id row)
        (get_face_encodings_by_image (index_image detect fs db p).1.2
           (img_id row)).
Proof.
  intros Hok Hn Hsup Hp.
  rewrite (index_image_processing detect fs db p n Hn Hsup Hp). cbn [fst snd].
  set (count := length (get_face_locations_and_encodings detect fs p).1.1).
  destruct (processing_pass_visible db p (PosixPath.basename p) (st_size n)
              (st_mtime n) count (PosixPath.dirname p) (detected detect fs p) Hok)
    as (new & Hrows & Himg & Hfacts & _).
  destruct (add_image_record_lookup db p (PosixPath.basename p) (st_size n)
              (st_mtime n) count (PosixPath.dirname p)) as (id & Hid & Hget).
  injection Hid as <-.
  eexists. split.
  { unfold get_image_by_path in *. rewrite add_faces_images. exact Hget. }
  cbn [img_id]. unfold get_face_encodings_by_image. rewrite Hrows, filter_app.
  destruct Hok as (_ & _ & _ & Hfe).
  destruct (next_rowid_fresh (images_seq db) (img_id <$> images db))
    as [Hgt _].
  rewrite filter_none.
  - rewrite filter_all by (by apply Forall_forall). rewrite app_nil_l.
    rewrite (order_by_face_index_numbered new 0 (detected detect fs p) Hfacts).
    done.
  - intros fe Hin Hid. rewrite Forall_forall in Hfe.
    specialize (Hfe fe Hin). lia.
Qed.

End PassFacts.

Section SearchMore.
Import DatabaseManager PhotoManager.

Variable lib : Encoding → list Encoding → option (list Q).

(** Every result was appended by the loop for a joined row that passed the
    folder check. *)
Lemma search_elem db q tol ms restrict m :
  m ∈ search_similar_faces lib db q tol ms restrict →
  ∃ fd d, fd ∈ get_all_face_encodings db
          ∧ skipped restrict (current_folders db restrict) fd = false
          ∧ row_distance lib q fd = Some d
          ∧ qualifies tol ms d = true ∧ m = make_match fd d.
Proof.
  rewrite search_unfold. case_bool_decide.
  { intros Hm. by apply not_elem_of_nil in Hm. }
  destruct (scan _ _ _ _ _ _ _) as [matches|] eqn:Hscan.
  2:{ intros Hm. by apply not_elem_of_nil in Hm. }
  rewrite sort_by_similarity_perm. intros Hm.
  by apply (scan_elem lib _ _ _ _ _ _ _ _ Hscan Hm).
Qed.

(** X13. Whatever the metric does, every result of a search meets both
    thresholds, has similarity [1 - distance], and carries the path and name
    of an image row of the store together with the index and region of an
    encoding row that points at that image. *)
Theorem search_results_sound db q tol ms restrict m :
  m ∈ search_similar_faces lib db q tol ms restrict →
  (m_distance m <= tol)%Q ∧ (ms <= m_similarity m)%Q
  ∧ m_similarity m = (1 - m_distance m)%Q
  ∧ ∃ fe i, fe ∈ face_encodings db ∧ i ∈ images db
            ∧ img_id i = image_id fe
            ∧ row_distance lib q (join_row fe i) = Some (m_distance m)
            ∧ m_file_path m = file_path i ∧ m_file_name m = file_name i
            ∧ m_face_index m = face_index fe
            ∧ m_face_location m = face_location fe.
Proof.
  intros Hm. apply search_elem in Hm as (fd & d & Hfd & _ & Hd & Hq & ->).
  apply qualifies_iff in Hq as [Htol Hms]. simpl.
  split; [done|]. split; [done|]. split; [done|].
  apply elem_of_get_all_face_encodings in Hfd as (fe & i & Hfe & Hi & Hid & ->).
  exists fe, i. repeat split; done.
Qed.

(** X15. After [delete_image_and_faces] on a path, no search returns a
    result for that path. *)
Theorem search_after_delete db p q tol ms restrict m :
  unique_paths db →
  m ∈ search_similar_faces lib (delete_image_and_faces db p).2 q tol ms restrict →
  m_file_path m ≠ p.
Proof.
  intros Hu Hm. apply search_elem in Hm as (fd & d & Hfd & _ & _ & _ & ->).
  simpl. by apply (delete_image_and_faces_path_gone db p Hu).
Qed.

Lemma qualifies_mono tol tol' ms ms' d :
  (tol' <= tol)%Q → (ms <= ms')%Q →
  qualifies tol' ms' d = true → qualifies tol ms d = true.
Proof.
  rewrite !qualifies_iff. intros H1 H2 [H3 H4]. split; lra.
Qed.

(** Stricter thresholds select a sublist of what the loop appends, and
    change nothing about whether the loop raises. *)
Lemma scan_mono q tol tol' ms ms' r f rows :
  (tol' <= tol)%Q → (ms <= ms')%Q →
  match scan lib q tol ms r f rows, scan lib q tol' ms' r f rows with
  | Some a, Some b => b `sublist_of` a
  | None, None => True
  | _, _ => False
  end.
Proof.
  intros Htol Hms. induction rows as [|fd rows IH]; simpl; [constructor|].
  destruct (skipped r f fd); [exact IH|].
  destruct (row_distance lib q fd) as [d|]; simpl; [|done].
  destruct (scan lib q tol ms r f rows) as [a|],
           (scan lib q tol' ms' r f rows) as [b|]; simpl; try done.
  destruct (qualifies tol' ms' d) eqn:Hq'.
  - rewrite (qualifies_mono tol tol' ms ms' d Htol Hms Hq').
    by apply sublist_skip.
  - destruct (qualifies tol ms d); [by apply sublist_cons|done].
Qed.

(** X12. Lowering the tolerance or raising the similarity floor never adds
    a result: every result of the stricter search is a result of the looser
    one, and the stricter search returns no more results. *)
Theorem search_thresholds_monotone db q tol tol' ms ms' restrict :
  (tol' <= tol)%Q → (ms <= ms')%Q →
  (∀ m, m ∈ search_similar_faces lib db q tol' ms' restrict →
        m ∈ search_similar_faces lib db q tol ms restrict)
  ∧ (length (search_similar_faces lib db q tol' ms' restrict)
     ≤ length (search_similar_faces lib db q tol ms restrict))%nat.
Proof.
  intros Htol Hms. rewrite !search_unfold.
  case_bool_decide; [done|].
  pose proof (scan_mono q tol tol' ms ms' restrict
                (current_folders db restrict) (get_all_face_encodings db)
                Htol Hms) as Hsub.
  destruct (scan lib q tol ms _ _ _) as [a|],
           (scan lib q tol' ms' _ _ _) as [b|]; try done.
  split.
  - intros m. rewrite !sort_by_similarity_perm. intros Hm.
    by eapply elem_of_sublist.
  - rewrite !sort_by_similarity_perm. by apply sublist_length.
Qed.

Lemma insert_desc_filter (c : Q) x l :
  filter (λ m, (m_similarity m == c)%Q) (insert_desc x l)
  = filter (λ m, (m_similarity m == c)%Q) (x :: l).
Proof.
  induction l as [|y l IH]; [done|]. simpl.
  destruct (Qle_bool (m_similarity y) (m_similarity x)) eqn:Hle; [done|].
  rewrite filter_cons, IH, !filter_cons.
  destruct (decide (m_similarity y == c)%Q) as [Hy|Hy];
    destruct (decide (m_similarity x == c)%Q) as [Hx|Hx]; try done.
  exfalso.
  assert (Qle_bool (m_similarity y) (m_similarity x) = true); [|congruence].
  apply Qle_bool_iff. rewrite Hx, Hy. lra.
Qed.

Lemma sort_by_similarity_stable (c : Q) l :
  filter (λ m, (m_similarity m == c)%Q) (sort_by_similarity l)
  = filter (λ m, (m_similarity m == c)%Q) l.
Proof.
  induction l as [|x l IH]; [done|]. simpl.
  rewrite insert_desc_filter, !filter_cons, IH. done.
Qed.

(** X14. Results of equal similarity come back in the order in which
    [get_all_face_encodings] lists their rows. *)
Theorem search_ties_keep_table_order db q tol ms restrict
    (dist : FaceData → Q) (c : Q) :
  (∀ fd, fd ∈ in_scope db restrict → row_distance lib q fd = Some (dist fd)) →
  filter (λ m, (m_similarity m == c)%Q)
    (search_similar_faces lib db q tol ms restrict)
  = (λ fd, make_match fd (dist fd)) <$>
      filter (λ fd, ((dist fd <= tol)%Q ∧ (ms <= 1 - dist fd)%Q)
                    ∧ (1 - dist fd == c)%Q)
             (in_scope db restrict).
Proof.
  intros Hd. rewrite search_unfold. unfold in_scope in *.
  case_bool_decide as Hnil.
  { rewrite Hnil. done. }
  rewrite (scan_defined lib q tol ms restrict _ _ dist).
  2:{ intros fd Hin Hsk. apply Hd. by apply list_elem_of_filter. }
  rewrite sort_by_similarity_stable.
  set (scope := filter _ (get_all_face_encodings db)).
  transitivity ((λ fd, make_match fd (dist fd)) <$>
                  filter (λ fd, (1 - dist fd == c)%Q)
                    (filter (λ fd, (dist fd <= tol)%Q ∧ (ms <= 1 - dist fd)%Q)
                       scope)).
  - induction (filter _ scope) as [|fd l IH]; [done|].
    rewrite fmap_cons, !filter_cons. simpl.
    destruct (decide (1 - dist fd == c)%Q); by rewrite ?fmap_cons, IH.
  - f_equal. rewrite list_filter_filter. apply list_filter_iff.
    intros fd. tauto.
Qed.

End SearchMore.

Section BatchFacts.
Import DatabaseManager PhotoManager FaceRecognitionEngine.

Variable detect : string → option (list Location * list Encoding).

Lemma is_image_processed_other fs db p q m :
  q ≠ p →
  is_image_processed (index_image detect fs db p).1.2 q m
  = is_image_processed db q m.
Proof.
  intros Hq. unfold is_image_processed.
  destruct (index_image_cases detect fs db p)
    as [[Hn ->]|[(n & Hn & Hp & ->)|[(n & Hn & Hp & Hs & ->)|(n & Hn & Hp & Hs & ->)]]];
    cbn [fst snd]; try done.
  unfold get_image_by_path. rewrite add_faces_images.
  fold (get_image_by_path
          (add_image_record db p (PosixPath.basename p) (st_size n) (st_mtime n)
             (length (get_face_locations_and_encodings detect fs p).1.1)
             (PosixPath.dirname p)).2 q).
  by rewrite add_image_record_other.
Qed.

Lemma indexes_iff fs db p :
  indexes detect fs db p = true ↔
  ∃ n, nodes fs !! p = Some n
       ∧ (is_image_processed db p (st_mtime n) = true
          ∨ is_supported_image p = true).
Proof.
  unfold indexes.
  destruct (index_image_cases detect fs db p)
    as [[Hn ->]|[(n & Hn & Hp & ->)|[(n & Hn & Hp & Hs & ->)|(n & Hn & Hp & Hs & ->)]]];
    cbn [fst snd].
  - split; [done|]. intros (n & Hn' & _). congruence.
  - split; [|done]. intros _. exists n. auto.
  - split; [done|]. intros (n' & Hn' & [Hp'|Hs']); congruence.
  - split; [|done]. intros _. exists n. auto.
Qed.

(** The answer for a path does not depend on which other calls came
    before. *)
Lemma indexes_stable fs db q p :
  indexes detect fs (index_image detect fs db q).1.2 p = indexes detect fs db p.
Proof.
  apply Bool.eq_iff_eq_true. rewrite !indexes_iff.
  destruct (decide (p = q)) as [->|Hne].
  - destruct (index_image_cases detect fs db q)
      as [[Hn ->]|[(n & Hn & Hp & ->)|[(n & Hn & Hp & Hs & ->)|(n & Hn & Hp & Hs & ->)]]];
      cbn [fst snd]; try reflexivity.
    split; intros _; exists n; auto.
  - split; intros (n & Hn & H); exists n; (split; [done|]).
    + by rewrite is_image_processed_other in H.
    + by rewrite is_image_processed_other.
Qed.

Lemma index_image_settles fs db p :
  settled detect fs (index_image detect fs db p).1.2 p.
Proof.
  intros Hidx. rewrite indexes_stable in Hidx. unfold indexes in Hidx.
  destruct (index_image_cases detect fs db p)
    as [[Hn Heq]|[(n & Hn & Hp & Heq)|[(n & Hn & Hp & Hs & Heq)|(n & Hn & Hp & Hs & Heq)]]];
    rewrite Heq in *; cbn [fst snd] in *; try done.
  - by exists n.
  - exists n. split; [done|].
    destruct (add_image_record_lookup db p (PosixPath.basename p) (st_size n)
                (st_mtime n)
                (length (get_face_locations_and_encodings detect fs p).1.1)
                (PosixPath.dirname p)) as (id & _ & Hget).
    unfold is_image_processed, get_image_by_path in *.
    rewrite add_faces_images, Hget. apply Qle_bool_refl.
Qed.

Lemma settled_noop fs db p :
  settled detect fs db p →
  index_image detect fs db p = (indexes detect fs db p, db, []).
Proof.
  intros Hs. unfold settled, indexes in *.
  destruct (index_image_cases detect fs db p)
    as [[Hn Heq]|[(n & Hn & Hp & Heq)|[(n & Hn & Hp & Hsup & Heq)|(n & Hn & Hp & Hsup & Heq)]]];
    rewrite Heq in *; cbn [fst snd] in *; try done.
  destruct (Hs eq_refl) as (n' & Hn' & Hp'). congruence.
Qed.

Lemma settled_preserved fs db q p :
  settled detect fs db p →
  settled detect fs (index_image detect fs db q).1.2 p.
Proof.
  intros Hs Hidx. rewrite indexes_stable in Hidx.
  destruct (Hs Hidx) as (n & Hn & Hp). exists n. split; [done|].
  destruct (decide (p = q)) as [->|Hne].
  - by rewrite (settled_noop fs db q Hs).
  - by rewrite is_image_processed_other.
Qed.

Lemma filter_bool_lengths {A} (f : A → bool) (l : list A) :
  (length (filter (λ x, f x = true) l) + length (filter (λ x, f x = false) l)
   = length l)%nat.
Proof.
  induction l as [|x l IH]; [done|].
  rewrite !filter_cons. destruct (f x); simpl; lia.
Qed.

(** A first run: the tally counts the answers the initial store gives, and
    every listed path ends up settled. *)
Lemma batch_loop_spec fs db paths s f pr c :
  ∃ db' c',
    batch_loop detect fs db paths s f pr c
    = ((s + length (filter (λ p, indexes detect fs db p = true) paths))%nat,
       (f + length (filter (λ p, indexes detect fs db p = false) paths))%nat,
       (pr + length paths)%nat, db', c')
    ∧ (∀ p, indexes detect fs db' p = indexes detect fs db p)
    ∧ (∀ p, settled detect fs db p → settled detect fs db' p)
    ∧ (∀ p, p ∈ paths → settled detect fs db' p)
    ∧ (store_ok db → store_ok db')
    ∧ search_folders db' = search_folders db.
Proof.
  revert db s f pr c. induction paths as [|p paths IH]; intros db s f pr c.
  - exists db, c. simpl. rewrite !Nat.add_0_r. split; [done|].
    split; [done|]. split; [done|]. split; [|done].
    intros p Hp. by apply not_elem_of_nil in Hp.
  - simpl.
    pose proof (index_image_settles fs db p) as Hsettle.
    pose proof (store_ok_index_image detect fs db p) as Hok.
    assert (search_folders (index_image detect fs db p).1.2 = search_folders db)
      as Hsf.
    { destruct (index_image_cases detect fs db p)
        as [[Hn ->]|[(n & Hn & Hp & ->)|[(n & Hn & Hp & Hs & ->)|(n & Hn & Hp & Hs & ->)]]];
        cbn [fst snd]; try done. by rewrite add_faces_search_folders. }
    pose proof (λ x, indexes_stable fs db p x) as Hstab.
    pose proof (λ x, settled_preserved fs db p x) as Hpres.
    assert (indexes detect fs db p = (index_image detect fs db p).1.1) as Hr
      by done.
    destruct (index_image detect fs db p) as [[r db1] c1] eqn:Hidx.
    cbn [fst snd] in *.
    rewrite !filter_cons, Hr.
    assert (∀ b, filter (λ x, indexes detect fs db1 x = b) paths
                 = filter (λ x, indexes detect fs db x = b) paths) as Hfil.
    { intros b. apply list_filter_iff. intros x. by rewrite Hstab. }
    destruct r.
    + destruct (IH db1 (S s) f (S pr) (c ++ c1)%list)
        as (db' & c' & Heq & Hi & Hs & Hall & Hok' & Hsf').
      exists db', c'. rewrite Heq, !Hfil.
      rewrite decide_True by done. rewrite decide_False by discriminate.
      simpl. split; [repeat f_equal; lia|].
      split; [intros x; by rewrite Hi, Hstab|].
      split; [intros x Hx; by apply Hs, Hpres|].
      split; [|split; [auto|congruence]].
      intros x Hx. apply elem_of_cons in Hx as [->|Hx]; [by apply Hs|by apply Hall].
    + destruct (IH db1 s (S f) (S pr) (c ++ c1)%list)
        as (db' & c' & Heq & Hi & Hs & Hall & Hok' & Hsf').
      exists db', c'. rewrite Heq, !Hfil.
      rewrite decide_False by discriminate. rewrite decide_True by done.
      simpl. split; [repeat f_equal; lia|].
      split; [intros x; by rewrite Hi, Hstab|].
      split; [intros x Hx; by apply Hs, Hpres|].
      split; [|split; [auto|congruence]].
      intros x Hx. apply elem_of_cons in Hx as [->|Hx]; [by apply Hs|by apply Hall].
Qed.

(** A run over settled paths writes nothing and calls nothing. *)
Lemma batch_loop_settled fs db paths s f pr c :
  (∀ p, p ∈ paths → settled detect fs db p) →
  batch_loop detect fs db paths s f pr c
  = ((s + length (filter (λ p, indexes detect fs db p = true) paths))%nat,
     (f + length (filter (λ p, indexes detect fs db p = false) paths))%nat,
     (pr + length paths)%nat, db, c).
Proof.
  revert s f pr c. induction paths as [|p paths IH]; intros s f pr c Hall.
  - simpl. by rewrite !Nat.add_0_r.
  - simpl. rewrite (settled_noop fs db p) by (apply Hall; left).
    rewrite !filter_cons.
    destruct (indexes detect fs db p) eqn:Hr.
    + rewrite decide_True by done. rewrite decide_False by discriminate.
      rewrite IH by (intros x Hx; apply Hall; by right).
      rewrite app_nil_r. simpl. repeat f_equal; lia.
    + rewrite decide_False by discriminate. rewrite decide_True by done.
      rewrite IH by (intros x Hx; apply Hall; by right).
      rewrite app_nil_r. simpl. repeat f_equal; lia.
Qed.

(** X10. The dictionary of a batch run by one worker: [total] is the number
    of paths handed in, [successful + failed = total = progress], and
    [failed] counts the listed paths on which [index_image] answers [False]
    in the store as it was before the run, wherever they stand in the
    list. *)
Theorem index_images_batch_counters fs db paths :
  let r := (index_images_batch detect fs db paths).1.1 in
  bt_total r = length paths
  ∧ (bt_successful r + bt_failed r = bt_total r)%nat
  ∧ bt_progress r = bt_total r
  ∧ bt_successful r
    = length (filter (λ p, indexes detect fs db p = true) paths)
  ∧ bt_failed r
    = length (filter (λ p, indexes detect fs db p = false) paths).
Proof.
  unfold index_images_batch.
  destruct (batch_loop_spec fs db paths 0 0 0 []) as (db' & c' & -> & _).
  simpl. pose proof (filter_bool_lengths (indexes detect fs db) paths).
  repeat split; lia.
Qed.

(** X11. Running the same batch again over the same files returns the same
    dictionary, leaves the store as the first run left it and hands nothing
    to the detector. *)
Theorem index_images_batch_rerun fs db paths :
  index_images_batch detect fs
    (index_images_batch detect fs db paths).1.2 paths
  = ((index_images_batch detect fs db paths).1.1,
     (index_images_batch detect fs db paths).1.2, []).
Proof.
  unfold index_images_batch.
  destruct (batch_loop_spec fs db paths 0 0 0 [])
    as (db' & c' & -> & Hi & _ & Hall & _).
  cbn [fst snd]. rewrite (batch_loop_settled fs db' paths 0 0 0 [] Hall).
  repeat f_equal; apply list_filter_iff; intros x; by rewrite Hi.
Qed.

End BatchFacts.

Section CleanupFacts.
Import DatabaseManager PhotoManager.

Lemma delete_image_and_faces_images db p i :
  unique_paths db → unique_ids db →
  i ∈ images (delete_image_and_faces db p).2 ↔ i ∈ images db ∧ file_path i ≠ p.
Proof.
  intros Hp Hi. unfold delete_image_and_faces.
  destruct (head _) as [r|] eqn:Hhead; simpl.
  - apply get_image_by_path_Some in Hhead as [Hr Hrp].
    rewrite list_elem_of_filter. split.
    + intros [Hne Hin]. split; [done|]. intros Hip. apply Hne. f_equal.
      apply (unique_paths_inj db); [done..|congruence].
    + intros [Hin Hne]. split; [|done]. intros Hid. apply Hne.
      rewrite (unique_ids_inj db i r); done.
  - split; [|by intros [? _]]. intros Hin. split; [done|].
    by apply (proj1 (get_image_by_path_None db p)).
Qed.

Lemma delete_image_and_faces_other db p q :
  unique_ids db → q ≠ p →
  get_image_by_path (delete_image_and_faces db p).2 q = get_image_by_path db q.
Proof.
  intros Hi Hq. unfold delete_image_and_faces.
  destruct (head _) as [r|] eqn:Hhead; [|done]. simpl.
  apply get_image_by_path_Some in Hhead as [Hr Hrp].
  unfold get_image_by_path. simpl. f_equal.
  rewrite list_filter_filter. apply filter_ext_elem.
  intros i Hi'. split; [by intros [? _]|]. intros Hiq. split; [done|].
  intros Hid. apply Hq. rewrite <- Hiq, <- Hrp. f_equal.
  by apply (unique_ids_inj db).
Qed.

(** The loop deletes the paths of the missing rows it is handed: what a
    search sees afterwards, which image rows are left, and the count. *)
Lemma cleanup_loop_spec fs db rows k :
  store_ok db →
  let gone := fd_file_path <$>
                filter (λ fd, OS.path_exists fs (fd_file_path fd) = false) rows in
  (cleanup_loop fs db rows k).1 = (k + length gone)%nat
  ∧ store_ok (cleanup_loop fs db rows k).2
  ∧ get_all_face_encodings (cleanup_loop fs db rows k).2
    = filter (λ fd, fd_file_path fd ∉ gone) (get_all_face_encodings db)
  ∧ (∀ i, i ∈ images (cleanup_loop fs db rows k).2 ↔
          i ∈ images db ∧ file_path i ∉ gone)
  ∧ search_folders (cleanup_loop fs db rows k).2 = search_folders db.
Proof.
  revert db k. induction rows as [|fd rows IH]; intros db k Hok; cbv zeta.
  - simpl. split; [lia|]. split; [done|]. split.
    + symmetry. apply filter_all. intros x _. apply not_elem_of_nil.
    + split; [|done]. intros i. split; [|by intros [? _]].
      intros Hi. split; [done|]. apply not_elem_of_nil.
  - cbn [cleanup_loop]. rewrite filter_cons.
    destruct (OS.path_exists fs (fd_file_path fd)) eqn:Hex; cbn [negb].
    + rewrite decide_False by discriminate. by apply IH.
    + rewrite decide_True by done. rewrite fmap_cons.
      pose proof (store_ok_delete_image_and_faces db (fd_file_path fd) Hok)
        as Hok'.
      destruct (IH (delete_image_and_faces db (fd_file_path fd)).2 (S k) Hok')
        as (Hk & Hok'' & Hvis & Himg & Hsf).
      destruct Hok as (Hp & Hi & _).
      split; [simpl in *; lia|]. split; [done|]. split; [|split].
      * rewrite Hvis, delete_image_and_faces_visible by done.
        rewrite list_filter_filter. apply list_filter_iff. intros x.
        rewrite not_elem_of_cons. tauto.
      * intros i. rewrite Himg, delete_image_and_faces_images by done.
        rewrite not_elem_of_cons. tauto.
      * rewrite Hsf. unfold delete_image_and_faces. by destruct (head _).
Qed.

(** X18. After [cleanup_database] a search sees exactly the encodings it
    saw before whose file still exists, in the same order; the number
    returned is the number of encodings dropped from view (an image with
    two faces counts twice); search folders are untouched. *)
Theorem cleanup_database_visible fs db :
  store_ok db →
  get_all_face_encodings (cleanup_database fs db).2
    = filter (λ fd, OS.path_exists fs (fd_file_path fd) = true)
             (get_all_face_encodings db)
  ∧ (cleanup_database fs db).1
    = length (filter (λ fd, OS.path_exists fs (fd_file_path fd) = false)
                     (get_all_face_encodings db))
  ∧ ((cleanup_database fs db).1 + length (get_all_face_encodings (cleanup_database fs db).2)
     = length (get_all_face_encodings db))%nat
  ∧ search_folders (cleanup_database fs db).2 = search_folders db.
Proof.
  intros Hok. unfold cleanup_database.
  destruct (cleanup_loop_spec fs db (get_all_face_encodings db) 0 Hok)
    as (Hk & _ & Hvis & _ & Hsf).
  rewrite length_fmap in Hk.
  assert (get_all_face_encodings
            (cleanup_loop fs db (get_all_face_encodings db) 0).2
          = filter (λ fd, OS.path_exists fs (fd_file_path fd) = true)
              (get_all_face_encodings db)) as Hvis'.
  { rewrite Hvis. apply filter_ext_elem. intros fd Hfd. split.
    - intros Hgone. destruct (OS.path_exists fs (fd_file_path fd)) eqn:Hex;
        [done|]. exfalso. apply Hgone. apply list_elem_of_fmap_2.
      by apply list_elem_of_filter.
    - intros Hex Hgone. apply list_elem_of_fmap in Hgone as (fd' & Heq & Hfd').
      apply list_elem_of_filter in Hfd' as [Hmiss _]. congruence. }
  split; [exact Hvis'|]. split; [by rewrite Hk|]. split; [|exact Hsf].
  rewrite Hvis', Hk.
  pose proof (filter_bool_lengths (λ fd, OS.path_exists fs (fd_file_path fd))
                (get_all_face_encodings db)). lia.
Qed.

(** X19. [cleanup_database] removes an image row exactly when its file is
    missing and some encoding points at it: the row of a missing file in
    which no face was found stays in the table. *)
Theorem cleanup_database_images fs db i :
  store_ok db →
  i ∈ images (cleanup_database fs db).2 ↔
  i ∈ images db
  ∧ (OS.path_exists fs (file_path i) = true
     ∨ ∀ fe, fe ∈ face_encodings db → image_id fe ≠ img_id i).
Proof.
  intros Hok. unfold cleanup_database.
  destruct (cleanup_loop_spec fs db (get_all_face_encodings db) 0 Hok)
    as (_ & _ & _ & Himg & _).
  rewrite Himg. destruct Hok as (Hp & Hi & _).
  split; intros [Hin H]; (split; [done|]).
  - destruct (OS.path_exists fs (file_path i)) eqn:Hex; [by left|right].
    intros fe Hfe Hid. apply H. apply list_elem_of_fmap.
    exists (join_row fe i). split; [done|].
    apply list_elem_of_filter. split; [done|].
    apply elem_of_get_all_face_encodings. exists fe, i. done.
  - intros Hgone. apply list_elem_of_fmap in Hgone as (fd & Heq & Hfd).
    apply list_elem_of_filter in Hfd as [Hmiss Hfd].
    apply elem_of_get_all_face_encodings in Hfd as (fe & i' & Hfe & Hi' & Hid & ->).
    simpl in *. assert (i' = i) as -> by (by apply (unique_paths_inj db)).
    destruct H as [Hex|Hno]; [congruence|]. by apply (Hno fe).
Qed.

End CleanupFacts.

Section MoveDeleteFacts.
Import DatabaseManager PhotoManager.

(** The move loop leaves the records of the paths it was not handed as
    they are, and keeps the store's invariants. *)
Lemma move_loop_frame fs db dest paths s f e r fs' db' :
  move_loop fs db dest paths s f e = Some (r, fs', db') →
  (store_ok db →
   store_ok db'
   ∧ ∀ q, q ∉ paths → get_image_by_path db' q = get_image_by_path db q)
  ∧ search_folders db' = search_folders db.
Proof.
  revert fs db s f e.
  induction paths as [|x paths IH]; intros fs db s f e; simpl.
  - intros [= _ _ <-]. done.
  - assert (∀ fs1 db1 s1 f1 e1,
              move_loop fs1 db1 dest paths s1 f1 e1 = Some (r, fs', db') →
              (store_ok db → store_ok db1
                  ∧ ∀ q, q ≠ x → get_image_by_path db1 q = get_image_by_path db q) →
              search_folders db1 = search_folders db →
              (store_ok db →
                 store_ok db'
                 ∧ ∀ q, q ∉ x :: paths →
                        get_image_by_path db' q = get_image_by_path db q)
              ∧ search_folders db' = search_folders db) as Hstep.
    { intros fs1 db1 s1 f1 e1 H Hdb Hsf.
      destruct (IH _ _ _ _ _ H) as (Hdb' & Hsf').
      split.
      - intros Hok. destruct (Hdb Hok) as [Hok1 Hget1].
        destruct (Hdb' Hok1) as [Hok2 Hget2]. split; [done|].
        intros q Hq. apply not_elem_of_cons in Hq as [Hqx Hq].
        by rewrite Hget2, Hget1.
      - congruence. }
    destruct (OS.path_exists fs x); [|intros H; by eapply Hstep].
    destruct (unique_dest_spec fs dest (PosixPath.basename x))
      as (d & -> & Hfree & _).
    simpl.
    destruct (OS.move fs x d) as [fs1|msg] eqn:Hmove;
      [|intros H; by eapply Hstep].
    intros H. eapply Hstep; [exact H|..].
    + intros Hok. split; [by apply store_ok_delete_image_and_faces|].
      intros q Hq. apply delete_image_and_faces_other; [|done]. apply Hok.
    + unfold delete_image_and_faces. by destruct (head _).
Qed.

(** When no listed path is a directory, the move loop leaves the entries
    of the paths it was not handed as they are and keeps the number of
    entries. *)
Lemma move_loop_files fs db dest paths s f e r fs' db' :
  (∀ p, p ∈ paths → OS.isdir fs p = false) →
  move_loop fs db dest paths s f e = Some (r, fs', db') →
  (∀ p n, p ∉ paths → nodes fs !! p = Some n → nodes fs' !! p = Some n)
  ∧ size (nodes fs') = size (nodes fs).
Proof.
  revert fs db s f e.
  induction paths as [|x paths IH]; intros fs db s f e Hfiles; simpl.
  - by intros [= _ <- _].
  - assert (∀ p, p ∈ paths → OS.isdir fs p = false) as Hrest.
    { intros p Hp. apply Hfiles. by right. }
    assert (∀ db1 s1 f1 e1,
              move_loop fs db1 dest paths s1 f1 e1 = Some (r, fs', db') →
              (∀ p n, p ∉ x :: paths → nodes fs !! p = Some n →
                      nodes fs' !! p = Some n)
              ∧ size (nodes fs') = size (nodes fs)) as Hskip.
    { intros db1 s1 f1 e1 H. destruct (IH _ _ _ _ _ Hrest H) as [Hfs Hsz].
      split; [|done]. intros p n Hp.
      apply not_elem_of_cons in Hp as [_ Hp]. by apply Hfs. }
    destruct (OS.path_exists fs x); [|by apply Hskip].
    destruct (unique_dest_spec fs dest (PosixPath.basename x))
      as (d & -> & Hfree & _).
    simpl. apply path_exists_false in Hfree.
    destruct (OS.move fs x d) as [fs1|msg] eqn:Hmove; [|by apply Hskip].
    destruct (move_fresh _ _ _ _ Hfree (Hfiles x ltac:(left)) Hmove)
      as (nx & Hx & Hnx & ->).
    assert (x ≠ d) as Hxd by congruence.
    intros H. apply IH in H as [Hfs Hsz].
    + split.
      * intros p n Hp Hn. apply not_elem_of_cons in Hp as [Hpx Hp].
        apply Hfs; [done|]. simpl.
        rewrite lookup_insert_ne by congruence.
        by rewrite lookup_delete_ne.
      * rewrite Hsz. simpl. rewrite map_size_insert_None.
        -- rewrite map_size_delete_Some by eauto.
           assert (size (nodes fs) ≠ 0%nat); [|lia].
           intros Hz. apply map_size_empty_inv in Hz. rewrite Hz in Hx.
           by rewrite lookup_empty in Hx.
        -- by rewrite lookup_delete_ne.
    + intros p Hp. unfold OS.isdir. simpl.
      destruct (decide (d = p)) as [<-|Hdp].
      { by rewrite lookup_insert_eq. }
      rewrite lookup_insert_ne by done.
      destruct (decide (x = p)) as [<-|Hxp].
      { by rewrite lookup_delete_eq. }
      rewrite lookup_delete_ne by done. by apply Hrest.
Qed.

(** X16. A regular file moved on its own into a folder given in normal
    form leaves its path, arrives with its contents and times on the name
    the renaming policy gives it, which was free, and loses its record.  In
    any call the records of the paths that were not handed in stay as they
    were; when the listed paths are in normal form and none of them is a
    directory, so do the entries of the paths that were not handed in. *)
Theorem move_files_moves :
  (∀ fs db src dest fs0 n,
     normal dest = true → denied fs = ∅ →
     with_folder fs dest fs0 → OS.isdir fs0 dest = true →
     nodes fs !! src = Some n → is_dir n = false →
     ∃ fs' d,
       move_files fs db [src] dest
         = Some (Ok (report 1 0 [], fs', (delete_image_and_faces db src).2))
       ∧ first_free fs0 dest (PosixPath.basename src) d
       ∧ PosixPath.dirname d = dest
       ∧ nodes fs !! d = None
       ∧ nodes fs' !! src = None
       ∧ nodes fs' !! d = Some n)
  ∧ (∀ fs db paths dest r fs' db',
       move_files fs db paths dest = Some (Ok (r, fs', db')) →
       (store_ok db →
        store_ok db'
        ∧ ∀ q, q ∉ paths → get_image_by_path db' q = get_image_by_path db q)
       ∧ (∀ fs0,
            with_folder fs dest fs0 →
            (∀ p, p ∈ paths → normal p = true ∧ OS.isdir fs0 p = false) →
            ∀ p n, p ∉ paths → nodes fs !! p = Some n →
                   nodes fs' !! p = Some n)).
Proof.
  split.
  - intros fs db src dest fs0 n Hn Hden Hwf Hdir Hsrc Hfile.
    apply with_folder_ensure in Hwf as Hens.
    destruct (ensure_folder_spec _ _ _ Hens) as (Hden0 & Hkeep & _).
    assert (∀ p, nodes fs0 !! p = None → nodes fs !! p = None) as Hnew.
    { intros p Hp. destruct (nodes fs !! p) as [m|] eqn:Hq; [|done].
      apply Hkeep in Hq. congruence. }
    apply Hkeep in Hsrc.
    destruct (unique_dest_first_free fs0 dest (PosixPath.basename src))
      as (d & Hu & Hff).
    pose proof (first_free_dirname _ _ _ _ Hn (basename_no_sep src) Hff)
      as Hdd.
    pose proof (proj1 Hff) as Hfree.
    assert (src ∉ denied fs0) as Hd1 by (rewrite Hden0, Hden; set_solver).
    assert (d ∉ denied fs0) as Hd2 by (rewrite Hden0, Hden; set_solver).
    assert (OS.isdir fs0 (PosixPath.dirname d) = true) as Hpar
      by by rewrite Hdd.
    pose proof (move_free_ok fs0 src d n Hsrc Hfile Hfree Hpar Hd1 Hd2)
      as Hmove.
    eexists _, d. split.
    { unfold move_files. rewrite Hens. simpl.
      rewrite (path_exists_lookup fs0 src n Hsrc), Hu. simpl. rewrite Hmove.
      reflexivity. }
    simpl. split; [done|]. split; [done|]. split; [by apply Hnew|].
    assert (d ≠ src) by congruence.
    split.
    + rewrite lookup_insert_ne by done. apply lookup_delete_eq.
    + apply lookup_insert_eq.
  - intros fs db paths dest r fs' db'. unfold move_files.
    destruct (ensure_folder fs dest) as [[fs0|msg]|] eqn:Hens; [|done|done].
    destruct (move_loop fs0 db dest paths 0 0 []) as [[[r0 fs1] db1]|] eqn:H;
      [|done].
    intros [= <- <- <-].
    destruct (move_loop_frame _ _ _ _ _ _ _ _ _ _ H) as (Hdb & _).
    split; [done|].
    intros fs0' Hwf Hfiles p n Hp Hlook.
    apply with_folder_ensure in Hwf. rewrite Hens in Hwf.
    injection Hwf as <-.
    destruct (ensure_folder_spec _ _ _ Hens) as (_ & Hkeep & _).
    assert (∀ q, q ∈ paths → OS.isdir fs0 q = false) as Hfiles'
      by (intros q Hq; by apply Hfiles).
    destruct (move_loop_files _ _ _ _ _ _ _ _ _ _ Hfiles' H) as [Hfs _].
    by apply Hfs, Hkeep.
Qed.

(** The delete loop creates nothing, leaves what it was not handed, and
    forgets every listed path that is absent or a removable file. *)
Lemma delete_loop_spec fs db paths s f e :
  let fs' := (delete_loop fs db paths s f e).1.2 in
  let db' := (delete_loop fs db paths s f e).2 in
  (∀ p n, nodes fs' !! p = Some n → nodes fs !! p = Some n)
  ∧ (∀ p, p ∉ paths → nodes fs' !! p = nodes fs !! p)
  ∧ denied fs' = denied fs
  ∧ search_folders db' = search_folders db
  ∧ (store_ok db →
     store_ok db'
     ∧ (∀ q, get_image_by_path db q = None → get_image_by_path db' q = None)
     ∧ (∀ q, q ∉ paths → get_image_by_path db' q = get_image_by_path db q)
     ∧ (∀ p, p ∈ paths →
          (nodes fs !! p = None
           ∨ ∃ n, nodes fs !! p = Some n ∧ is_dir n = false ∧ p ∉ denied fs) →
          nodes fs' !! p = None ∧ get_image_by_path db' p = None)).
Proof.
  cbv zeta. revert fs db s f e.
  induction paths as [|x paths IH]; intros fs db s f e.
  { simpl. split; [done|]. split; [done|]. split; [done|]. split; [done|].
    intros Hok. split; [done|]. split; [done|]. split; [done|].
    intros p Hp. by apply not_elem_of_nil in Hp. }
  assert (∀ q, store_ok db → get_image_by_path db q = None →
               get_image_by_path (delete_image_and_faces db x).2 q = None)
    as Hnone.
  { intros q Hok Hq. destruct (decide (q = x)) as [->|Hne].
    - by apply delete_image_and_faces_path_gone, Hok.
    - rewrite delete_image_and_faces_other; [done| apply Hok |done]. }
  assert (search_folders (delete_image_and_faces db x).2 = search_folders db)
    as Hsf by (unfold delete_image_and_faces; by destruct (head _)).
  cbn [delete_loop].
  destruct (OS.path_exists fs x) eqn:Hex.
  - unfold OS.remove.
    apply bool_decide_eq_true in Hex as [n Hn].
    rewrite Hn.
    destruct (is_dir n) eqn:Hdir; [|case_bool_decide as Hden].
    + (* a directory: [os.remove] raises *)
      destruct (IH fs db s (S f)
                  (e ++ ["Error deleting " +:+ x +:+ ": " +:+ "Is a directory"])%list)
        as (H1 & H2 & H3 & H4 & H5).
      split; [done|]. split.
      { intros p Hp. apply not_elem_of_cons in Hp as [_ Hp]. by apply H2. }
      split; [done|]. split; [done|].
      intros Hok. destruct (H5 Hok) as (Hok' & Hn' & Hq' & Hrm).
      split; [done|]. split; [done|]. split.
      { intros q Hq. apply not_elem_of_cons in Hq as [_ Hq]. by apply Hq'. }
      intros p Hp Hrem. apply elem_of_cons in Hp as [->|Hp]; [|by apply Hrm].
      destruct Hrem as [?|(n' & ? & ? & ?)]; congruence.
    + (* a protected file: [os.remove] raises *)
      destruct (IH fs db s (S f)
                  (e ++ ["Error deleting " +:+ x +:+ ": " +:+ "Permission denied"])%list)
        as (H1 & H2 & H3 & H4 & H5).
      split; [done|]. split.
      { intros p Hp. apply not_elem_of_cons in Hp as [_ Hp]. by apply H2. }
      split; [done|]. split; [done|].
      intros Hok. destruct (H5 Hok) as (Hok' & Hn' & Hq' & Hrm).
      split; [done|]. split; [done|]. split.
      { intros q Hq. apply not_elem_of_cons in Hq as [_ Hq]. by apply Hq'. }
      intros p Hp Hrem. apply elem_of_cons in Hp as [->|Hp]; [|by apply Hrm].
      destruct Hrem as [?|(n' & ? & ? & ?)]; [congruence|done].
    + (* the file is removed, then its record *)
      destruct (IH {| nodes := delete x (nodes fs); denied := denied fs |}
                  (delete_image_and_faces db x).2 (S s) f e)
        as (H1 & H2 & H3 & H4 & H5).
      simpl in H1, H2, H3.
      split.
      { intros p n' Hp. apply H1 in Hp.
        apply lookup_delete_Some in Hp as [_ Hp]. done. }
      split.
      { intros p Hp. apply not_elem_of_cons in Hp as [Hpx Hp].
        rewrite (H2 p Hp). by rewrite lookup_delete_ne. }
      split; [done|]. split; [congruence|].
      intros Hok.
      destruct (H5 (store_ok_delete_image_and_faces db x Hok))
        as (Hok' & Hn' & Hq' & Hrm).
      split; [done|]. split; [intros q Hq; by apply Hn', Hnone|]. split.
      { intros q Hq. apply not_elem_of_cons in Hq as [Hqx Hq].
        rewrite (Hq' q Hq). apply delete_image_and_faces_other; [apply Hok|done]. }
      intros p Hp Hrem. destruct (decide (p = x)) as [->|Hpx].
      * split.
        -- apply eq_None_not_Some. intros [n' Hlook].
           apply H1 in Hlook. by rewrite lookup_delete_eq in Hlook.
        -- apply Hn'. by apply delete_image_and_faces_path_gone, Hok.
      * apply elem_of_cons in Hp as [?|Hp]; [done|].
        apply Hrm; [done|]. simpl. rewrite lookup_delete_ne by done. done.
  - (* the file is absent: the record is removed all the same *)
    apply path_exists_false in Hex.
    destruct (IH fs (delete_image_and_faces db x).2 s (S f)
                (e ++ ["File not found: " +:+ x])%list)
      as (H1 & H2 & H3 & H4 & H5).
    split; [done|]. split.
    { intros p Hp. apply not_elem_of_cons in Hp as [_ Hp]. by apply H2. }
    split; [done|]. split; [congruence|].
    intros Hok.
    destruct (H5 (store_ok_delete_image_and_faces db x Hok))
      as (Hok' & Hn' & Hq' & Hrm).
    split; [done|]. split; [intros q Hq; by apply Hn', Hnone|]. split.
    { intros q Hq. apply not_elem_of_cons in Hq as [Hqx Hq].
      rewrite (Hq' q Hq). apply delete_image_and_faces_other; [apply Hok|done]. }
    intros p Hp Hrem. destruct (decide (p = x)) as [->|Hpx].
    + split.
      * apply eq_None_not_Some. intros [n' Hlook].
        apply H1 in Hlook. congruence.
      * apply Hn'. by apply delete_image_and_faces_path_gone, Hok.
    + apply elem_of_cons in Hp as [?|Hp]; [done|]. by apply Hrm.
Qed.


End MoveDeleteFacts.

Section InvariantFacts.
Import DatabaseManager PhotoManager.

(** X3. The schema constraints hold of the empty database and are kept by
    every operation of the manager: unique paths, unique ids, no id above
    the AUTOINCREMENT counter, and no encoding pointing above it. *)
Theorem store_ok_preserved detect fs db :
  store_ok init_database
  ∧ (store_ok db →
     (∀ p, store_ok (add_search_folder db p).2)
     ∧ (∀ p, store_ok (remove_search_folder db p).2)
     ∧ (∀ p name size m faces folder,
          store_ok (add_image_record db p name size m faces folder).2)
     ∧ (∀ p, store_ok (delete_image_and_faces db p).2)
     ∧ (∀ p, store_ok (index_image detect fs db p).1.2)
     ∧ (∀ paths, store_ok (index_images_batch detect fs db paths).1.2)
     ∧ (∀ paths dest r fs' db',
          move_files fs db paths dest = Some (Ok (r, fs', db')) → store_ok db')
     ∧ (∀ paths, store_ok (delete_files fs db paths).2)
     ∧ store_ok (cleanup_database fs db).2).
Proof.
  split; [apply store_ok_init|]. intros Hok.
  split; [intros p; by apply store_ok_folders|].
  split; [intros p; by apply store_ok_folders|].
  split; [intros; by apply store_ok_add_image_record|].
  split; [intros; by apply store_ok_delete_image_and_faces|].
  split; [intros; by apply store_ok_index_image|].
  split.
  { intros paths. unfold index_images_batch.
    destruct (batch_loop_spec detect fs db paths 0 0 0 [])
      as (db' & c' & -> & _ & _ & _ & Hok' & _). by apply Hok'. }
  split.
  { intros paths dest r fs' db'. unfold move_files.
    destruct (ensure_folder fs dest) as [[fs0|msg]|]; [|done|done].
    destruct (move_loop fs0 db dest paths 0 0 []) as [[[r0 fs1] db1]|] eqn:H;
      [|done].
    intros [= <- <- <-].
    destruct (move_loop_frame _ _ _ _ _ _ _ _ _ _ H) as (Hdb & _).
    by apply Hdb. }
  split.
  { intros paths. unfold delete_files.
    destruct (delete_loop_spec fs db paths 0 0 []) as (_ & _ & _ & _ & H5).
    by apply H5. }
  unfold cleanup_database.
  by apply (cleanup_loop_spec fs db (get_all_face_encodings db) 0 Hok).
Qed.

End InvariantFacts.

Section UploadFilter.
Import FaceRecognitionEngine WebApp.

Lemma lower_ascii_dot a :
  Ascii.eqb (PosixPath.lower_ascii a) "." = Ascii.eqb a ".".
Proof. destruct a as [[] [] [] [] [] [] [] []]; reflexivity. Qed.

Lemma rpartition_dot_lower s :
  PosixPath.rpartition "." (PosixPath.lower s)
  = (λ ht, (PosixPath.lower ht.1, PosixPath.lower ht.2))
      <$> PosixPath.rpartition "." s.
Proof.
  induction s as [|a s IH]; simpl; [done|]. rewrite IH.
  destruct (PosixPath.rpartition "." s) as [[h t]|]; simpl; [done|].
  rewrite lower_ascii_dot. by destruct (Ascii.eqb a ".").
Qed.

Lemma supported_extension e :
  String "." e ∈ supported_formats → e ∈ allowed_extensions.
Proof.
  unfold supported_formats, allowed_extensions. intros H.
  repeat (apply elem_of_cons in H as [H|H];
          [injection H as ->; apply (bool_decide_unpack _); by vm_compute|]).
  by apply not_elem_of_nil in H.
Qed.

Lemma empty_not_supported : "" ∉ supported_formats.
Proof. apply (bool_decide_unpack _). by vm_compute. Qed.

(** X20. Every path the engine accepts as an image passes the upload
    filter of the web application; the filter is the laxer of the two, as
    it also passes the bare name [.jpg], which the engine rejects. *)
Theorem supported_image_is_allowed_file :
  (∀ p, is_supported_image p = true → allowed_file p = true)
  ∧ allowed_file ".jpg" = true ∧ is_supported_image ".jpg" = false.
Proof.
  split; [|split; reflexivity].
  intros p. unfold is_supported_image, allowed_file, PosixPath.splitext.
  rewrite bool_decide_eq_true.
  assert (∀ dir name,
            PosixPath.lower p = dir +:+ name →
            (match PosixPath.rpartition "." name with
             | Some (stem, e) =>
                 if PosixPath.all_char "." stem then (PosixPath.lower p, "")
                 else (dir +:+ stem, String "." e)
             | None => (PosixPath.lower p, "")
             end).2 ∈ supported_formats →
            match PosixPath.rpartition "." p with
            | Some (_, ext) =>
                bool_decide (PosixPath.lower ext ∈ allowed_extensions)
            | None => false
            end = true) as Hmain.
  { intros dir name Hsplit.
    destruct (PosixPath.rpartition "." name) as [[stem e]|] eqn:Hname.
    2:{ simpl. intros H. by apply empty_not_supported in H. }
    destruct (PosixPath.all_char "." stem).
    { simpl. intros H. by apply empty_not_supported in H. }
    simpl. intros Hext. apply supported_extension in Hext.
    pose proof (rpartition_app_Some "." dir name stem e Hname) as Hq.
    rewrite <- Hsplit, rpartition_dot_lower in Hq.
    destruct (PosixPath.rpartition "." p) as [[h t]|]; [|done].
    simpl in Hq. injection Hq as _ <-. by apply bool_decide_eq_true. }
  destruct (PosixPath.rpartition "/" (PosixPath.lower p)) as [[h t]|] eqn:Hsep.
  - apply Hmain. apply rpartition_Some in Hsep. rewrite Hsep.
    clear. induction h as [|a h IH]; [done|].
    change (String a (h +:+ String "/" t) = String a ((h +:+ "/") +:+ t)).
    by f_equal.
  - by apply Hmain.
Qed.

End UploadFilter.

Section SizeFacts.
Import DatabaseManager PhotoManager.

Lemma copy_loop_size fs dest paths s f e r fs' :
  copy_loop fs dest paths s f e = Some (r, fs') →
  (size (nodes fs') + s = size (nodes fs) + successful r)%nat.
Proof.
  revert fs s f e. induction paths as [|x paths IH]; intros fs s f e; simpl.
  - intros [= <- <-]. simpl. lia.
  - destruct (OS.path_exists fs x); [|by apply IH].
    destruct (unique_dest_spec fs dest (PosixPath.basename x))
      as (d & -> & Hfree & _).
    simpl. apply path_exists_false in Hfree.
    destruct (OS.copy2 fs x d) as [fs1|msg] eqn:Hcopy; [|by apply IH].
    intros H. apply IH in H.
    destruct (copy2_fresh _ _ _ _ Hfree Hcopy) as (nx & _ & _ & _ & _ & ->).
    simpl in H. rewrite map_size_insert_None in H by done. lia.
Qed.

Lemma delete_loop_size fs db paths s f e :
  (size (nodes (delete_loop fs db paths s f e).1.2)
   + successful (delete_loop fs db paths s f e).1.1
   = size (nodes fs) + s)%nat.
Proof.
  revert fs db s f e.
  induction paths as [|x paths IH]; intros fs db s f e; simpl; [done|].
  destruct (OS.path_exists fs x) eqn:Hex; [|by apply IH].
  unfold OS.remove. apply bool_decide_eq_true in Hex as [n Hn]. rewrite Hn.
  destruct (is_dir n); [by apply IH|].
  case_bool_decide; [by apply IH|].
  rewrite IH. simpl. rewrite map_size_delete_Some by eauto.
  assert (size (nodes fs) ≠ 0%nat); [|lia].
  intros Hz. apply map_size_empty_inv in Hz. rewrite Hz in Hn.
  by rewrite lookup_empty in Hn.
Qed.

(** Putting the folder in place adds entries only when the folder is
    absent: one when the directory that is to hold it exists. *)
Lemma with_folder_size fs dest fs0 :
  with_folder fs dest fs0 →
  (OS.path_exists fs dest = true → fs0 = fs)
  ∧ (normal dest = true → OS.path_exists fs dest = false →
     (size (nodes fs) < size (nodes fs0))%nat
     ∧ (OS.isdir fs (PosixPath.dirname dest) = true →
        size (nodes fs0) = S (size (nodes fs)))).
Proof.
  intros Hwf. apply with_folder_ensure in Hwf as Hens.
  destruct (ensure_folder_spec _ _ _ Hens) as (_ & Hkeep & _ & Hsame & Hdest).
  split; [done|]. intros Hn Habs.
  apply path_exists_false in Habs as Hfree.
  split.
  - destruct (Hdest Hn) as [Hex _].
    apply bool_decide_eq_true in Hex as [d Hd].
    assert (nodes fs ⊆ delete dest (nodes fs0)) as Hsub.
    { apply map_subseteq_spec. intros p n Hp.
      rewrite lookup_delete_ne by congruence. by apply Hkeep. }
    apply map_subseteq_size in Hsub.
    rewrite map_size_delete_Some in Hsub by eauto.
    assert (size (nodes fs0) ≠ 0%nat); [|lia].
    intros Hz. apply map_size_empty_inv in Hz. rewrite Hz in Hd.
    by rewrite lookup_empty in Hd.
  - intros Hpar. unfold ensure_folder in Hens. rewrite Habs in Hens.
    unfold OS.makedirs in Hens. rewrite makedirs_rec_unfold in Hens.
    cbv zeta in Hens.
    destruct (normal_shape dest Hn) as [->|(_ & _ & Hb & _)].
    { unfold OS.isdir in Hpar.
      change (PosixPath.dirname "/") with "/" in Hpar.
      by rewrite Hfree in Hpar. }
    rewrite (bool_decide_eq_false_2 _ Hb) in Hens.
    assert (OS.path_exists fs (PosixPath.dirname dest) = true) as Hex.
    { unfold OS.isdir in Hpar. apply bool_decide_eq_true.
      by destruct (nodes fs !! PosixPath.dirname dest). }
    rewrite Hex, andb_false_r in Hens. injection Hens as Hmk.
    apply mkdir_Ok in Hmk as (_ & _ & _ & ->). simpl.
    by rewrite map_size_insert_None.
Qed.

(** X21. With the destination folder in place, a copy adds one entry per
    success; a move in which no listed path is a directory and nothing is
    protected keeps the number of entries; a delete removes one entry per
    success.  Putting the folder in place adds nothing when it exists, at
    least one entry when a folder given in normal form is absent, and
    exactly one when the directory that is to hold it exists. *)
Theorem file_operation_sizes :
  (∀ fs paths dest fs0 r fs',
     with_folder fs dest fs0 →
     copy_files fs paths dest = Some (Ok (r, fs')) →
     size (nodes fs') = (size (nodes fs0) + successful r)%nat)
  ∧ (∀ fs db paths dest fs0 r fs' db',
       denied fs = ∅ → with_folder fs dest fs0 →
       (∀ p, p ∈ paths → OS.isdir fs0 p = false) →
       move_files fs db paths dest = Some (Ok (r, fs', db')) →
       size (nodes fs') = size (nodes fs0))
  ∧ (∀ fs db paths,
       (size (nodes (delete_files fs db paths).1.2)
        + successful (delete_files fs db paths).1.1
        = size (nodes fs))%nat)
  ∧ (∀ fs dest fs0,
       with_folder fs dest fs0 →
       (OS.path_exists fs dest = true → fs0 = fs)
       ∧ (normal dest = true → OS.path_exists fs dest = false →
          (size (nodes fs) < size (nodes fs0))%nat
          ∧ (OS.isdir fs (PosixPath.dirname dest) = true →
             size (nodes fs0) = S (size (nodes fs))))).
Proof.
  split; [|split; [|split]].
  - intros fs paths dest fs0 r fs' Hwf. apply with_folder_ensure in Hwf.
    unfold copy_files. rewrite Hwf.
    destruct (copy_loop fs0 dest paths 0 0 []) as [[r0 fs1]|] eqn:H; [|done].
    intros [= <- <-]. apply copy_loop_size in H. lia.
  - intros fs db paths dest fs0 r fs' db' _ Hwf Hfiles.
    apply with_folder_ensure in Hwf. unfold move_files. rewrite Hwf.
    destruct (move_loop fs0 db dest paths 0 0 []) as [[[r0 fs1] db1]|] eqn:H;
      [|done].
    intros [= <- <- <-].
    by destruct (move_loop_files _ _ _ _ _ _ _ _ _ _ Hfiles H).
  - intros fs db paths. unfold delete_files.
    pose proof (delete_loop_size fs db paths 0 0 []). lia.
  - apply with_folder_size.
Qed.

End SizeFacts.

Section LastFolder.
Import DatabaseManager PhotoManager.

Variable lib : Encoding → list Encoding → option (list Q).

(** X22. Deactivating the only active folder does not empty the restricted
    search: with no active folder left it returns what the unrestricted
    search returns. *)
Theorem search_after_last_folder_removed db p q tol ms :
  get_search_folders db = [p] →
  search_similar_faces lib (remove_search_folder db p).2 q tol ms true
  = search_similar_faces lib db q tol ms false.
Proof.
  intros Hone. rewrite !search_unfold.
  change (get_all_face_encodings (remove_search_folder db p).2)
    with (get_all_face_encodings db).
  case_bool_decide; [done|].
  assert (current_folders (remove_search_folder db p).2 true = []) as ->.
  { unfold current_folders, get_search_folders. simpl.
    rewrite deactivate_active_paths.
    fold (get_search_folders db). rewrite Hone.
    by rewrite filter_cons, decide_False by (by intros ?). }
  by rewrite (scan_ext lib lib q tol ms true [] false
                (current_folders db false)).
Qed.

End LastFolder.

(** ** The further theorems at work on the small collection *)

Section MoreInstances.
Import DatabaseManager PhotoManager FaceRecognitionEngine WebApp Scenario.

Lemma store_ok_configured : store_ok configured.
Proof. store_ok_by_evaluation. Qed.

Lemma store_ok_indexed : store_ok indexed.
Proof. store_ok_by_evaluation. Qed.

Lemma store_ok_with_broken : store_ok with_broken.
Proof. store_ok_by_evaluation. Qed.

Lemma remove_search_folder_deactivates_witness :
  ("/elsewhere" ∉ (sf_folder_path <$> search_folders configured))
  ∧ (remove_search_folder configured "/elsewhere").2 = configured.
Proof.
  assert ("/elsewhere" ∉ (sf_folder_path <$> search_folders configured)) as H
    by by_evaluation.
  split; [exact H|].
  exact (proj2 (proj2 (remove_search_folder_deactivates configured "/elsewhere"))
           H).
Defined.

Lemma store_ok_preserved_witness :
  store_ok configured
  ∧ store_ok (index disk configured "/photos/a.jpg")
  ∧ store_ok (delete_files disk configured to_copy).2.
Proof.
  split; [exact store_ok_configured|].
  destruct (proj2 (store_ok_preserved detect disk configured) store_ok_configured)
    as (_ & _ & _ & _ & Hindex & _ & _ & Hdelete & _).
  split; [exact (Hindex _)|exact (Hdelete _)].
Defined.

Lemma add_image_record_round_trip_witness :
  sqlite_integer 7 ∧ sqlite_integer (Z.of_nat 0) ∧ rowid_left portraits
  ∧ get_image_by_path
      (add_image_record portraits "/new.jpg" "new.jpg" 7 300 0 "/").2
      "/photos/a.jpg"
    = get_image_by_path portraits "/photos/a.jpg".
Proof.
  assert (sqlite_integer 7) as Hsize by (unfold sqlite_integer; by_evaluation).
  assert (sqlite_integer (Z.of_nat 0)) as Hfaces
    by (unfold sqlite_integer; by_evaluation).
  assert (rowid_left portraits) as Hleft
    by (unfold rowid_left, sqlite_integer; by_evaluation).
  split; [exact Hsize|]. split; [exact Hfaces|]. split; [exact Hleft|].
  destruct (add_image_record_round_trip portraits "/new.jpg" "new.jpg" 7 300 0
              "/" Hsize Hfaces Hleft)
    as (id & _ & _ & _ & _ & Hother & _).
  apply Hother. discriminate.
Defined.

Lemma get_face_encodings_by_image_round_trip_witness :
  store_ok configured
  ∧ ∃ row,
      get_image_by_path (index disk configured "/photos/a.jpg") "/photos/a.jpg"
        = Some row
      ∧ (face_facts <$>
           get_face_encodings_by_image (index disk configured "/photos/a.jpg")
             (img_id row))
        = numbered 0 (detected detect disk "/photos/a.jpg")
      ∧ Forall (λ fe, image_id fe = img_id row)
          (get_face_encodings_by_image (index disk configured "/photos/a.jpg")
             (img_id row)).
Proof.
  split; [exact store_ok_configured|].
  apply (get_face_encodings_by_image_round_trip detect disk configured
           "/photos/a.jpg" (picture 100 "anna") store_ok_configured);
    vm_compute; reflexivity.
Defined.

Lemma delete_image_and_faces_frame_witness :
  store_ok indexed
  ∧ get_all_face_encodings (delete_image_and_faces indexed "/photos/a.jpg").2
    = filter (λ fd, fd_file_path fd ≠ "/photos/a.jpg")
        (get_all_face_encodings indexed)
  ∧ get_image_by_path (delete_image_and_faces indexed "/photos/a.jpg").2
      "/photos/b.jpg"
    = get_image_by_path indexed "/photos/b.jpg".
Proof.
  split; [exact store_ok_indexed|].
  destruct (delete_image_and_faces_frame indexed "/photos/a.jpg" store_ok_indexed)
    as (Hseen & Hother & _).
  split; [exact Hseen|]. apply Hother. discriminate.
Defined.

Lemma index_image_false_iff_witness :
  nodes disk !! "/nowhere.png" = None
  ∧ (index_image detect disk indexed "/nowhere.png").1.1 = false
  ∧ index_image detect disk indexed "/nowhere.png" = (false, indexed, []).
Proof.
  assert (nodes disk !! "/nowhere.png" = None) as Hn by (vm_compute; reflexivity).
  pose proof (proj2 (proj1 (index_image_false_iff detect disk indexed
                              "/nowhere.png")) (or_introl Hn)) as Hf.
  split; [exact Hn|]. split; [exact Hf|].
  exact (proj2 (index_image_false_iff detect disk indexed "/nowhere.png") Hf).
Defined.

Lemma index_image_writes_pass_witness :
  store_ok configured
  ∧ (index_image detect disk configured "/photos/a.jpg").1.1 = true
  ∧ (joined_facts <$> visible_at (index disk configured "/photos/a.jpg")
                        "/photos/a.jpg")
    = numbered 0 (detected detect disk "/photos/a.jpg").
Proof.
  split; [exact store_ok_configured|].
  assert (nodes disk !! "/photos/a.jpg" = Some (picture 100 "anna")) as Hn
    by (vm_compute; reflexivity).
  assert (is_supported_image "/photos/a.jpg" = true) as Hs by reflexivity.
  assert (is_image_processed configured "/photos/a.jpg"
            (st_mtime (picture 100 "anna")) = false) as Hp
    by (vm_compute; reflexivity).
  destruct (index_image_writes_pass detect disk configured "/photos/a.jpg"
              (picture 100 "anna") store_ok_configured Hn Hs Hp)
    as (Hret & _ & Hseen & _).
  split; [exact Hret|exact Hseen].
Defined.

Lemma index_image_frame_witness :
  store_ok indexed
  ∧ get_image_by_path with_broken "/photos/a.jpg"
    = get_image_by_path indexed "/photos/a.jpg"
  ∧ visible_at with_broken "/photos/a.jpg" = visible_at indexed "/photos/a.jpg".
Proof.
  split; [exact store_ok_indexed|].
  apply (proj1 (index_image_frame detect disk indexed "/photos/broken.jpg"
                  store_ok_indexed)).
  discriminate.
Defined.

Lemma search_thresholds_monotone_witness :
  (5 # 10 <= 6 # 10)%Q ∧ (55 # 100 <= 8 # 10)%Q
  ∧ (length (search_similar_faces lib_face_distance indexed query
               (5 # 10) (8 # 10) true)
     ≤ length (search_similar_faces lib_face_distance indexed query
                 (6 # 10) (55 # 100) true))%nat.
Proof.
  assert (5 # 10 <= 6 # 10)%Q as Htol by (apply Qle_bool_iff; reflexivity).
  assert (55 # 100 <= 8 # 10)%Q as Hms by (apply Qle_bool_iff; reflexivity).
  split; [exact Htol|]. split; [exact Hms|].
  exact (proj2 (search_thresholds_monotone lib_face_distance indexed query
                  (6 # 10) (5 # 10) (55 # 100) (8 # 10) true Htol Hms)).
Defined.

Lemma search_results_sound_witness :
  anna_match ∈ search_similar_faces lib_face_distance indexed query
                 (6 # 10) (55 # 100) true
  ∧ (m_distance anna_match <= 6 # 10)%Q
  ∧ (55 # 100 <= m_similarity anna_match)%Q
  ∧ m_similarity anna_match = (1 - m_distance anna_match)%Q.
Proof.
  assert (anna_match ∈ search_similar_faces lib_face_distance indexed query
                         (6 # 10) (55 # 100) true) as Hin.
  { apply list_elem_of_In. vm_compute. right. left. reflexivity. }
  split; [exact Hin|].
  destruct (search_results_sound lib_face_distance indexed query
              (6 # 10) (55 # 100) true anna_match Hin)
    as (Htol & Hms & Hsim & _).
  split; [exact Htol|]. split; [exact Hms|exact Hsim].
Defined.

Lemma search_ties_keep_table_order_witness :
  (∀ fd, fd ∈ in_scope twins true →
         row_distance lib_face_distance query fd = Some (distance fd))
  ∧ filter (λ m, (m_similarity m == 7 # 10)%Q)
      (search_similar_faces lib_face_distance twins query (6 # 10) (55 # 100) true)
    = (λ fd, make_match fd (distance fd)) <$>
        filter (λ fd, ((distance fd <= 6 # 10)%Q
                       ∧ (55 # 100 <= 1 - distance fd)%Q)
                      ∧ (1 - distance fd == 7 # 10)%Q)
               (in_scope twins true).
Proof.
  assert (∀ fd, fd ∈ in_scope twins true →
            row_distance lib_face_distance query fd = Some (distance fd)) as H.
  { intros fd Hin. apply list_elem_of_In in Hin. vm_compute in Hin.
    repeat (destruct Hin as [<-|Hin]; [vm_compute; reflexivity|]).
    destruct Hin. }
  split; [exact H|].
  exact (search_ties_keep_table_order lib_face_distance twins query
           (6 # 10) (55 # 100) true distance (7 # 10) H).
Defined.

Lemma search_after_delete_witness :
  unique_paths indexed
  ∧ dora_match ∈ search_similar_faces lib_face_distance
                   (delete_image_and_faces indexed "/photos/a.jpg").2 query
                   (6 # 10) (55 # 100) true
  ∧ m_file_path dora_match ≠ "/photos/a.jpg".
Proof.
  assert (unique_paths indexed) as Hu by exact (proj1 store_ok_indexed).
  assert (dora_match ∈ search_similar_faces lib_face_distance
                         (delete_image_and_faces indexed "/photos/a.jpg").2 query
                         (6 # 10) (55 # 100) true) as Hin.
  { apply list_elem_of_In. vm_compute. left. reflexivity. }
  split; [exact Hu|]. split; [exact Hin|].
  exact (search_after_delete lib_face_distance indexed "/photos/a.jpg" query
           (6 # 10) (55 # 100) true dora_match Hu Hin).
Defined.

Lemma move_files_moves_witness :
  (∃ fs' d,
     move_files disk indexed ["/photos/a.jpg"] "/album"
       = Some (Ok (report 1 0 [], fs',
                   (delete_image_and_faces indexed "/photos/a.jpg").2))
     ∧ first_free disk_album "/album" "a.jpg" d
     ∧ PosixPath.dirname d = "/album"
     ∧ nodes disk !! d = None
     ∧ nodes fs' !! "/photos/a.jpg" = None
     ∧ nodes fs' !! d = Some (picture 100 "anna"))
  ∧ match move_files disk indexed to_move "/album" with
    | Some (Ok (r, fs', db')) =>
        store_ok db'
        ∧ get_image_by_path db' "/photos/b.jpg"
          = get_image_by_path indexed "/photos/b.jpg"
        ∧ nodes fs' !! "/photos/b.jpg" = Some (picture 110 "bela")
    | _ => False
    end.
Proof.
  assert (with_folder disk "/album" disk_album) as Hwf
    by (vm_compute; reflexivity).
  split.
  - apply (proj1 move_files_moves disk indexed "/photos/a.jpg" "/album"
             disk_album (picture 100 "anna"));
      solve [exact Hwf | vm_compute; reflexivity].
  - destruct (move_files disk indexed to_move "/album")
      as [[[[r fs'] db']|msg]|] eqn:H.
    + destruct (proj2 move_files_moves _ _ _ _ _ _ _ H) as [Hdb Hfs].
      destruct (Hdb store_ok_indexed) as [Hok Hother].
      split; [exact Hok|]. split; [apply Hother; by_evaluation|].
      apply (Hfs disk_album Hwf).
      * apply (proj1 (Forall_forall _ _)). by_evaluation.
      * by_evaluation.
      * vm_compute. reflexivity.
    + vm_compute in H. discriminate H.
    + vm_compute in H. discriminate H.
Defined.


Lemma cleanup_database_visible_witness :
  store_ok with_broken
  ∧ get_all_face_encodings (cleanup_database disk_pruned with_broken).2
    = filter (λ fd, OS.path_exists disk_pruned (fd_file_path fd) = true)
             (get_all_face_encodings with_broken)
  ∧ (cleanup_database disk_pruned with_broken).1
    = length (filter (λ fd, OS.path_exists disk_pruned (fd_file_path fd) = false)
                     (get_all_face_encodings with_broken)).
Proof.
  split; [exact store_ok_with_broken|].
  destruct (cleanup_database_visible disk_pruned with_broken store_ok_with_broken)
    as (Hseen & Hcount & _).
  split; [exact Hseen|exact Hcount].
Defined.

Lemma cleanup_database_images_witness :
  store_ok with_broken
  ∧ OS.path_exists disk_pruned (file_path broken_row) = false
  ∧ broken_row ∈ images (cleanup_database disk_pruned with_broken).2.
Proof.
  split; [exact store_ok_with_broken|]. split; [vm_compute; reflexivity|].
  apply (proj2 (cleanup_database_images disk_pruned with_broken broken_row
                  store_ok_with_broken)).
  split.
  - apply list_elem_of_In. vm_compute. do 5 right. left. reflexivity.
  - right. apply (proj1 (Forall_forall _ _)). by_evaluation.
Defined.

Lemma supported_image_is_allowed_file_witness :
  is_supported_image "/photos/a.JPG" = true
  ∧ allowed_file "/photos/a.JPG" = true.
Proof.
  assert (is_supported_image "/photos/a.JPG" = true) as H by reflexivity.
  split; [exact H|].
  exact (proj1 supported_image_is_allowed_file "/photos/a.JPG" H).
Defined.

Lemma file_operation_sizes_witness :
  with_folder disk "/album" disk_album
  ∧ match copy_files disk to_copy "/album" with
    | Some (Ok (r, fs')) =>
        size (nodes fs') = (size (nodes disk_album) + successful r)%nat
    | _ => False
    end
  ∧ match move_files disk indexed to_move "/album" with
    | Some (Ok (r, fs', _)) => size (nodes fs') = size (nodes disk_album)
    | _ => False
    end
  ∧ size (nodes disk_album) = S (size (nodes disk)).
Proof.
  assert (with_folder disk "/album" disk_album) as Hwf
    by (vm_compute; reflexivity).
  split; [exact Hwf|]. split; [|split].
  - destruct (copy_files disk to_copy "/album") as [[[r fs']|msg]|] eqn:H.
    + exact (proj1 file_operation_sizes _ _ _ _ _ _ Hwf H).
    + vm_compute in H. discriminate H.
    + vm_compute in H. discriminate H.
  - destruct (move_files disk indexed to_move "/album")
      as [[[[r fs'] db']|msg]|] eqn:H.
    + apply (proj1 (proj2 file_operation_sizes) disk indexed to_move "/album"
               disk_album r fs' db' eq_refl Hwf); [|exact H].
      apply (proj1 (Forall_forall _ _)). by_evaluation.
    + vm_compute in H. discriminate H.
    + vm_compute in H. discriminate H.
  - apply (proj2 (proj2 (proj2 (proj2 (proj2 file_operation_sizes))
                           disk "/album" disk_album Hwf)
                    eq_refl eq_refl));
      vm_compute; reflexivity.
Defined.

Lemma search_after_last_folder_removed_witness :
  get_search_folders indexed = ["/photos"]
  ∧ search_similar_faces lib_face_distance unscoped query (6 # 10) (55 # 100) true
    = search_similar_faces lib_face_distance indexed query (6 # 10) (55 # 100) false.
Proof.
  assert (get_search_folders indexed = ["/photos"]) as H
    by (vm_compute; reflexivity).
  split; [exact H|].
  exact (search_after_last_folder_removed lib_face_distance indexed "/photos"
           query (6 # 10) (55 # 100) H).
Defined.

(** Two copies of one portrait tie at similarity 0.7 and come back in the
    order in which they were indexed. *)
Example search_ties_on_collection :
  (m_file_path <$>
     filter (λ m, (m_similarity m == 7 # 10)%Q)
       (search_similar_faces lib_face_distance twins query
          (6 # 10) (55 # 100) true))
  = ["/photos/a.jpg"; "/photos/a2.jpg"].
Proof. vm_compute. reflexivity. Qed.

(** With [/photos/b.jpg] and [/photos/broken.jpg] gone from the disk, the
    clean-up counts one encoding and removes one image row; the row of
    [/photos/broken.jpg], which has no face, stays. *)
Example cleanup_on_collection :
  (cleanup_database disk_pruned with_broken).1 = 1%nat
  ∧ (file_path <$> images (cleanup_database disk_pruned with_broken).2)
    = ["/photos/a.jpg"; "/photos/c.jpg"; "/photos-old/d.jpg"; "/inbox/a.jpg";
       "/photos/broken.jpg"].
Proof. split; vm_compute; reflexivity. Qed.

(** A batch over the collection: the directory and the missing path fail,
    the file on which the detector raises counts as indexed. *)
Example batch_on_collection :
  (index_images_batch detect disk configured
     ["/photos/a.jpg"; "/photos/broken.jpg"; "/nowhere.png"; "/photos"]).1.1
  = {| bt_total := 4; bt_successful := 2; bt_failed := 2; bt_progress := 4 |}.
Proof. vm_compute. reflexivity. Qed.

End MoreInstances.
